(** * Steadicam: the stage director's synchronisation core, trips and lifecycle

    A shallow embedding of the Go package [steadicam] (the [StageDirector],
    its update-interception wrapper, the background consumer
    [syncModelUpdates], the wait and assertion methods, [Stop]), of its
    sub-package [trip], and of the older [InteractiveTestDirector] that lives
    in the same package.

    Conventions.
    - An [int64] is a [Z]; [atomic.AddInt64] wraps around ([AddInt64]).
    - A Go [string] is a Rocq [string], one [ascii] per byte; a [range]
      over a string walks its runes ([runes]), a byte that starts no
      well-formed UTF-8 encoding counting as the rune U+FFFD.
    - [map[string]interface{}] is a [gmap string Value].
    - Pointers that the source tests against [nil] are [option]s (or a
      [bool] when only the test matters).
    - Wall-clock readings ([time.Now()], durations of sleeps) and the trace
      output of [t.Logf] carry no information any statement below reads;
      they are left out.  (The methods that trace need a [t] that is not
      nil; the examples below all have one.)  Which branch a [select]
      takes, and what the other goroutines do while the calling goroutine
      sleeps, is given to each blocking method as an explicit schedule. *)

From Stdlib Require Import ZArith Lia List String Ascii Bool.
From stdpp Require Import base option gmap strings list.
Import ListNotations.

Local Open Scope string_scope.
Local Open Scope list_scope.
Local Open Scope Z_scope.

(** ** 64-bit signed integers *)

Module Int64.

Definition min_int64 : Z := - 2 ^ 63.
Definition max_int64 : Z := 2 ^ 63 - 1.

Definition in_range (z : Z) : Prop := min_int64 <= z <= max_int64.

(** Two's-complement wrap-around of an unbounded integer. *)
Definition wrap (z : Z) : Z := (z + 2 ^ 63) mod 2 ^ 64 - 2 ^ 63.

(** [atomic.AddInt64(&x, delta)]: the new value of [x]. *)
Definition AddInt64 (x delta : Z) : Z := wrap (x + delta).

(** Room for one more increment. *)
Definition below_max (z : Z) : Prop := min_int64 <= z < max_int64.

End Int64.

(** ** Values stored behind [interface{}] *)

Inductive Value : Type :=
| VString (s : string)
| VInt (z : Z)
| VDuration (nanos : Z)
| VTime
| VNil.

(** ** Package [trip] *)

Module trip.

Inductive Severity : Type := Stumble | Error | Fall.

#[global] Instance Severity_eq_dec : EqDecision Severity.
Proof. solve_decision. Defined.

Definition Severity_String (s : Severity) : string :=
  match s with
  | Stumble => "stumble"
  | Error => "error"
  | Fall => "fall"
  end.

Record Trip : Type := mkTrip {
  trip_Type : string;
  trip_Message : string;
  trip_Context : gmap string Value;
  trip_Attempt : Z;
  trip_Severity : Severity
}.

(** [NewTrip]: the default severity is [Error]. *)
Definition NewTrip (errorType message : string) (context : gmap string Value) : Trip :=
  {| trip_Type := errorType; trip_Message := message; trip_Context := context;
     trip_Attempt := 0; trip_Severity := Error |}.

Definition NewStumble (errorType message : string) (context : gmap string Value) : Trip :=
  {| trip_Type := errorType; trip_Message := message; trip_Context := context;
     trip_Attempt := 0; trip_Severity := Stumble |}.

Definition NewFall (errorType message : string) (context : gmap string Value) : Trip :=
  {| trip_Type := errorType; trip_Message := message; trip_Context := context;
     trip_Attempt := 0; trip_Severity := Fall |}.

Definition WithAttempt (t : Trip) (attemptNumber : Z) : Trip :=
  {| trip_Type := trip_Type t; trip_Message := trip_Message t;
     trip_Context := trip_Context t; trip_Attempt := attemptNumber;
     trip_Severity := trip_Severity t |}.

Definition WithSeverity (t : Trip) (severity : Severity) : Trip :=
  {| trip_Type := trip_Type t; trip_Message := trip_Message t;
     trip_Context := trip_Context t; trip_Attempt := trip_Attempt t;
     trip_Severity := severity |}.

(** [Trip.Error]: ["[type:severity] message"]. *)
Definition Error_string (t : Trip) : string :=
  "[" +:+ trip_Type t +:+ ":" +:+ Severity_String (trip_Severity t) +:+ "] "
      +:+ trip_Message t.

Definition CanRecover (t : Trip) : bool :=
  bool_decide (trip_Severity t = Stumble).

Definition IsFall (t : Trip) : bool :=
  bool_decide (trip_Severity t = Fall).

Definition GetContext (t : Trip) (key : string) : option Value :=
  trip_Context t !! key.

Record Policy : Type := mkPolicy {
  StopOnFall : bool;
  MaxStumbles : Z;
  RecoverableTypes : list string
}.

Definition DefaultPolicy : Policy :=
  {| StopOnFall := true; MaxStumbles := 10;
     RecoverableTypes := ["visual"; "interaction"; "timing"] |}.

Record Handler : Type := mkHandler {
  component : string;
  trips : list Trip;
  stumbles : list Trip;
  policy : Policy
}.

Definition NewHandler (comp : string) (p : option Policy) : Handler :=
  {| component := comp; trips := []; stumbles := [];
     policy := match p with Some p => p | None => DefaultPolicy end |}.

(** [Handler.Record]: stumbles and the other trips are kept apart. *)
Definition Record_ (h : Handler) (t : Trip) : Handler :=
  if bool_decide (trip_Severity t = Stumble)
  then {| component := component h; trips := trips h;
          stumbles := stumbles h ++ [t]; policy := policy h |}
  else {| component := component h; trips := trips h ++ [t];
          stumbles := stumbles h; policy := policy h |}.

Definition ShouldContinue (h : Handler) : bool :=
  if StopOnFall (policy h) && existsb IsFall (trips h) then false
  else if (0 <? MaxStumbles (policy h))
          && (MaxStumbles (policy h) <? Z.of_nat (length (stumbles h)))
  then false
  else true.

Definition HasTrips (h : Handler) : bool := negb (Nat.eqb (length (trips h)) 0).
Definition HasStumbles (h : Handler) : bool := negb (Nat.eqb (length (stumbles h)) 0).

End trip.

(** ** Messages of the driven program (package [tea], external) *)

Inductive KeyType : Type :=
| KeyRunes | KeyEnter | KeyTab | KeyDown | KeyUp | KeyEsc | KeyBackspace.

#[global] Instance KeyType_eq_dec : EqDecision KeyType.
Proof. solve_decision. Defined.

(** [tea.KeyMsg{Type: ..., Runes: ...}]; any other [tea.Msg] is [OtherMsg].
    [Runes] holds the text [string(msg.Runes)]. *)
Inductive Msg : Type :=
| KeyMsg (Type_ : KeyType) (Runes : list ascii)
| OtherMsg (tag : string).

#[global] Instance Msg_eq_dec : EqDecision Msg.
Proof. solve_decision. Defined.

(** What a model's [Update] hands back: a nil [tea.Model], a [tea.Model]
    that does not implement [REPLModel], or a [REPLModel]. *)
Inductive TeaModel (M : Type) : Type :=
| NilModel
| ForeignModel
| REPL (m : M).
Arguments NilModel {M}.
Arguments ForeignModel {M}.
Arguments REPL {M} m.

(** A call of [Update] either panics with a value or returns. *)
Inductive UpdateOutcome (M : Type) : Type :=
| Panics (r : Value)
| Returns (newModel : TeaModel M).
Arguments Panics {M} r.
Arguments Returns {M} newModel.

(** The interface [REPLModel] ([tea.Model] plus the three inspection
    methods).  The [tea.Cmd] an [Update] returns is passed through by the
    wrapper untouched and is not modelled. *)
Class REPLModel (M : Type) : Type := {
  Update : M -> Msg -> UpdateOutcome M;
  View : M -> string;
  CurrentInput : M -> string;
  CurrentMode : M -> string;
  CheckCondition : M -> string -> bool
}.

(** The verbs of [fmt.Sprintf] whose output depends on Go's reflection:
    ["%v"] of an [interface{}], ["%T: %+v"] of a message, ["%T"] of the
    model. *)
Class Fmt (M : Type) : Type := {
  Sprint_v : Value -> string;
  Sprint_msg : Msg -> string;
  Sprint_T : option M -> string
}.

(** ** Strings *)

Definition nl : string := String (ascii_of_nat 10) EmptyString.

(** [strings.Contains(s, substr)]. *)
Fixpoint Contains (s substr : string) : bool :=
  String.prefix substr s
  || match s with
     | EmptyString => false
     | String _ s' => Contains s' substr
     end.

(** [len(s)] *)
Definition len (s : string) : Z := Z.of_nat (String.length s).

Definition lower_ascii (c : ascii) : ascii :=
  let n := nat_of_ascii c in
  if (65 <=? n)%nat && (n <=? 90)%nat then ascii_of_nat (n + 32) else c.

(** [strings.ToLower] on the characters of the model. *)
Fixpoint ToLower (s : string) : string :=
  match s with
  | EmptyString => EmptyString
  | String c s' => String (lower_ascii c) (ToLower s')
  end.

(** [s[:maxLen] + "..."] when [s] is longer than [maxLen]. *)
Definition truncateString (s : string) (maxLen : nat) : string :=
  if (String.length s <=? maxLen)%nat then s
  else String.substring 0 maxLen s +:+ "...".

(** ** Runes

    A Go string is a sequence of bytes; [for _, r := range s] and
    [[]rune(s)] read it as UTF-8: a well-formed encoding of one to four
    bytes is one rune, and a byte that starts none is the rune U+FFFD on
    its own.  A rune is kept here as the text [string(r)]: for a
    well-formed encoding its own bytes (UTF-8 has one encoding per rune),
    for the others the three bytes of U+FFFD.  For a rune below 128 that is
    the one character. *)

(** The table [first] of package [utf8] with its accept ranges: for a
    leading byte, the width of the encoding it starts and the bounds of the
    second byte. *)
Definition utf8_first (b0 : nat) : option (nat * (nat * nat)) :=
  if (b0 <? 128)%nat then Some (1, (0, 0))%nat
  else if (194 <=? b0)%nat && (b0 <=? 223)%nat then Some (2, (128, 191))%nat
  else if (b0 =? 224)%nat then Some (3, (160, 191))%nat
  else if (225 <=? b0)%nat && (b0 <=? 236)%nat then Some (3, (128, 191))%nat
  else if (b0 =? 237)%nat then Some (3, (128, 159))%nat
  else if (238 <=? b0)%nat && (b0 <=? 239)%nat then Some (3, (128, 191))%nat
  else if (b0 =? 240)%nat then Some (4, (144, 191))%nat
  else if (241 <=? b0)%nat && (b0 <=? 243)%nat then Some (4, (128, 191))%nat
  else if (b0 =? 244)%nat then Some (4, (128, 143))%nat
  else None.

(** [s] has a byte at index [i], and it lies between [lo] and [hi]. *)
Definition byte_within (lo hi i : nat) (s : string) : bool :=
  match String.get i s with
  | Some c => (lo <=? nat_of_ascii c)%nat && (nat_of_ascii c <=? hi)%nat
  | None => false
  end.

(** [utf8.DecodeRuneInString(s)] for a [s] that is not empty: the width of
    the well-formed encoding [s] starts with, [None] when it starts with
    none (the rune is then U+FFFD and the width 1). *)
Definition rune_width (s : string) : option nat :=
  match s with
  | EmptyString => None
  | String b0 _ =>
      match utf8_first (nat_of_ascii b0) with
      | None => None
      | Some (1%nat, _) => Some 1%nat
      | Some (sz, (lo, hi)) =>
          if negb (byte_within lo hi 1 s) then None
          else if (sz <=? 2)%nat then Some 2%nat
          else if negb (byte_within 128 191 2 s) then None
          else if (sz <=? 3)%nat then Some 3%nat
          else if negb (byte_within 128 191 3 s) then None
          else Some 4%nat
      end
  end.

(** [string(utf8.RuneError)] *)
Definition RuneError : string :=
  String (ascii_of_nat 239) (String (ascii_of_nat 191) (String (ascii_of_nat 189) EmptyString)).

(** The runes of [s], in order; [skip] counts the bytes of the current
    rune still to be passed over. *)
Fixpoint runes_from (skip : nat) (s : string) : list string :=
  match s with
  | EmptyString => []
  | String _ rest =>
      match skip with
      | S k => runes_from k rest
      | O =>
          match rune_width s with
          | Some width => String.substring 0 width s :: runes_from (width - 1) rest
          | None => RuneError :: runes_from O rest
          end
      end
  end.

Definition runes (s : string) : list string := runes_from O s.




(** ** Data of the stage director *)

Record StageAction : Type := mkStageAction {
  action_Type : string;
  action_Details : Value;
  action_Result : Value
}.

Record StageSnapshot : Type := mkStageSnapshot {
  snap_View : string;
  snap_Mode : string;
  snap_Input : string
}.

Record StageResult : Type := mkStageResult {
  Actions : list StageAction;
  Snapshots : list StageSnapshot;
  Success : bool;
  ErrorMessage : string;
  Error_ : option string
}.

Record StageConfig : Type := mkStageConfig {
  Timeout : Z;
  TypingSpeed : Z;
  CaptureViews : bool;
  MaxRetries : Z
}.

Definition second : Z := 1000000000.
Definition millisecond : Z := 1000000.

Definition DefaultStageConfig : StageConfig :=
  {| Timeout := 30 * second; TypingSpeed := 10 * millisecond;
     CaptureViews := true; MaxRetries := 3 |}.

(** What [recordTrip] tells the testing framework: [t.Error] for falls,
    [t.Log] for the rest. *)
Record TestingT : Type := mkTestingT {
  t_errors : list trip.Trip;
  t_logs : list trip.Trip
}.

(** A [*testing.T] that has reported nothing yet. *)
Definition newT : TestingT := {| t_errors := []; t_logs := [] |}.

(** A buffered channel: the queued elements, oldest first, and [cap]. *)
Record chan (A : Type) : Type := mkChan {
  chan_buf : list A;
  chan_cap : nat
}.
Arguments mkChan {A}.
Arguments chan_buf {A}.
Arguments chan_cap {A}.

Section Director.

Context {M : Type}.

Record modelUpdate : Type := mkModelUpdate {
  mu_model : M;
  mu_sequence : Z
}.

(** [stageModelWrapper]: the embedded model and whether [director] is set
    (it is only ever set to the one director that built the wrapper). *)
Record stageModelWrapper : Type := mkWrapper {
  w_REPLModel : M;
  w_director : bool
}.

(** [tea.Program] (external): the model it currently holds ([None] once
    [Update] came back with a nil model after a recovered panic), the
    messages passed to [Send] and not yet handled, every message ever passed
    to [Send], and whether its loop has ended on a quit message. *)
Record Program : Type := mkProgram {
  p_model : option stageModelWrapper;
  p_inbox : list Msg;
  p_sent : list Msg;
  p_quit : bool
}.

(** [StageDirector].  [t], [model], [program], [modelChan] and
    [latestModel] are [None] for nil; [ctxDone] says whether [d.ctx.Done()]
    is closed (the context was cancelled or is past its deadline), [cancel]
    whether [d.cancel] is not nil.  The locks [updateMu] and [modelMu] and
    the unused map [waiting] hold no state. *)
Record StageDirector : Type := mkStageDirector {
  t : option TestingT;
  model : option M;
  program : option Program;
  ctxDone : bool;
  cancel : bool;
  interactions : list StageAction;
  snapshots : list StageSnapshot;
  tripHandler : trip.Handler;
  lastTrip : option trip.Trip;
  failed : bool;
  modelChan : option (chan modelUpdate);
  latestModel : option M;
  updateSeq : Z;
  lastProcessedSeq : Z;
  droppedUpdates : Z;
  updatesSent : Z;
  updatesProcessed : Z;
  bufferOverflows : Z;
  sequenceGaps : Z;
  duplicateUpdates : Z;
  config : StageConfig;
  started : bool
}.

(** Field updates ([d.f = v] in the source). *)

Definition set_t (v : option TestingT) (d : StageDirector) : StageDirector :=
  mkStageDirector
    v (model d) (program d) (ctxDone d) (cancel d) (interactions d) (snapshots
    d) (tripHandler d) (lastTrip d) (failed d) (modelChan d) (latestModel d)
    (updateSeq d) (lastProcessedSeq d) (droppedUpdates d) (updatesSent d)
    (updatesProcessed d) (bufferOverflows d) (sequenceGaps d)
    (duplicateUpdates d) (config d) (started d).

Definition set_model (v : option M) (d : StageDirector) : StageDirector :=
  mkStageDirector
    (t d) v (program d) (ctxDone d) (cancel d) (interactions d) (snapshots d)
    (tripHandler d) (lastTrip d) (failed d) (modelChan d) (latestModel d)
    (updateSeq d) (lastProcessedSeq d) (droppedUpdates d) (updatesSent d)
    (updatesProcessed d) (bufferOverflows d) (sequenceGaps d)
    (duplicateUpdates d) (config d) (started d).

Definition set_program (v : option Program) (d : StageDirector) : StageDirector :=
  mkStageDirector
    (t d) (model d) v (ctxDone d) (cancel d) (interactions d) (snapshots d)
    (tripHandler d) (lastTrip d) (failed d) (modelChan d) (latestModel d)
    (updateSeq d) (lastProcessedSeq d) (droppedUpdates d) (updatesSent d)
    (updatesProcessed d) (bufferOverflows d) (sequenceGaps d)
    (duplicateUpdates d) (config d) (started d).

Definition set_ctxDone (v : bool) (d : StageDirector) : StageDirector :=
  mkStageDirector
    (t d) (model d) (program d) v (cancel d) (interactions d) (snapshots d)
    (tripHandler d) (lastTrip d) (failed d) (modelChan d) (latestModel d)
    (updateSeq d) (lastProcessedSeq d) (droppedUpdates d) (updatesSent d)
    (updatesProcessed d) (bufferOverflows d) (sequenceGaps d)
    (duplicateUpdates d) (config d) (started d).

Definition set_cancel (v : bool) (d : StageDirector) : StageDirector :=
  mkStageDirector
    (t d) (model d) (program d) (ctxDone d) v (interactions d) (snapshots d)
    (tripHandler d) (lastTrip d) (failed d) (modelChan d) (latestModel d)
    (updateSeq d) (lastProcessedSeq d) (droppedUpdates d) (updatesSent d)
    (updatesProcessed d) (bufferOverflows d) (sequenceGaps d)
    (duplicateUpdates d) (config d) (started d).

Definition set_interactions (v : list StageAction) (d : StageDirector) : StageDirector :=
  mkStageDirector
    (t d) (model d) (program d) (ctxDone d) (cancel d) v (snapshots d)
    (tripHandler d) (lastTrip d) (failed d) (modelChan d) (latestModel d)
    (updateSeq d) (lastProcessedSeq d) (droppedUpdates d) (updatesSent d)
    (updatesProcessed d) (bufferOverflows d) (sequenceGaps d)
    (duplicateUpdates d) (config d) (started d).

Definition set_snapshots (v : list StageSnapshot) (d : StageDirector) : StageDirector :=
  mkStageDirector
    (t d) (model d) (program d) (ctxDone d) (cancel d) (interactions d) v
    (tripHandler d) (lastTrip d) (failed d) (modelChan d) (latestModel d)
    (updateSeq d) (lastProcessedSeq d) (droppedUpdates d) (updatesSent d)
    (updatesProcessed d) (bufferOverflows d) (sequenceGaps d)
    (duplicateUpdates d) (config d) (started d).

Definition set_tripHandler (v : trip.Handler) (d : StageDirector) : StageDirector :=
  mkStageDirector
    (t d) (model d) (program d) (ctxDone d) (cancel d) (interactions d)
    (snapshots d) v (lastTrip d) (failed d) (modelChan d) (latestModel d)
    (updateSeq d) (lastProcessedSeq d) (droppedUpdates d) (updatesSent d)
    (updatesProcessed d) (bufferOverflows d) (sequenceGaps d)
    (duplicateUpdates d) (config d) (started d).

Definition set_lastTrip (v : option trip.Trip) (d : StageDirector) : StageDirector :=
  mkStageDirector
    (t d) (model d) (program d) (ctxDone d) (cancel d) (interactions d)
    (snapshots d) (tripHandler d) v (failed d) (modelChan d) (latestModel d)
    (updateSeq d) (lastProcessedSeq d) (droppedUpdates d) (updatesSent d)
    (updatesProcessed d) (bufferOverflows d) (sequenceGaps d)
    (duplicateUpdates d) (config d) (started d).

Definition set_failed (v : bool) (d : StageDirector) : StageDirector :=
  mkStageDirector
    (t d) (model d) (program d) (ctxDone d) (cancel d) (interactions d)
    (snapshots d) (tripHandler d) (lastTrip d) v (modelChan d) (latestModel d)
    (updateSeq d) (lastProcessedSeq d) (droppedUpdates d) (updatesSent d)
    (updatesProcessed d) (bufferOverflows d) (sequenceGaps d)
    (duplicateUpdates d) (config d) (started d).

Definition set_modelChan (v : option (chan modelUpdate)) (d : StageDirector) : StageDirector :=
  mkStageDirector
    (t d) (model d) (program d) (ctxDone d) (cancel d) (interactions d)
    (snapshots d) (tripHandler d) (lastTrip d) (failed d) v (latestModel d)
    (updateSeq d) (lastProcessedSeq d) (droppedUpdates d) (updatesSent d)
    (updatesProcessed d) (bufferOverflows d) (sequenceGaps d)
    (duplicateUpdates d) (config d) (started d).

Definition set_latestModel (v : option M) (d : StageDirector) : StageDirector :=
  mkStageDirector
    (t d) (model d) (program d) (ctxDone d) (cancel d) (interactions d)
    (snapshots d) (tripHandler d) (lastTrip d) (failed d) (modelChan d) v
    (updateSeq d) (lastProcessedSeq d) (droppedUpdates d) (updatesSent d)
    (updatesProcessed d) (bufferOverflows d) (sequenceGaps d)
    (duplicateUpdates d) (config d) (started d).

Definition set_updateSeq (v : Z) (d : StageDirector) : StageDirector :=
  mkStageDirector
    (t d) (model d) (program d) (ctxDone d) (cancel d) (interactions d)
    (snapshots d) (tripHandler d) (lastTrip d) (failed d) (modelChan d)
    (latestModel d) v (lastProcessedSeq d) (droppedUpdates d) (updatesSent d)
    (updatesProcessed d) (bufferOverflows d) (sequenceGaps d)
    (duplicateUpdates d) (config d) (started d).

Definition set_lastProcessedSeq (v : Z) (d : StageDirector) : StageDirector :=
  mkStageDirector
    (t d) (model d) (program d) (ctxDone d) (cancel d) (interactions d)
    (snapshots d) (tripHandler d) (lastTrip d) (failed d) (modelChan d)
    (latestModel d) (updateSeq d) v (droppedUpdates d) (updatesSent d)
    (updatesProcessed d) (bufferOverflows d) (sequenceGaps d)
    (duplicateUpdates d) (config d) (started d).

Definition set_droppedUpdates (v : Z) (d : StageDirector) : StageDirector :=
  mkStageDirector
    (t d) (model d) (program d) (ctxDone d) (cancel d) (interactions d)
    (snapshots d) (tripHandler d) (lastTrip d) (failed d) (modelChan d)
    (latestModel d) (updateSeq d) (lastProcessedSeq d) v (updatesSent d)
    (updatesProcessed d) (bufferOverflows d) (sequenceGaps d)
    (duplicateUpdates d) (config d) (started d).

Definition set_updatesSent (v : Z) (d : StageDirector) : StageDirector :=
  mkStageDirector
    (t d) (model d) (program d) (ctxDone d) (cancel d) (interactions d)
    (snapshots d) (tripHandler d) (lastTrip d) (failed d) (modelChan d)
    (latestModel d) (updateSeq d) (lastProcessedSeq d) (droppedUpdates d) v
    (updatesProcessed d) (bufferOverflows d) (sequenceGaps d)
    (duplicateUpdates d) (config d) (started d).

Definition set_updatesProcessed (v : Z) (d : StageDirector) : StageDirector :=
  mkStageDirector
    (t d) (model d) (program d) (ctxDone d) (cancel d) (interactions d)
    (snapshots d) (tripHandler d) (lastTrip d) (failed d) (modelChan d)
    (latestModel d) (updateSeq d) (lastProcessedSeq d) (droppedUpdates d)
    (updatesSent d) v (bufferOverflows d) (sequenceGaps d) (duplicateUpdates
    d) (config d) (started d).

Definition set_bufferOverflows (v : Z) (d : StageDirector) : StageDirector :=
  mkStageDirector
    (t d) (model d) (program d) (ctxDone d) (cancel d) (interactions d)
    (snapshots d) (tripHandler d) (lastTrip d) (failed d) (modelChan d)
    (latestModel d) (updateSeq d) (lastProcessedSeq d) (droppedUpdates d)
    (updatesSent d) (updatesProcessed d) v (sequenceGaps d) (duplicateUpdates
    d) (config d) (started d).

Definition set_sequenceGaps (v : Z) (d : StageDirector) : StageDirector :=
  mkStageDirector
    (t d) (model d) (program d) (ctxDone d) (cancel d) (interactions d)
    (snapshots d) (tripHandler d) (lastTrip d) (failed d) (modelChan d)
    (latestModel d) (updateSeq d) (lastProcessedSeq d) (droppedUpdates d)
    (updatesSent d) (updatesProcessed d) (bufferOverflows d) v
    (duplicateUpdates d) (config d) (started d).

Definition set_duplicateUpdates (v : Z) (d : StageDirector) : StageDirector :=
  mkStageDirector
    (t d) (model d) (program d) (ctxDone d) (cancel d) (interactions d)
    (snapshots d) (tripHandler d) (lastTrip d) (failed d) (modelChan d)
    (latestModel d) (updateSeq d) (lastProcessedSeq d) (droppedUpdates d)
    (updatesSent d) (updatesProcessed d) (bufferOverflows d) (sequenceGaps d)
    v (config d) (started d).

Definition set_config (v : StageConfig) (d : StageDirector) : StageDirector :=
  mkStageDirector
    (t d) (model d) (program d) (ctxDone d) (cancel d) (interactions d)
    (snapshots d) (tripHandler d) (lastTrip d) (failed d) (modelChan d)
    (latestModel d) (updateSeq d) (lastProcessedSeq d) (droppedUpdates d)
    (updatesSent d) (updatesProcessed d) (bufferOverflows d) (sequenceGaps d)
    (duplicateUpdates d) v (started d).

Definition set_started (v : bool) (d : StageDirector) : StageDirector :=
  mkStageDirector
    (t d) (model d) (program d) (ctxDone d) (cancel d) (interactions d)
    (snapshots d) (tripHandler d) (lastTrip d) (failed d) (modelChan d)
    (latestModel d) (updateSeq d) (lastProcessedSeq d) (droppedUpdates d)
    (updatesSent d) (updatesProcessed d) (bufferOverflows d) (sequenceGaps d)
    (duplicateUpdates d) (config d) v.

End Director.

Arguments modelUpdate : clear implicits.
Arguments stageModelWrapper : clear implicits.
Arguments Program : clear implicits.
Arguments StageDirector : clear implicits.

(** ** Methods of the stage director *)

Section Methods.

Context {M : Type} `{!REPLModel M} `{!Fmt M}.

Local Abbreviation Director := (StageDirector M).

(** *** Reading the synchronised state *)

Definition getCurrentView (d : Director) : string :=
  match latestModel d with
  | Some m => View m
  | None => ""
  end.

Definition getCurrentInput (d : Director) : string :=
  match latestModel d with
  | Some m => CurrentInput m
  | None => ""
  end.

Definition getCurrentMode (d : Director) : string :=
  match latestModel d with
  | Some m => CurrentMode m
  | None => ""
  end.

Definition getCurrentState (d : Director) : option M := latestModel d.

(** *** Trips *)

(** [newStageTrip] copies the context into a fresh map and calls
    [trip.NewTrip]. *)
Definition newStageTrip (errorType message : string)
    (context : gmap string Value) : trip.Trip :=
  trip.NewTrip errorType message context.

Definition recordTrip (tr : trip.Trip) (d : Director) : Director :=
  let d1 := set_tripHandler (trip.Record_ (tripHandler d) tr) d in
  let d2 := set_lastTrip (Some tr) d1 in
  let d3 := if negb (trip.CanRecover tr) then set_failed true d2 else d2 in
  match t d3 with
  | Some tst =>
      if trip.IsFall tr
      then set_t (Some {| t_errors := t_errors tst ++ [tr]; t_logs := t_logs tst |}) d3
      else set_t (Some {| t_errors := t_errors tst; t_logs := t_logs tst ++ [tr] |}) d3
  | None => d3
  end.

Definition recordError (err : string) (d : Director) : Director :=
  recordTrip (trip.NewTrip "system" err ∅) d.

Definition HasFailed (d : Director) : bool :=
  failed d || negb (trip.ShouldContinue (tripHandler d)).

Definition GetError (d : Director) : option trip.Trip := lastTrip d.

Definition getErrorMessage (d : Director) : string :=
  match lastTrip d with
  | Some tr => "[" +:+ ToLower (trip.trip_Type tr) +:+ "] " +:+ trip.trip_Message tr
  | None => ""
  end.

Definition getError (d : Director) : option string :=
  match lastTrip d with
  | Some tr => Some ("[" +:+ trip.trip_Type tr +:+ "] " +:+ trip.trip_Message tr)
  | None => None
  end.

(** *** The action log and the snapshots *)

Definition recordStageAction (actionType : string) (details : Value)
    (d : Director) : Director :=
  set_interactions
    (interactions d ++
       [{| action_Type := actionType; action_Details := details;
           action_Result := VNil |}]) d.

Definition captureSnapshot (d : Director) : Director :=
  if negb (CaptureViews (config d)) then d
  else set_snapshots
         (snapshots d ++
            [{| snap_View := getCurrentView d; snap_Mode := getCurrentMode d;
                snap_Input := getCurrentInput d |}]) d.

(** Not gated by [CaptureViews]. *)
Definition captureErrorSnapshot (errorType errorMessage : string)
    (d : Director) : Director :=
  let currentView := getCurrentView d in
  let currentInput := getCurrentInput d in
  set_snapshots
    (snapshots d ++
       [{| snap_View := "ERROR STATE (" +:+ errorType +:+ ")" +:+ nl +:+ errorMessage
                          +:+ nl +:+ nl +:+ "Last View:" +:+ nl +:+ currentView;
           snap_Mode := "error_" +:+ errorType;
           snap_Input := currentInput |}]) d.

Definition GetLatestSnapshot (d : Director) : StageSnapshot :=
  match last (snapshots d) with
  | Some s => s
  | None => {| snap_View := ""; snap_Mode := ""; snap_Input := "" |}
  end.

Definition GetStageActionCount (d : Director) : Z :=
  Z.of_nat (length (interactions d)).

(** *** Fail-fast handlers of the update wrapper

    Both handlers, like [captureErrorSnapshot], trace through [d.t]: they
    are the methods of a director whose [t] is not nil. *)

Definition handleModelPanic (panicValue : Value) (msg : Msg) (d : Director) : Director :=
  let d1 := captureErrorSnapshot "model_panic" ("Panic: " +:+ Sprint_v panicValue) d in
  let panicTrip :=
    newStageTrip "MODEL_PANIC"
      ("Model panic during Update: " +:+ Sprint_v panicValue)
      (<["panic_value" := panicValue]>
         (<["tea_msg" := VString (Sprint_msg msg)]>
            (<["model_type" := VString (Sprint_T (model d1))]>
               (<["timestamp" := VTime]> ∅)))) in
  let d2 := recordTrip panicTrip d1 in
  if cancel d2 then set_ctxDone true d2 else d2.

Definition handleInvalidModelState (reason : string) (msg : Msg) (d : Director) : Director :=
  let d1 := captureErrorSnapshot "invalid_model_state" reason d in
  let invalidStateTrip :=
    newStageTrip "INVALID_MODEL_STATE" reason
      (<["tea_msg" := VString (Sprint_msg msg)]>
         (<["model_type" := VString (Sprint_T (model d1))]>
            (<["timestamp" := VTime]> ∅))) in
  let d2 := recordTrip invalidStateTrip d1 in
  if cancel d2 then set_ctxDone true d2 else d2.

(** *** The update wrapper *)

(** The send of [stageModelWrapper.Update]: one atomic increment of
    [updateSeq], then a [select] with a [default] case, which succeeds
    exactly when the buffer has room.  (The constructor makes the channel
    with capacity 50.) *)
Definition publish (replModel : M) (d : Director) : Director :=
  match modelChan d with
  | Some ch =>
      let seq := Int64.AddInt64 (updateSeq d) 1 in
      let d1 := set_updateSeq seq d in
      let update := {| mu_model := replModel; mu_sequence := seq |} in
      if (length (chan_buf ch) <? chan_cap ch)%nat
      then
        let d2 :=
          set_modelChan
            (Some {| chan_buf := chan_buf ch ++ [update]; chan_cap := chan_cap ch |}) d1 in
        set_updatesSent (Int64.AddInt64 (updatesSent d2) 1) d2
      else
        let d2 := set_bufferOverflows (Int64.AddInt64 (bufferOverflows d1) 1) d1 in
        set_droppedUpdates (Int64.AddInt64 (droppedUpdates d2) 1) d2
  | None => d
  end.

(** [stageModelWrapper.Update]: the wrapper handed back to the program
    ([None] for the nil model that comes back after a recovered panic) and
    the director afterwards. *)
Definition stageModelWrapper_Update (w : stageModelWrapper M) (msg : Msg)
    (d : Director) : option (stageModelWrapper M) * Director :=
  match Update (w_REPLModel w) msg with
  | Panics r =>
      (None, if w_director w then handleModelPanic r msg d else d)
  | Returns NilModel =>
      (Some w,
       if w_director w
       then handleInvalidModelState "Update returned nil model" msg d
       else d)
  | Returns (REPL replModel) =>
      (Some {| w_REPLModel := replModel; w_director := w_director w |},
       if w_director w then publish replModel d else d)
  | Returns ForeignModel =>
      (Some w,
       if w_director w
       then handleInvalidModelState "Update returned non-REPLModel" msg d
       else d)
  end.

(** *** The background consumer *)

(** The body of the loop of [syncModelUpdates] for one received update. *)
Definition syncModelUpdates_body (update : modelUpdate M) (d : Director) : Director :=
  let currentSeq := lastProcessedSeq d in
  if mu_sequence update <=? currentSeq
  then set_duplicateUpdates (Int64.AddInt64 (duplicateUpdates d) 1) d
  else
    let d1 :=
      if mu_sequence update >? Int64.wrap (currentSeq + 1)
      then set_sequenceGaps (Int64.AddInt64 (sequenceGaps d) 1) d
      else d in
    let d2 := set_latestModel (Some (mu_model update)) d1 in
    let d3 := set_lastProcessedSeq (mu_sequence update) d2 in
    set_updatesProcessed (Int64.AddInt64 (updatesProcessed d3) 1) d3.

(** [syncModelUpdates], for the updates it receives, in order, before the
    [ctx.Done()] case of its [select] is taken. *)
Definition syncModelUpdates (received : list (modelUpdate M)) (d : Director) : Director :=
  fold_left (fun d update => syncModelUpdates_body update d) received d.

(** What "applying" an update means for the synchronised state. *)
Definition applied (u : modelUpdate M) (d d' : Director) : Prop :=
  latestModel d' = Some (mu_model u)
  /\ lastProcessedSeq d' = mu_sequence u
  /\ updatesProcessed d' = updatesProcessed d + 1.

(** *** The other goroutines *)

Definition QuitMsg : Msg := OtherMsg "tea.QuitMsg".

(** [p.Send(msg)]. *)
Definition Send (msg : Msg) (p : Program M) : Program M :=
  {| p_model := p_model p; p_inbox := p_inbox p ++ [msg];
     p_sent := p_sent p ++ [msg]; p_quit := p_quit p |}.

(** [p.Quit()] sends a quit message. *)
Definition Quit (p : Program M) : Program M := Send QuitMsg p.

(** One turn of the program's event loop: the oldest pending message goes
    to [Update] of the model the program holds; a quit message ends the
    loop.  The turn is taken here as a whole, which is how the calling
    goroutine meets it between two polls; what the counters hold in the
    middle of a turn is the subject of [update_step] and [sync_step]
    below. *)
Definition program_step (d : Director) : Director :=
  match program d with
  | Some p =>
      if p_quit p then d
      else
        match p_model p, p_inbox p with
        | Some w, msg :: rest =>
            if bool_decide (msg = QuitMsg)
            then set_program
                   (Some {| p_model := Some w; p_inbox := rest;
                            p_sent := p_sent p; p_quit := true |}) d
            else
              let '(w', d1) := stageModelWrapper_Update w msg d in
              set_program
                (Some {| p_model := w'; p_inbox := rest;
                         p_sent := p_sent p; p_quit := false |}) d1
        | _, _ => d
        end
  | None => d
  end.

(** One turn of the consumer: receive the oldest queued update and run the
    loop body on it. *)
Definition consumer_step (d : Director) : Director :=
  match modelChan d with
  | Some ch =>
      match chan_buf ch with
      | update :: rest =>
          syncModelUpdates_body update
            (set_modelChan (Some {| chan_buf := rest; chan_cap := chan_cap ch |}) d)
      | [] => d
      end
  | None => d
  end.

(** What can happen while the calling goroutine is asleep: a turn of the
    program, a turn of the consumer, the deadline of [d.ctx]. *)
Inductive bg_step : Type := ProgramStep | ConsumerStep | CtxDeadline.

Definition run_bg_step (s : bg_step) (d : Director) : Director :=
  match s with
  | ProgramStep => program_step d
  | ConsumerStep => consumer_step d
  | CtxDeadline => set_ctxDone true d
  end.

Definition run_bg (steps : list bg_step) (d : Director) : Director :=
  fold_left (fun d s => run_bg_step s d) steps d.

(** *** Polling loops

    Every wait is a [for { select { timer; ctx.Done(); default: poll, sleep } }].
    A schedule lists what the other goroutines do during each sleep until
    the timer fires ([sleeps]), and the case the [select] draws when the timer
    and [ctx.Done()] are ready together ([tie]). *)

Inductive select_case : Type := TimerCase | CtxDoneCase.

Record wait_schedule : Type := mkSchedule {
  sleeps : list (list bg_step);
  tie : select_case
}.

Inductive poll_result : Type := PredHolds | CtxIsDone | TimedOut.

Fixpoint pollUntil (pred : Director -> bool) (sl : list (list bg_step))
    (tiebreak : select_case) (d : Director) : poll_result * Director :=
  match sl with
  | [] =>
      if ctxDone d
      then (match tiebreak with TimerCase => TimedOut | CtxDoneCase => CtxIsDone end, d)
      else (TimedOut, d)
  | during :: rest =>
      if ctxDone d then (CtxIsDone, d)
      else if pred d then (PredHolds, d)
      else pollUntil pred rest tiebreak (run_bg during d)
  end.

Definition WaitForMode (expectedMode : string) (sched : wait_schedule)
    (d : Director) : Director :=
  if failed d then d
  else
    match pollUntil (fun d => String.eqb (getCurrentMode d) expectedMode)
            (sleeps sched) (tie sched) d with
    | (TimedOut, d1) =>
        recordTrip
          (newStageTrip "WAIT_MODE_TIMEOUT"
             ("Timeout waiting for mode '" +:+ expectedMode +:+ "'")
             (<["expected_mode" := VString expectedMode]>
                (<["current_mode" := VString (getCurrentMode d1)]> ∅))) d1
    | (_, d1) => d1
    end.

(** (The 50ms the source sleeps once results are seen belong to what the
    other goroutines do after the call.) *)
Definition WaitForSearchResults (sched : wait_schedule) (d : Director) : Director :=
  if failed d then d
  else
    match pollUntil
            (fun d => Contains (getCurrentView d) "Live Results:"
                      || Contains (getCurrentView d) "Found")
            (sleeps sched) (tie sched) d with
    | (TimedOut, d1) =>
        recordTrip
          (newStageTrip "WAIT_RESULTS_TIMEOUT" "Timeout waiting for search results"
             (<["current_view" := VString (truncateString (getCurrentView d1) 200)]> ∅)) d1
    | (_, d1) => d1
    end.

Definition WaitForText (text : string) (sched : wait_schedule)
    (d : Director) : Director :=
  if failed d then d
  else
    match pollUntil (fun d => Contains (getCurrentView d) text)
            (sleeps sched) (tie sched) d with
    | (TimedOut, d1) =>
        recordTrip
          (newStageTrip "WAIT_TEXT_TIMEOUT"
             ("Timeout waiting for text '" +:+ text +:+ "'")
             (<["expected_text" := VString text]>
                (<["current_view" := VString (getCurrentView d1)]> ∅))) d1
    | (_, d1) => d1
    end.

(** At most 50 polls. *)
Fixpoint waitForProgramReady_loop (i : nat) (sl : list (list bg_step))
    (tiebreak : select_case) (d : Director) : option string * Director :=
  match i with
  | O => (Some "program never became ready", d)
  | S i' =>
      match sl with
      | [] =>
          if ctxDone d
          then (match tiebreak with
                | TimerCase => Some "timeout waiting for program to be ready"
                | CtxDoneCase => Some "context cancelled while waiting for program"
                end, d)
          else (Some "timeout waiting for program to be ready", d)
      | during :: rest =>
          if ctxDone d then (Some "context cancelled while waiting for program", d)
          else if 0 <? len (getCurrentView d) then (None, d)
          else waitForProgramReady_loop i' rest tiebreak (run_bg during d)
      end
  end.

Definition waitForProgramReady (sched : wait_schedule) (d : Director)
    : option string * Director :=
  waitForProgramReady_loop 50 (sleeps sched) (tie sched) d.

(** A timeout here is not an error: the director after the wait. *)
Definition waitForViewChange (previousView : string) (sched : wait_schedule)
    (d : Director) : Director :=
  snd (pollUntil (fun d => negb (String.eqb (getCurrentView d) previousView))
         (sleeps sched) (tie sched) d).

(** *** Interactions *)

(** [sendMessage], of a director whose [t] is not nil when there is a
    program: it then traces through [d.t], as [waitForViewChange] does. *)
Definition sendMessage (msg : Msg) (sched : wait_schedule) (d : Director) : Director :=
  match program d with
  | Some p =>
      let currentView := getCurrentView d in
      let d1 := set_program (Some (Send msg p)) d in
      let d2 := waitForViewChange currentView sched d1 in
      captureSnapshot d2
  | None => d
  end.

(** The schedule of one keystroke: the wait for a view change, and what
    happens during the typing delay (slept only when [TypingSpeed > 0]). *)
Record key_schedule : Type := mkKeySchedule {
  ks_view : wait_schedule;
  ks_delay : list bg_step
}.

Definition idle_wait : wait_schedule := {| sleeps := []; tie := TimerCase |}.
Definition idle_key : key_schedule := {| ks_view := idle_wait; ks_delay := [] |}.

(** [Type]: the loop over the runes of [text]; a keystroke without a
    schedule of its own gets [idle_key]. *)
Fixpoint Type_loop (chars : list string) (scheds : list key_schedule) (d : Director)
    : Director :=
  match chars with
  | [] => d
  | char :: rest =>
      let ks := hd idle_key scheds in
      let d1 := sendMessage (KeyMsg KeyRunes (list_ascii_of_string char)) (ks_view ks) d in
      let d2 := recordStageAction "type" (VString char) d1 in
      let d3 := if 0 <? TypingSpeed (config d2) then run_bg (ks_delay ks) d2 else d2 in
      Type_loop rest (tl scheds) d3
  end.

Definition Type_ (text : string) (scheds : list key_schedule) (d : Director) : Director :=
  Type_loop (runes text) scheds d.

Definition PressEnter (sched : wait_schedule) (d : Director) : Director :=
  recordStageAction "keypress" (VString "enter") (sendMessage (KeyMsg KeyEnter []) sched d).

Definition PressTab (sched : wait_schedule) (d : Director) : Director :=
  recordStageAction "keypress" (VString "tab") (sendMessage (KeyMsg KeyTab []) sched d).

Definition PressArrowDown (sched : wait_schedule) (d : Director) : Director :=
  recordStageAction "keypress" (VString "down") (sendMessage (KeyMsg KeyDown []) sched d).

Definition PressArrowUp (sched : wait_schedule) (d : Director) : Director :=
  recordStageAction "keypress" (VString "up") (sendMessage (KeyMsg KeyUp []) sched d).

Definition PressEscape (sched : wait_schedule) (d : Director) : Director :=
  recordStageAction "keypress" (VString "escape") (sendMessage (KeyMsg KeyEsc []) sched d).

Definition PressBackspace (sched : wait_schedule) (d : Director) : Director :=
  recordStageAction "keypress" (VString "backspace")
    (sendMessage (KeyMsg KeyBackspace []) sched d).

(** [Wait]: the sleep, then the action and the snapshot. *)
Definition Wait (duration : Z) (during : list bg_step) (d : Director) : Director :=
  captureSnapshot (recordStageAction "wait" (VDuration duration) (run_bg during d)).

(** [ClearInput]: one backspace per rune of the input read when the call
    starts. *)
Fixpoint ClearInput_loop (n : nat) (scheds : list key_schedule) (d : Director) : Director :=
  match n with
  | O => d
  | S n' =>
      let ks := hd idle_key scheds in
      let d1 := PressBackspace (ks_view ks) d in
      let d2 :=
        if 0 <? TypingSpeed (config d1)
        then Wait (TypingSpeed (config d1) / 4) (ks_delay ks) d1
        else d1 in
      ClearInput_loop n' (tl scheds) d2
  end.

Definition ClearInput (scheds : list key_schedule) (d : Director) : Director :=
  ClearInput_loop (length (runes (getCurrentInput d))) scheds d.

(** *** Assertions *)

Definition AssertViewContains (text : string) (d : Director) : Director :=
  let view := getCurrentView d in
  if negb (Contains view text)
  then recordTrip
         (newStageTrip "assertion" ("View does not contain expected text: " +:+ text)
            (<["expected" := VString text]> (<["actual_view" := VString view]> ∅))) d
  else recordStageAction "assertion" (VString ("contains=" +:+ text)) d.

Definition AssertMode (expectedMode : string) (d : Director) : Director :=
  let actualMode := getCurrentMode d in
  if negb (String.eqb actualMode expectedMode)
  then recordTrip
         (newStageTrip "assertion"
            ("Expected mode " +:+ expectedMode +:+ ", got " +:+ actualMode)
            (<["expected" := VString expectedMode]> (<["actual" := VString actualMode]> ∅))) d
  else recordStageAction "assertion" (VString ("mode=" +:+ expectedMode)) d.

Definition AssertInputEquals (expected : string) (d : Director) : Director :=
  let actual := getCurrentInput d in
  if negb (String.eqb actual expected)
  then recordTrip
         (newStageTrip "assertion"
            ("Expected input '" +:+ expected +:+ "', got '" +:+ actual +:+ "'")
            (<["expected" := VString expected]> (<["actual" := VString actual]> ∅))) d
  else recordStageAction "assertion" (VString ("input=" +:+ expected)) d.

(** [AssertNoSearchResults] reads [d.latestModel] without a nil test:
    [None] is the nil dereference. *)
Definition AssertNoSearchResults (d : Director) : option Director :=
  match latestModel d with
  | Some m =>
      if CheckCondition m "search_results"
      then Some (recordTrip
                   (newStageTrip "assertion" "Expected no search results, but found some" ∅) d)
      else Some (recordStageAction "assertion" (VString "no_search_results") d)
  | None => None
  end.

(** *** Lifecycle *)

(** [NewStageDirectorWithConfig]; the consumer goroutine it starts is the
    [ConsumerStep]s of the schedules. *)
Definition NewStageDirectorWithConfig (tst : option TestingT) (m : option M)
    (cfg : StageConfig) : Director :=
  {| t := tst; model := m; program := None; ctxDone := false; cancel := true;
     interactions := []; snapshots := [];
     tripHandler := trip.NewHandler "stage_director" (Some trip.DefaultPolicy);
     lastTrip := None; failed := false;
     modelChan := Some {| chan_buf := []; chan_cap := 50 |};
     latestModel := m;
     updateSeq := 0; lastProcessedSeq := 0; droppedUpdates := 0;
     updatesSent := 0; updatesProcessed := 0; bufferOverflows := 0;
     sequenceGaps := 0; duplicateUpdates := 0;
     config := cfg; started := false |}.

Definition NewStageDirector (tst : option TestingT) (m : option M) : Director :=
  NewStageDirectorWithConfig tst m DefaultStageConfig.

Definition set_Timeout (timeout : Z) (c : StageConfig) : StageConfig :=
  {| Timeout := timeout; TypingSpeed := TypingSpeed c;
     CaptureViews := CaptureViews c; MaxRetries := MaxRetries c |}.

Definition set_CaptureViews (enabled : bool) (c : StageConfig) : StageConfig :=
  {| Timeout := Timeout c; TypingSpeed := TypingSpeed c;
     CaptureViews := enabled; MaxRetries := MaxRetries c |}.

(** [WithTimeout]: ignored once started; otherwise the old context is
    cancelled and [d.ctx] becomes a fresh one. *)
Definition WithTimeout (timeout : Z) (d : Director) : Director :=
  if started d then d
  else set_config (set_Timeout timeout (config d))
         (set_cancel true (set_ctxDone false d)).

Definition WithViewCapture (enabled : bool) (d : Director) : Director :=
  if started d then d
  else set_config (set_CaptureViews enabled (config d)) d.

(** [Start], of a director whose [t] is not nil ([Start] traces through
    it, as [waitForProgramReady] does).  A nil [d.model] makes the wrapper
    panic in the program's goroutine before any message is handled: the
    program then holds no model. *)
Definition Start (sched : wait_schedule) (d : Director) : Director :=
  if started d then d
  else
    let wrappedModel :=
      match model d with
      | Some m => Some {| w_REPLModel := m; w_director := true |}
      | None => None
      end in
    let d1 :=
      set_program
        (Some {| p_model := wrappedModel; p_inbox := []; p_sent := [];
                 p_quit := false |}) d in
    match waitForProgramReady sched d1 with
    | (Some err, d2) =>
        recordTrip (newStageTrip "STARTUP_FAILED" err (<["error" := VString err]> ∅)) d2
    | (None, d2) =>
        let d3 := set_started true d2 in
        if CaptureViews (config d3)
        then set_snapshots
               (snapshots d3 ++
                  [{| snap_View := getCurrentView d3; snap_Mode := getCurrentMode d3;
                      snap_Input := getCurrentInput d3 |}]) d3
        else d3
    end.

(** [Stop]: the result and the director afterwards.  ([Duration],
    [ErrorDetails] and [TripReport] are formatted text over the same trips
    and are not part of [StageResult] here.) *)
Definition Stop (d : Director) : StageResult * Director :=
  let d1 :=
    if CaptureViews (config d) && started d
    then set_snapshots
           (snapshots d ++
              [{| snap_View := getCurrentView d; snap_Mode := getCurrentMode d;
                  snap_Input := getCurrentInput d |}]) d
    else d in
  let d2 := if cancel d1 then set_ctxDone true d1 else d1 in
  let d3 :=
    match program d2 with
    | Some p => set_program (Some (Quit p)) d2
    | None => d2
    end in
  let success := negb (failed d3) && bool_decide (lastTrip d3 = None) in
  ({| Actions := interactions d3; Snapshots := snapshots d3; Success := success;
      ErrorMessage := getErrorMessage d3; Error_ := getError d3 |}, d3).

Definition HasDroppedUpdates (d : Director) : bool :=
  (0 <? droppedUpdates d) || (0 <? bufferOverflows d) || (0 <? sequenceGaps d).

Definition ResetMetrics (d : Director) : Director :=
  set_duplicateUpdates 0
    (set_sequenceGaps 0
       (set_bufferOverflows 0
          (set_updatesProcessed 0
             (set_updatesSent 0
                (set_droppedUpdates 0
                   (set_lastProcessedSeq 0 (set_updateSeq 0 d))))))).

(** *** Sessions

    A session is a sequence of calls on one director: the fluent methods,
    [recordTrip] and [recordError] (package-internal callers such as the
    [Operator], which records a fall when a frame cannot be captured), and
    what the other goroutines do between two calls. *)

Inductive op : Type :=
| OpWithTimeout (timeout : Z)
| OpWithViewCapture (enabled : bool)
| OpStart (sched : wait_schedule)
| OpStop
| OpType (text : string) (scheds : list key_schedule)
| OpPressEnter (sched : wait_schedule)
| OpPressTab (sched : wait_schedule)
| OpPressArrowDown (sched : wait_schedule)
| OpPressArrowUp (sched : wait_schedule)
| OpPressEscape (sched : wait_schedule)
| OpPressBackspace (sched : wait_schedule)
| OpClearInput (scheds : list key_schedule)
| OpWait (duration : Z) (during : list bg_step)
| OpWaitForMode (expectedMode : string) (sched : wait_schedule)
| OpWaitForSearchResults (sched : wait_schedule)
| OpWaitForText (text : string) (sched : wait_schedule)
| OpAssertViewContains (text : string)
| OpAssertMode (expectedMode : string)
| OpAssertInputEquals (expected : string)
| OpAssertNoSearchResults
| OpRecordTrip (tr : trip.Trip)
| OpRecordError (err : string)
| OpResetMetrics
| OpBackground (steps : list bg_step).

(** [None]: the call panicked in the calling goroutine. *)
Definition run_op (o : op) (d : Director) : option Director :=
  match o with
  | OpWithTimeout timeout => Some (WithTimeout timeout d)
  | OpWithViewCapture enabled => Some (WithViewCapture enabled d)
  | OpStart sched => Some (Start sched d)
  | OpStop => Some (snd (Stop d))
  | OpType text scheds => Some (Type_ text scheds d)
  | OpPressEnter sched => Some (PressEnter sched d)
  | OpPressTab sched => Some (PressTab sched d)
  | OpPressArrowDown sched => Some (PressArrowDown sched d)
  | OpPressArrowUp sched => Some (PressArrowUp sched d)
  | OpPressEscape sched => Some (PressEscape sched d)
  | OpPressBackspace sched => Some (PressBackspace sched d)
  | OpClearInput scheds => Some (ClearInput scheds d)
  | OpWait duration during => Some (Wait duration during d)
  | OpWaitForMode expectedMode sched => Some (WaitForMode expectedMode sched d)
  | OpWaitForSearchResults sched => Some (WaitForSearchResults sched d)
  | OpWaitForText text sched => Some (WaitForText text sched d)
  | OpAssertViewContains text => Some (AssertViewContains text d)
  | OpAssertMode expectedMode => Some (AssertMode expectedMode d)
  | OpAssertInputEquals expected => Some (AssertInputEquals expected d)
  | OpAssertNoSearchResults => AssertNoSearchResults d
  | OpRecordTrip tr => Some (recordTrip tr d)
  | OpRecordError err => Some (recordError err d)
  | OpResetMetrics => Some (ResetMetrics d)
  | OpBackground steps => Some (run_bg steps d)
  end.

Fixpoint run (ops : list op) (d : Director) : option Director :=
  match ops with
  | [] => Some d
  | o :: rest =>
      match run_op o d with
      | Some d' => run rest d'
      | None => None
      end
  end.

(** The wait operations. *)
Definition is_wait (o : op) : bool :=
  match o with
  | OpWaitForMode _ _ | OpWaitForSearchResults _ | OpWaitForText _ _ => true
  | _ => false
  end.

End Methods.

(** ** The older director: [InteractiveTestDirector]

    It has no trips and no severities: an error is a [TestError], and every
    recorded error marks the session failed.  Its consumer installs every
    model it receives; a schedule of one of its waits lists, for each tick
    of the 10ms ticker before the timeout fires, the models the consumer
    installed since the previous tick.  [latestModel] is read without a nil
    test, so the model is taken to be non-nil. *)

Module Legacy.

Record TestError : Type := mkTestError {
  te_Type : string;
  te_Message : string;
  te_Context : gmap string Value
}.

Definition TestError_Error (e : TestError) : string :=
  te_Type e +:+ ": " +:+ te_Message e.

Definition newTestError (errorType message : string)
    (context : gmap string Value) : TestError :=
  {| te_Type := errorType; te_Message := message; te_Context := context |}.

Record InteractionStep : Type := mkInteractionStep {
  step_Type : string;
  step_Details : Value
}.

Record ViewSnapshot : Type := mkViewSnapshot {
  vs_View : string;
  vs_Mode : string;
  vs_Input : string
}.

Record DirectorConfig : Type := mkDirectorConfig {
  Timeout : Z;
  TypingSpeed : Z;
  CaptureViews : bool;
  MaxRetries : Z;
  AutoReportErrors : bool
}.

Record TestResult : Type := mkTestResult {
  Interactions : list InteractionStep;
  Snapshots : list ViewSnapshot;
  Success : bool;
  ErrorMessage : string;
  Error_ : option TestError
}.

Section LegacyDirector.

Context {M : Type} `{!REPLModel M}.

Record InteractiveTestDirector : Type := mkInteractiveTestDirector {
  t_reported : option (list TestError);
  model : M;
  programStarted : bool;
  programQuit : bool;
  ctxDone : bool;
  interactions : list InteractionStep;
  snapshots : list ViewSnapshot;
  lastError : option TestError;
  failed : bool;
  latestModel : M;
  config : DirectorConfig;
  started : bool
}.

Definition NewInteractiveTestDirectorWithConfig (tst : option (list TestError))
    (m : M) (cfg : DirectorConfig) : InteractiveTestDirector :=
  {| t_reported := tst; model := m; programStarted := false; programQuit := false;
     ctxDone := false; interactions := []; snapshots := []; lastError := None;
     failed := false; latestModel := m; config := cfg; started := false |}.

Definition getCurrentView (d : InteractiveTestDirector) : string := View (latestModel d).

Definition install (m : M) (d : InteractiveTestDirector) : InteractiveTestDirector :=
  mkInteractiveTestDirector (t_reported d) (model d) (programStarted d) (programQuit d)
    (ctxDone d) (interactions d) (snapshots d) (lastError d) (failed d) m
    (config d) (started d).

(** The consumer's loop for the models it receives. *)
Definition syncModelUpdates (received : list M) (d : InteractiveTestDirector)
    : InteractiveTestDirector :=
  fold_left (fun d m => install m d) received d.

Definition recordError (err : TestError) (d : InteractiveTestDirector)
    : InteractiveTestDirector :=
  mkInteractiveTestDirector
    (match t_reported d with
     | Some reported =>
         if AutoReportErrors (config d) then Some (reported ++ [err])%list else Some reported
     | None => None
     end)
    (model d) (programStarted d) (programQuit d) (ctxDone d) (interactions d)
    (snapshots d) (Some err) true (latestModel d) (config d) (started d).

Definition recordInteraction (interactionType : string) (details : Value)
    (d : InteractiveTestDirector) : InteractiveTestDirector :=
  mkInteractiveTestDirector (t_reported d) (model d) (programStarted d) (programQuit d)
    (ctxDone d)
    (interactions d ++ [{| step_Type := interactionType; step_Details := details |}])
    (snapshots d) (lastError d) (failed d) (latestModel d) (config d) (started d).

(** [WaitForText]: [ticks] are the ticker's ticks before the timeout. *)
Fixpoint WaitForText (text : string) (ticks : list (list M))
    (d : InteractiveTestDirector) : InteractiveTestDirector :=
  match ticks with
  | [] =>
      let currentView := getCurrentView d in
      recordError
        (newTestError "timeout" ("Timeout waiting for text '" +:+ text +:+ "'")
           (<["expected_text" := VString text]>
              (<["current_view" := VString currentView]> ∅))) d
  | installed :: rest =>
      let d1 := syncModelUpdates installed d in
      if Contains (getCurrentView d1) text
      then recordInteraction "wait_condition" (VString ("text=" +:+ text)) d1
      else WaitForText text rest d1
  end.

Definition Stop (d : InteractiveTestDirector) : TestResult * InteractiveTestDirector :=
  if negb (started d)
  then ({| Interactions := []; Snapshots := []; Success := false;
           ErrorMessage := "Test director was never started"; Error_ := None |}, d)
  else
    let d1 :=
      mkInteractiveTestDirector (t_reported d) (model d) (programStarted d)
        (if programStarted d then true else programQuit d) true (interactions d)
        (snapshots d) (lastError d) (failed d) (latestModel d) (config d) (started d) in
    ({| Interactions := interactions d1; Snapshots := snapshots d1;
        Success := negb (failed d1);
        ErrorMessage := match lastError d1 with
                        | Some e => TestError_Error e
                        | None => ""
                        end;
        Error_ := lastError d1 |}, d1).

End LegacyDirector.

Arguments InteractiveTestDirector : clear implicits.

End Legacy.

(** ** A driven program from the test suite: [MockREPL]

    In Go a [*MockREPL] is a pointer and [Update] overwrites the fields of
    the object it points to and returns the same pointer; here [Update]
    returns the record with the new fields.  The two agree on what the
    director reads whenever the consumer has caught up with the program:
    the model in [latestModel] is then the program's current one.  In
    between, the Go object already shows the program's latest state while
    the record in [latestModel] shows the state of the last update
    applied; an example that reads a model in between uses [SimpleREPL],
    whose states are values in Go as well. *)

Record MockREPL : Type := mkMockREPL {
  input : string;
  mode : string;
  output : string;
  conditions : gmap string bool
}.

Definition NewMockREPL : MockREPL :=
  {| input := ""; mode := "initial"; output := ""; conditions := ∅ |}.

Definition MockREPL_Update (m : MockREPL) (msg : Msg) : UpdateOutcome MockREPL :=
  match msg with
  | KeyMsg KeyRunes runes =>
      Returns (REPL {| input := input m +:+ string_of_list_ascii runes;
                       mode := "typing"; output := output m;
                       conditions := conditions m |})
  | KeyMsg KeyEnter _ =>
      Returns (REPL {| input := ""; mode := "result";
                       output := "processed: " +:+ input m;
                       conditions := conditions m |})
  | KeyMsg KeyEsc _ =>
      Returns (REPL {| input := ""; mode := "initial"; output := output m;
                       conditions := conditions m |})
  | _ => Returns (REPL m)
  end.

Definition MockREPL_View (m : MockREPL) : string :=
  if negb (String.eqb (output m) "")
  then "Mode: " +:+ mode m +:+ nl +:+ "Output: " +:+ output m +:+ nl
         +:+ "Input: " +:+ input m +:+ nl +:+ "> "
  else "Mode: " +:+ mode m +:+ nl +:+ "Input: " +:+ input m +:+ nl +:+ "> ".

Definition MockREPL_CheckCondition (m : MockREPL) (condition : string) : bool :=
  if String.eqb condition "has_output" then negb (String.eqb (output m) "")
  else if String.eqb condition "empty_input" then String.eqb (input m) ""
  else if String.eqb condition "has_input" then negb (String.eqb (input m) "")
  else default false (conditions m !! condition).

#[global] Instance MockREPL_REPLModel : REPLModel MockREPL :=
  {| Update := MockREPL_Update; View := MockREPL_View; CurrentInput := input;
     CurrentMode := mode; CheckCondition := MockREPL_CheckCondition |}.

(** A driven program whose [Update] panics on Enter, returns a nil model
    on Tab and a model that is no [REPLModel] on Escape. *)
Definition FaultyREPL_Update (m : MockREPL) (msg : Msg) : UpdateOutcome MockREPL :=
  match msg with
  | KeyMsg KeyEnter _ => Panics (VString "boom")
  | KeyMsg KeyTab _ => Returns NilModel
  | KeyMsg KeyEsc _ => Returns ForeignModel
  | _ => MockREPL_Update m msg
  end.

Definition FaultyREPL_REPLModel : REPLModel MockREPL :=
  {| Update := FaultyREPL_Update; View := MockREPL_View; CurrentInput := input;
     CurrentMode := mode; CheckCondition := MockREPL_CheckCondition |}.

(** [tea.KeyMsg.String()]: the runes of a [KeyRunes] message, the name of
    any other key. *)
Definition KeyMsg_String (k : KeyType) (runes : list ascii) : string :=
  match k with
  | KeyRunes => string_of_list_ascii runes
  | KeyEnter => "enter"
  | KeyTab => "tab"
  | KeyDown => "down"
  | KeyUp => "up"
  | KeyEsc => "esc"
  | KeyBackspace => "backspace"
  end.

(** Formatting used in the examples: strings print as themselves. *)
#[global] Instance MockREPL_Fmt : Fmt MockREPL :=
  {| Sprint_v := fun v => match v with VString s => s | _ => "" end;
     Sprint_msg := fun msg => match msg with
                              | KeyMsg k runes => "tea.KeyMsg: " +:+ KeyMsg_String k runes
                              | OtherMsg tag => tag
                              end;
     Sprint_T := fun _ => "*steadicam.MockREPL" |}.

(** ** A driven program of the examples: [SimpleREPL]

    Its methods have value receivers: [Update] changes its own copy of the
    model and returns that copy, so that every update the wrapper queues
    carries a state of its own. *)

Record SimpleREPL : Type := mkSimpleREPL {
  sr_input : string;
  sr_output : string;
  sr_mode : string
}.

Definition NewSimpleREPL : SimpleREPL :=
  {| sr_input := ""; sr_output := ""; sr_mode := "input" |}.

Definition SimpleREPL_Update (m : SimpleREPL) (msg : Msg) : UpdateOutcome SimpleREPL :=
  match msg with
  | KeyMsg KeyEnter _ =>
      if negb (String.eqb (sr_input m) "")
      then Returns (REPL {| sr_input := "";
                            sr_output := "Hello, " +:+ sr_input m +:+ "! You entered: "
                                           +:+ sr_input m;
                            sr_mode := "result" |})
      else Returns (REPL m)
  | KeyMsg KeyEsc _ =>
      Returns (REPL {| sr_input := ""; sr_output := ""; sr_mode := "input" |})
  | KeyMsg KeyRunes runes =>
      Returns (REPL {| sr_input := sr_input m +:+ string_of_list_ascii runes;
                       sr_output := sr_output m; sr_mode := sr_mode m |})
  | KeyMsg KeyBackspace _ =>
      if 0 <? len (sr_input m)
      then Returns (REPL {| sr_input :=
                              String.substring 0 (String.length (sr_input m) - 1) (sr_input m);
                            sr_output := sr_output m; sr_mode := sr_mode m |})
      else Returns (REPL m)
  | _ => Returns (REPL m)
  end.

Definition SimpleREPL_View (m : SimpleREPL) : string :=
  String (ascii_of_nat 240) (String (ascii_of_nat 159) (String (ascii_of_nat 142)
    (String (ascii_of_nat 172) " Simple REPL Example"))) +:+ nl
  +:+ "======================" +:+ nl +:+ nl
  +:+ (if negb (String.eqb (sr_output m) "")
       then "Output: " +:+ sr_output m +:+ nl +:+ nl
       else "")
  +:+ "Mode: " +:+ sr_mode m +:+ nl
  +:+ "Input: " +:+ sr_input m +:+ nl
  +:+ "repl> "
  +:+ nl +:+ nl +:+ "(Press Enter to submit, Esc to clear, Ctrl+C to quit)".

Definition SimpleREPL_CheckCondition (m : SimpleREPL) (condition : string) : bool :=
  if String.eqb condition "has_output" then negb (String.eqb (sr_output m) "")
  else if String.eqb condition "empty_input" then String.eqb (sr_input m) ""
  else if String.eqb condition "has_input" then negb (String.eqb (sr_input m) "")
  else if String.eqb condition "input_mode" then String.eqb (sr_mode m) "input"
  else if String.eqb condition "result_mode" then String.eqb (sr_mode m) "result"
  else false.

#[global] Instance SimpleREPL_REPLModel : REPLModel SimpleREPL :=
  {| Update := SimpleREPL_Update; View := SimpleREPL_View; CurrentInput := sr_input;
     CurrentMode := sr_mode; CheckCondition := SimpleREPL_CheckCondition |}.

#[global] Instance SimpleREPL_Fmt : Fmt SimpleREPL :=
  {| Sprint_v := fun v => match v with VString s => s | _ => "" end;
     Sprint_msg := fun msg => match msg with
                              | KeyMsg k runes => "tea.KeyMsg: " +:+ KeyMsg_String k runes
                              | OtherMsg tag => tag
                              end;
     Sprint_T := fun _ => "main.SimpleREPL" |}.

(** ** Vocabulary of the statements *)

Section Vocabulary.

Context {M : Type} `{!REPLModel M} `{!Fmt M}.

Implicit Types (d : StageDirector M) (tr : trip.Trip).

(** The part of the director that [recordTrip] writes. *)
Definition tstate d : trip.Handler * option trip.Trip * bool :=
  (tripHandler d, lastTrip d, failed d).

Definition record_ts (s : trip.Handler * option trip.Trip * bool) tr
    : trip.Handler * option trip.Trip * bool :=
  (trip.Record_ (fst (fst s)) tr, Some tr,
   if negb (trip.CanRecover tr) then true else snd s).

(** [ext d d']: the trip state of [d'] is that of [d] after recording some
    more trips. *)
Definition ext d d' : Prop :=
  exists trs, tstate d' = fold_left record_ts trs (tstate d).

(** The bookkeeping of trips: the handler keeps stumbles and the other
    trips apart, [failed] says that there is one of the other trips, and
    [lastTrip] is nil as long as nothing was recorded. *)
Definition tinv (s : trip.Handler * option trip.Trip * bool) : Prop :=
  (forall tr, In tr (trip.trips (fst (fst s))) -> trip.trip_Severity tr <> trip.Stumble)
  /\ (forall tr, In tr (trip.stumbles (fst (fst s))) -> trip.trip_Severity tr = trip.Stumble)
  /\ (snd s = true <-> trip.trips (fst (fst s)) <> [])
  /\ (snd (fst s) = None
      <-> trip.trips (fst (fst s)) = [] /\ trip.stumbles (fst (fst s)) = []).

(** The outcome of a fail-fast handler of the update wrapper: one error
    snapshot, one trip of the default severity, the failed flag, the
    cancelled context. *)
Definition fail_fast_outcome (errorType errorMessage tripType tripMessage : string)
    d d' : Prop :=
  snapshots d'
  = snapshots d ++
      [{| snap_View := "ERROR STATE (" +:+ errorType +:+ ")" +:+ nl +:+ errorMessage
                         +:+ nl +:+ nl +:+ "Last View:" +:+ nl +:+ getCurrentView d;
          snap_Mode := "error_" +:+ errorType;
          snap_Input := getCurrentInput d |}]
  /\ (exists tr,
        lastTrip d' = Some tr
        /\ trip.trips (tripHandler d') = trip.trips (tripHandler d) ++ [tr]
        /\ trip.stumbles (tripHandler d') = trip.stumbles (tripHandler d)
        /\ trip.trip_Type tr = tripType
        /\ trip.trip_Message tr = tripMessage
        /\ trip.trip_Severity tr = trip.Error
        /\ trip.IsFall tr = false)
  /\ failed d' = true
  /\ ctxDone d' = true.

(** The outcome of a wait that ran into its timer in state [d1]: exactly
    one more trip, of severity Error, with the given type and the given
    context entries. *)
Definition timeout_outcome (tripType : string) (entries : list (string * Value))
    d1 d' : Prop :=
  exists tr,
    d' = recordTrip tr d1
    /\ lastTrip d' = Some tr
    /\ trip.trips (tripHandler d') = trip.trips (tripHandler d1) ++ [tr]
    /\ trip.stumbles (tripHandler d') = trip.stumbles (tripHandler d1)
    /\ trip.trip_Type tr = tripType
    /\ trip.trip_Severity tr = trip.Error
    /\ Forall (fun kv => trip.trip_Context tr !! fst kv = Some (snd kv)) entries
    /\ failed d' = true.

(** The event [Type] sends for one rune, and the events for a text. *)
Definition key (char : string) : Msg := KeyMsg KeyRunes (list_ascii_of_string char).

Definition keys (text : string) : list Msg := map key (runes text).



(** Sequence numbers that grow strictly from above [lo] up to at most [hi]. *)
Fixpoint ascending (lo : Z) (seqs : list Z) (hi : Z) : Prop :=
  match seqs with
  | [] => lo <= hi
  | s :: rest => lo < s /\ ascending s rest hi
  end.






(** Every message passed to [program.Send] so far ([None] before [Start]). *)
Definition sentlog d : option (list Msg) :=
  match program d with
  | Some p => Some (p_sent p)
  | None => None
  end.

(** What the calling goroutine alone writes: the action log, the log of
    sent messages, the configuration. *)
Definition tframe d := (interactions d, sentlog d, config d).

End Vocabulary.

(** ** Vocabulary of further statements *)

Section SessionVocabulary.

Context {M : Type} `{!REPLModel M} `{!Fmt M}.

Implicit Types (d : StageDirector M).

(** The accounting of the updates: the queue respects its capacity and
    holds strictly growing sequence numbers between the last one processed
    and the last one given out; no update was taken for a duplicate; every
    update the consumer processed and every gap it saw has a sequence
    number of its own up to the last one processed; what was given out was
    sent or dropped, and what was sent is queued or processed. *)
Definition synced d : Prop :=
  exists ch,
    modelChan d = Some ch
    /\ (length (chan_buf ch) <= chan_cap ch)%nat
    /\ ascending (lastProcessedSeq d) (map mu_sequence (chan_buf ch)) (updateSeq d)
    /\ updateSeq d <= Int64.max_int64
    /\ 0 <= updatesProcessed d
    /\ 0 <= sequenceGaps d
    /\ updatesProcessed d + sequenceGaps d <= lastProcessedSeq d
    /\ duplicateUpdates d = 0
    /\ 0 <= droppedUpdates d
    /\ bufferOverflows d = droppedUpdates d
    /\ updateSeq d = updatesSent d + droppedUpdates d
    /\ updatesSent d = Z.of_nat (length (chan_buf ch)) + updatesProcessed d.

(** The fields the accounting reads. *)
Definition sfields d :=
  (modelChan d, lastProcessedSeq d, updateSeq d, updatesSent d, updatesProcessed d,
   droppedUpdates d, bufferOverflows d, sequenceGaps d, duplicateUpdates d).

(** The configuration and the started flag. *)
Definition cframe d := (config d, started d).

(** A harness whose program holds no model: there is no state to show, the
    program handles nothing and no update is on its way. *)
Definition inert d : Prop :=
  latestModel d = None
  /\ (exists p, program d = Some p /\ p_model p = None)
  /\ (exists ch, modelChan d = Some ch /\ chan_buf ch = []).

(** What one round of [ClearInput] logs on a director of typing speed
    [speed]. *)
Definition backspace_actions (speed : Z) : list StageAction :=
  {| action_Type := "keypress"; action_Details := VString "backspace";
     action_Result := VNil |}
  :: (if 0 <? speed
      then [{| action_Type := "wait"; action_Details := VDuration (speed / 4);
               action_Result := VNil |}]
      else []).

(** What an assertion leaves behind, from [d] to [d']: when it passed, one
    "assertion" action with [details] and the trip state as it was; when it
    did not, no action but one more trip, of type "assertion" and severity
    [Error] with [message], which is the last trip and the one [Stop]
    reports. *)
Definition assertion_outcome (passed : bool) (details message : string) d d' : Prop :=
  if passed
  then tstate d' = tstate d
       /\ interactions d'
          = interactions d ++ [{| action_Type := "assertion";
                                  action_Details := VString details;
                                  action_Result := VNil |}]
  else exists tr,
         lastTrip d' = Some tr
         /\ trip.trips (tripHandler d') = trip.trips (tripHandler d) ++ [tr]
         /\ trip.trip_Type tr = "assertion"
         /\ trip.trip_Message tr = message
         /\ trip.trip_Severity tr = trip.Error
         /\ failed d' = true
         /\ interactions d' = interactions d
         /\ ErrorMessage (fst (Stop d')) = "[assertion] " +:+ message.

End SessionVocabulary.

(** ** The two goroutines, one shared-memory operation at a time

    [program_step] and [consumer_step] run a whole [Update] of the wrapper
    and a whole turn of [syncModelUpdates] at once.  The goroutines are not
    that coarse: each counter is updated by an atomic operation of its own,
    and the other goroutine can run between any two of them.  Here every
    step is one operation on the shared state, and a place in the code says
    where each goroutine is. *)

Section Interleaving.

Context {M : Type}.

Implicit Types (d : StageDirector M).

(** Where the program's goroutine is in the send of
    [stageModelWrapper.Update]. *)
Inductive update_pc : Type :=
| UpdateIdle
    (* outside the send *)
| UpdateNumbered (update : modelUpdate M)
    (* after [seq := atomic.AddInt64(&w.director.updateSeq, 1)] *)
| UpdateSent
    (* the case [w.director.modelChan <- update] was taken *)
| UpdateFull
    (* the [default] case was taken *)
| UpdateOverflowCounted.
    (* after [atomic.AddInt64(&w.director.bufferOverflows, 1)] *)

(** Where the consumer is in the loop of [syncModelUpdates]. *)
Inductive sync_pc : Type :=
| SyncIdle
    (* at the [select] *)
| SyncReceived (update : modelUpdate M)
    (* after [update := <-d.modelChan] *)
| SyncLoaded (update : modelUpdate M) (currentSeq : Z)
    (* after [currentSeq := atomic.LoadInt64(&d.lastProcessedSeq)] *)
| SyncChecked (update : modelUpdate M)
    (* past the two tests, a gap counted if there was one *)
| SyncModelSet (update : modelUpdate M)
    (* after [d.latestModel = update.model] *)
| SyncSeqStored.
    (* after [atomic.StoreInt64(&d.lastProcessedSeq, update.sequence)] *)

(** The shared director and the place of each goroutine. *)
Record racing : Type := mkRacing {
  r_director : StageDirector M;
  r_update : update_pc;
  r_sync : sync_pc
}.

(** Nothing is in flight. *)
Definition at_rest d : racing :=
  {| r_director := d; r_update := UpdateIdle; r_sync := SyncIdle |}.

(** The program's goroutine reaches the send with the model [replModel]
    that the wrapped [Update] returned, and gives it a number.  (It is one
    goroutine: it does not start a send inside a send.) *)
Definition enter_update (replModel : M) (r : racing) : racing :=
  let d := r_director r in
  match r_update r, modelChan d with
  | UpdateIdle, Some _ =>
      let seq := Int64.AddInt64 (updateSeq d) 1 in
      {| r_director := set_updateSeq seq d;
         r_update := UpdateNumbered {| mu_model := replModel; mu_sequence := seq |};
         r_sync := r_sync r |}
  | _, _ => r
  end.

(** The next operation of the send. *)
Definition update_step (r : racing) : racing :=
  let d := r_director r in
  match r_update r with
  | UpdateIdle => r
  | UpdateNumbered update =>
      match modelChan d with
      | Some ch =>
          if (length (chan_buf ch) <? chan_cap ch)%nat
          then
            {| r_director :=
                 set_modelChan
                   (Some {| chan_buf := chan_buf ch ++ [update];
                            chan_cap := chan_cap ch |}) d;
               r_update := UpdateSent;
               r_sync := r_sync r |}
          else {| r_director := d; r_update := UpdateFull; r_sync := r_sync r |}
      | None => {| r_director := d; r_update := UpdateFull; r_sync := r_sync r |}
      end
  | UpdateSent =>
      {| r_director := set_updatesSent (Int64.AddInt64 (updatesSent d) 1) d;
         r_update := UpdateIdle;
         r_sync := r_sync r |}
  | UpdateFull =>
      {| r_director := set_bufferOverflows (Int64.AddInt64 (bufferOverflows d) 1) d;
         r_update := UpdateOverflowCounted;
         r_sync := r_sync r |}
  | UpdateOverflowCounted =>
      {| r_director := set_droppedUpdates (Int64.AddInt64 (droppedUpdates d) 1) d;
         r_update := UpdateIdle;
         r_sync := r_sync r |}
  end.

(** The next operation of the consumer.  At the [select] it waits for a
    queued update; a consumer that has left through the [ctx.Done()] case
    takes no further step. *)
Definition sync_step (r : racing) : racing :=
  let d := r_director r in
  match r_sync r with
  | SyncIdle =>
      match modelChan d with
      | Some ch =>
          match chan_buf ch with
          | update :: rest =>
              {| r_director :=
                   set_modelChan (Some {| chan_buf := rest; chan_cap := chan_cap ch |}) d;
                 r_update := r_update r;
                 r_sync := SyncReceived update |}
          | [] => r
          end
      | None => r
      end
  | SyncReceived update =>
      {| r_director := d;
         r_update := r_update r;
         r_sync := SyncLoaded update (lastProcessedSeq d) |}
  | SyncLoaded update currentSeq =>
      if mu_sequence update <=? currentSeq
      then
        {| r_director := set_duplicateUpdates (Int64.AddInt64 (duplicateUpdates d) 1) d;
           r_update := r_update r;
           r_sync := SyncIdle |}
      else if mu_sequence update >? Int64.wrap (currentSeq + 1)
      then
        {| r_director := set_sequenceGaps (Int64.AddInt64 (sequenceGaps d) 1) d;
           r_update := r_update r;
           r_sync := SyncChecked update |}
      else {| r_director := d; r_update := r_update r; r_sync := SyncChecked update |}
  | SyncChecked update =>
      {| r_director := set_latestModel (Some (mu_model update)) d;
         r_update := r_update r;
         r_sync := SyncModelSet update |}
  | SyncModelSet update =>
      {| r_director := set_lastProcessedSeq (mu_sequence update) d;
         r_update := r_update r;
         r_sync := SyncSeqStored |}
  | SyncSeqStored =>
      {| r_director := set_updatesProcessed (Int64.AddInt64 (updatesProcessed d) 1) d;
         r_update := r_update r;
         r_sync := SyncIdle |}
  end.

(** What the scheduler lets happen next. *)
Inductive micro : Type :=
| EnterUpdate (replModel : M)
| UpdateStep
| SyncStep.

Definition micro_step (s : micro) (r : racing) : racing :=
  match s with
  | EnterUpdate replModel => enter_update replModel r
  | UpdateStep => update_step r
  | SyncStep => sync_step r
  end.

Definition run_micro (steps : list micro) (r : racing) : racing :=
  fold_left (fun r s => micro_step s r) steps r.

(** How far the counters are from their values at rest, for each place of
    the program's goroutine: a number given out and not yet counted as sent
    or dropped; that number not in the queue; an update queued and not yet
    counted; an overflow counted before its drop. *)
Definition numbered (pc : update_pc) : Z :=
  match pc with UpdateIdle => 0 | _ => 1 end.

Definition unsent (pc : update_pc) : Z :=
  match pc with UpdateIdle | UpdateSent => 0 | _ => 1 end.

Definition uncounted_send (pc : update_pc) : Z :=
  match pc with UpdateSent => 1 | _ => 0 end.

Definition counted_overflow (pc : update_pc) : Z :=
  match pc with UpdateOverflowCounted => 1 | _ => 0 end.

(** The same for the consumer: an update received and not yet counted as
    processed, and the sequence number below everything still queued. *)
Definition held (pc : sync_pc) : Z :=
  match pc with SyncIdle => 0 | _ => 1 end.

Definition floor_seq (pc : sync_pc) (last : Z) : Z :=
  match pc with
  | SyncReceived update | SyncLoaded update _ | SyncChecked update
  | SyncModelSet update => mu_sequence update
  | SyncIdle | SyncSeqStored => last
  end.

Definition update_facts (pc : update_pc) d : Prop :=
  match pc with
  | UpdateNumbered update => mu_sequence update = updateSeq d
  | _ => True
  end.

Definition sync_facts (pc : sync_pc) d : Prop :=
  match pc with
  | SyncIdle => updatesProcessed d + sequenceGaps d <= lastProcessedSeq d
  | SyncReceived update =>
      updatesProcessed d + sequenceGaps d <= lastProcessedSeq d
      /\ lastProcessedSeq d < mu_sequence update
  | SyncLoaded update currentSeq =>
      currentSeq = lastProcessedSeq d
      /\ updatesProcessed d + sequenceGaps d <= lastProcessedSeq d
      /\ lastProcessedSeq d < mu_sequence update
  | SyncChecked update | SyncModelSet update =>
      updatesProcessed d + sequenceGaps d + 1 <= mu_sequence update
  | SyncSeqStored => updatesProcessed d + sequenceGaps d + 1 <= lastProcessedSeq d
  end.

(** The accounting of the updates at any instant: [synced], with what is
    in flight taken into account. *)
Definition accounted (r : racing) : Prop :=
  let d := r_director r in
  exists ch,
    modelChan d = Some ch
    /\ (length (chan_buf ch) <= chan_cap ch)%nat
    /\ ascending (floor_seq (r_sync r) (lastProcessedSeq d))
         (map mu_sequence (chan_buf ch)) (updateSeq d - unsent (r_update r))
    /\ update_facts (r_update r) d
    /\ sync_facts (r_sync r) d
    /\ updateSeq d <= Int64.max_int64
    /\ 0 <= updatesSent d
    /\ 0 <= updatesProcessed d
    /\ 0 <= sequenceGaps d
    /\ 0 <= droppedUpdates d
    /\ duplicateUpdates d = 0
    /\ bufferOverflows d = droppedUpdates d + counted_overflow (r_update r)
    /\ updateSeq d = updatesSent d + droppedUpdates d + numbered (r_update r)
    /\ updatesSent d + uncounted_send (r_update r)
       = Z.of_nat (length (chan_buf ch)) + updatesProcessed d + held (r_sync r).

End Interleaving.

(** ** Text helpers of the reports

    [parseInt] and [extractFrameTiming] of report.go.  A Go [int] is taken
    to be 64 bits wide. *)

(** A value, or an error with its message. *)
Inductive Result (A : Type) : Type :=
| Ok (value : A)
| Err (message : string).
Arguments Ok {A} value.
Arguments Err {A} message.

(** [int(r - '0')] *)
Definition digit_of (r : ascii) : Z := Z.of_nat (nat_of_ascii r) - 48.

(** [r < '0' || r > '9'] does not hold. *)
Definition is_digit (r : ascii) : bool := (0 <=? digit_of r) && (digit_of r <=? 9).

(** The loop [for _, r := range s] that [parseInt] and [extractFrameTiming]
    both run on their digits: [None] when it meets a character that is no
    digit. *)
Fixpoint digits_loop (s : string) (result : Z) : option Z :=
  match s with
  | EmptyString => Some result
  | String r s' =>
      if negb (is_digit r) then None
      else digits_loop s' (Int64.wrap (result * 10 + digit_of r))
  end.

Definition parseInt (s : string) : Result Z :=
  match digits_loop s 0 with
  | Some result => Ok result
  | None => Err ("invalid integer: " +:+ s)
  end.

Definition digit_char (n : Z) : ascii := ascii_of_nat (Z.to_nat (48 + n)).

(** The decimal digits of [n >= 0], written in front of [acc]. *)
Fixpoint Sprint_digits (fuel : nat) (n : Z) (acc : string) : string :=
  match fuel with
  | O => acc
  | S fuel' =>
      let acc' := String (digit_char (n mod 10)) acc in
      if n <? 10 then acc' else Sprint_digits fuel' (n / 10) acc'
  end.

(** [fmt.Sprintf("%d", n)] for an [int]; twenty digits are enough. *)
Definition Sprint_d (n : Z) : string :=
  if n <? 0 then String "-" (Sprint_digits 20 (- n) "")
  else Sprint_digits 20 n "".

(** The byte index of the first [c] in [s]. *)
Fixpoint index_rune (c : ascii) (s : string) : option nat :=
  match s with
  | EmptyString => None
  | String r s' => if Ascii.eqb r c then Some O else option_map S (index_rune c s')
  end.

Definition extractFrameTiming (label : string) : string :=
  if len label =? 0 then "0"
  else
    match index_rune "_" label with
    | None => "0"
    | Some underscoreIndex =>
        let frameStr := String.substring 0 underscoreIndex label in
        match digits_loop frameStr 0 with
        | None => "0"
        | Some frameNum => Sprint_d (Int64.wrap (frameNum * 100))
        end
    end.

(** ** Captured ANSI text

    [escapeForHTML], [convertSequenceToHTML] and [convertANSIToHTML] (the
    text of captured frames on its way into a report) and [stripANSI] of
    the rendering stage. *)

(** [strings.ReplaceAll(s, old, new)] for a non-empty [old]: the matches
    are taken from left to right and do not overlap; [skip] counts the
    characters of a match still to be passed over. *)
Fixpoint ReplaceAll_from (skip : nat) (s old new : string) : string :=
  match s with
  | EmptyString => EmptyString
  | String c s' =>
      match skip with
      | S k => ReplaceAll_from k s' old new
      | O =>
          if String.prefix old s
          then new +:+ ReplaceAll_from (String.length old - 1) s' old new
          else String c (ReplaceAll_from O s' old new)
      end
  end.

Definition ReplaceAll (s old new : string) : string := ReplaceAll_from O s old new.

Definition LF : ascii := ascii_of_nat 10.
Definition CR : ascii := ascii_of_nat 13.
Definition ESC : ascii := ascii_of_nat 27.
Definition quote : ascii := ascii_of_nat 34.
Definition backslash : ascii := ascii_of_nat 92.

Definition str (c : ascii) : string := String c EmptyString.

Definition escapeForHTML (content : string) : string :=
  let content := ReplaceAll content "&" "&amp;" in
  let content := ReplaceAll content (str quote) "&#34;" in
  let content := ReplaceAll content "'" "&#39;" in
  let content := ReplaceAll content "<" "&lt;" in
  let content := ReplaceAll content ">" "&gt;" in
  let content := ReplaceAll content (str LF) (String backslash "n") in
  ReplaceAll content (str CR) (String backslash "r").

Definition convertSequenceToHTML (sequence : string) : string :=
  if String.eqb sequence "0m" then "</span>"
  else if String.eqb sequence "1;38;5;39m"
  then "<span style=" +:+ str quote +:+ "color: #58a6ff; font-weight: bold;"
         +:+ str quote +:+ ">"
  else if String.eqb sequence "38;5;240m"
  then "<span style=" +:+ str quote +:+ "color: #7d8590;" +:+ str quote +:+ ">"
  else if String.eqb sequence "1;38;5;255m"
  then "<span style=" +:+ str quote +:+ "color: #ffffff; font-weight: bold;"
         +:+ str quote +:+ ">"
  else if String.eqb sequence "38;5;246m"
  then "<span style=" +:+ str quote +:+ "color: #8b949e;" +:+ str quote +:+ ">"
  else if String.eqb sequence "38;5;244m"
  then "<span style=" +:+ str quote +:+ "color: #6e7681;" +:+ str quote +:+ ">"
  else if String.eqb sequence "1;38;5;255;48;5;240m"
  then "<span style=" +:+ str quote
         +:+ "color: #ffffff; background: #7d8590; font-weight: bold;"
         +:+ str quote +:+ ">"
  else if String.eqb sequence "3;38;5;244m"
  then "<span style=" +:+ str quote +:+ "color: #6e7681; font-style: italic;"
         +:+ str quote +:+ ">"
  else "".

(** [(c >= 'A' && c <= 'Z') || (c >= 'a' && c <= 'z')] *)
Definition is_letter (c : ascii) : bool :=
  let n := nat_of_ascii c in
  ((65 <=? n)%nat && (n <=? 90)%nat) || ((97 <=? n)%nat && (n <=? 122)%nat).

(** The loop of [convertANSIToHTML] from index [i] on, [ansiText] being
    what is left of the text there.  [seq] is [None] in the outer loop and
    [Some collected] in the inner loop that collects an escape sequence; the
    inner loop also ends where the text ends. *)
Fixpoint convertANSIToHTML_from (seq : option string) (ansiText : string) : string :=
  match ansiText with
  | EmptyString =>
      match seq with
      | Some sequence => convertSequenceToHTML sequence
      | None => ""
      end
  | String char rest =>
      match seq with
      | Some collected =>
          if is_letter char
          then convertSequenceToHTML (collected +:+ str char)
                 +:+ convertANSIToHTML_from None rest
          else convertANSIToHTML_from (Some (collected +:+ str char)) rest
      | None =>
          if Ascii.eqb char CR then convertANSIToHTML_from None rest
          else if Ascii.eqb char LF then "<br>" +:+ convertANSIToHTML_from None rest
          else
            match rest with
            | String next rest' =>
                if Ascii.eqb char ESC && Ascii.eqb next "["
                then convertANSIToHTML_from (Some "") rest'
                else String char (convertANSIToHTML_from None rest)
            | EmptyString => String char (convertANSIToHTML_from None rest)
            end
      end
  end.

Definition convertANSIToHTML (ansiText : string) : string :=
  convertANSIToHTML_from None ansiText.

(** [[0-9;]] *)
Definition is_param (c : ascii) : bool :=
  let n := nat_of_ascii c in
  ((48 <=? n)%nat && (n <=? 57)%nat) || (n =? 59)%nat.

(** The length of the match of [[0-9;]*[a-zA-Z]] at the start of [s], if
    there is one (the two classes share no character, so the greedy star
    has one way to match). *)
Fixpoint csi_tail (s : string) : option nat :=
  match s with
  | EmptyString => None
  | String c s' =>
      if is_param c then option_map S (csi_tail s')
      else if is_letter c then Some 1%nat
      else None
  end.

(** The length of the match of [\x1b\[[0-9;]*[a-zA-Z]] at the start of [s]. *)
Definition csi_match (s : string) : option nat :=
  match s with
  | String c (String next tail) =>
      if Ascii.eqb c ESC && Ascii.eqb next "["
      then option_map (fun n => S (S n)) (csi_tail tail)
      else None
  | _ => None
  end.

(** [regexp.ReplaceAllString(text, "")] for that expression: the matches
    are taken from left to right and do not overlap; [skip] counts the
    characters of a match still to be dropped. *)
Fixpoint stripANSI_from (skip : nat) (text : string) : string :=
  match text with
  | EmptyString => EmptyString
  | String c rest =>
      match skip with
      | S k => stripANSI_from k rest
      | O =>
          match csi_match text with
          | Some n => stripANSI_from (n - 1) rest
          | None => String c (stripANSI_from O rest)
          end
      end
  end.

Definition stripANSI (text : string) : string := stripANSI_from O text.

(** Every character of [s] passes the test [p]. *)
Fixpoint all_chars (p : ascii -> bool) (s : string) : bool :=
  match s with
  | EmptyString => true
  | String c s' => p c && all_chars p s'
  end.

(** No character of [s] is [c]. *)
Definition free_of (c : ascii) (s : string) : bool :=
  all_chars (fun r => negb (Ascii.eqb r c)) s.

(** ** The rendering stage

    [make] panics on a negative length: widths and heights are naturals
    here.  The font is a constant of the package and is left out.  A method
    that indexes a slice gives [None] where Go panics with an index out of
    range.  A cell of the buffer holds a rune, kept as its text. *)

Record RGBA : Type := mkRGBA {
  rgba_R : Z;
  rgba_G : Z;
  rgba_B : Z;
  rgba_A : Z
}.

Record Config : Type := mkConfig {
  Width : nat;
  Height : nat;
  FontSize : Z;
  Background : RGBA;
  Foreground : RGBA;
  OutputDir : string
}.

(** The rune 0 of a freshly made row, and the space. *)
Definition zero_rune : string := String zero EmptyString.
Definition space_rune : string := " ".

(** [buffer] and [colorMap]: a row is [None] as long as it is nil. *)
Record RenderingStage : Type := mkRenderingStage {
  rs_config : Config;
  buffer : list (option (list string));
  colorMap : list (option (list RGBA));
  charWidth : Z;
  charHeight : Z
}.

(** (The output directory is created on the way.) *)
Definition NewRenderingStage (config : Config) : RenderingStage :=
  {| rs_config := config;
     buffer := repeat None (Height config);
     colorMap := repeat None (Height config);
     charWidth := 8; charHeight := 16 |}.

(** [strings.Split(s, "\n")] *)
Fixpoint Split_lines (s : string) : list string :=
  match s with
  | EmptyString => [EmptyString]
  | String c s' =>
      if Ascii.eqb c LF then EmptyString :: Split_lines s'
      else
        match Split_lines s' with
        | line :: lines => String c line :: lines
        | [] => [String c EmptyString]
        end
  end.

(** [rows[i][j] = v] *)
Definition set_cell {A : Type} (rows : list (option (list A))) (i j : nat) (v : A)
    : option (list (option (list A))) :=
  match rows !! i with
  | Some (Some row) =>
      if (j <? length row)%nat then Some (<[i := Some (<[j := v]> row)]> rows) else None
  | _ => None
  end.

(** The loop of [renderLine] over the runes of the cleaned line, from
    index [charIdx] on. *)
Fixpoint renderLine_loop (lineIdx charIdx : nat) (chars : list string) (rs : RenderingStage)
    : option RenderingStage :=
  match chars with
  | [] => Some rs
  | char :: rest =>
      if (Width (rs_config rs) <=? charIdx)%nat then Some rs
      else
        match set_cell (buffer rs) lineIdx charIdx char with
        | Some buffer' =>
            match set_cell (colorMap rs) lineIdx charIdx (Foreground (rs_config rs)) with
            | Some colorMap' =>
                renderLine_loop lineIdx (S charIdx) rest
                  {| rs_config := rs_config rs; buffer := buffer'; colorMap := colorMap';
                     charWidth := charWidth rs; charHeight := charHeight rs |}
            | None => None
            end
        | None => None
        end
  end.

Definition renderLine (lineIdx : nat) (line : string) (rs : RenderingStage)
    : option RenderingStage :=
  renderLine_loop lineIdx O (runes (stripANSI line)) rs.

(** The loop of [RenderText] over the lines, from index [lineIdx] on. *)
Fixpoint RenderText_lines (lineIdx : nat) (lines : list string) (rs : RenderingStage)
    : option RenderingStage :=
  match lines with
  | [] => Some rs
  | line :: rest =>
      if (Height (rs_config rs) <=? lineIdx)%nat then Some rs
      else
        match renderLine lineIdx line rs with
        | Some rs' => RenderText_lines (S lineIdx) rest rs'
        | None => None
        end
  end.

(** [RenderText]: every row of [buffer] is made (of zero runes) or filled
    with spaces, and the row of the same index of [colorMap] is made or
    filled with the foreground colour; then the lines are written. *)
Definition RenderText (terminalOutput : string) (rs : RenderingStage)
    : option RenderingStage :=
  let lines := Split_lines terminalOutput in
  let w := Width (rs_config rs) in
  let n := length (buffer rs) in
  if (length (colorMap rs) <? n)%nat then None
  else
    let cleared :=
      {| rs_config := rs_config rs;
         buffer :=
           map (fun row => match row with
                           | None => Some (repeat zero_rune w)
                           | Some r => Some (map (fun _ => space_rune) r)
                           end) (buffer rs);
         colorMap :=
           map (fun row => match row with
                           | None => Some (repeat (mkRGBA 0 0 0 0) w)
                           | Some r => Some (map (fun _ => Foreground (rs_config rs)) r)
                           end) (take n (colorMap rs))
           ++ drop n (colorMap rs);
         charWidth := charWidth rs; charHeight := charHeight rs |} in
    RenderText_lines O lines cleared.

(** What [CaptureFrame] draws for one row of the buffer: for every rune
    other than the space and the rune 0, its position in pixels and the
    text [string(char)] it draws. *)
Definition row_draws (cw ch : Z) (lineIdx : nat) (line : list string)
    : list (Z * Z * string) :=
  concat
    (imap (fun charIdx char =>
             if String.eqb char space_rune || String.eqb char zero_rune then []
             else [(Z.of_nat charIdx * cw, (Z.of_nat lineIdx + 1) * ch, char)])
       line).

(** What [CaptureFrame] draws on the image it then hands to the encoder
    (a row that is still nil is passed over). *)
Definition CaptureFrame_draws (rs : RenderingStage) : list (Z * Z * string) :=
  concat
    (imap (fun lineIdx row =>
             match row with
             | None => []
             | Some line => row_draws (charWidth rs) (charHeight rs) lineIdx line
             end) (buffer rs)).

(** The two maps have as many rows as the configured height, and a row
    that has been made is as long as the configured width. *)
Definition sized (rs : RenderingStage) : Prop :=
  length (buffer rs) = Height (rs_config rs)
  /\ length (colorMap rs) = Height (rs_config rs)
  /\ Forall (fun row => forall r, row = Some r -> length r = Width (rs_config rs))
       (buffer rs)
  /\ Forall (fun row => forall r, row = Some r -> length r = Width (rs_config rs))
       (colorMap rs).

(** ** The operator

    The [Operator] of the stage director: it embeds a [*StageDirector],
    whose methods are its own, and carries a rendering stage.  [CaptureTrackingShot] reads the clock for
    the name of its file and writes the file: the reading [now] and the
    error of the write, if there is one, are given to it. *)

(** [fmt.Sprintf("%03d", n)]: the sign, then zeros up to a width of three,
    then the digits. *)
Definition Sprint_03d (n : Z) : string :=
  let digits := Sprint_digits 20 (Z.abs n) "" in
  let sign := if n <? 0 then "-" else "" in
  sign +:+ string_of_list_ascii
             (repeat "0"%char (3 - String.length sign - String.length digits))
       +:+ digits.

Section OperatorMethods.

Context {M : Type} `{!REPLModel M} `{!Fmt M}.

Record Operator : Type := mkOperator {
  op_StageDirector : StageDirector M;
  renderingStage : RenderingStage;
  frameCount : Z;
  filmDir : string
}.

Definition NewOperator (tst : option TestingT) (m : option M) (outputDir : string)
    : Operator :=
  let config :=
    {| Width := 80; Height := 24; FontSize := 12;
       Background := mkRGBA 0 0 0 255; Foreground := mkRGBA 255 255 255 255;
       OutputDir := outputDir |} in
  {| op_StageDirector := NewStageDirector tst m;
     renderingStage := NewRenderingStage config;
     frameCount := 0; filmDir := outputDir |}.

Definition WithConfig (config : Config) (op : Operator) : Operator :=
  {| op_StageDirector := op_StageDirector op;
     renderingStage := NewRenderingStage config;
     frameCount := frameCount op; filmDir := OutputDir config |}.

(** The director's method [f], called on the operator. *)
Definition on_director (f : StageDirector M -> StageDirector M) (op : Operator)
    : Operator :=
  {| op_StageDirector := f (op_StageDirector op);
     renderingStage := renderingStage op;
     frameCount := frameCount op; filmDir := filmDir op |}.

(** [CaptureTrackingShot]: [saved] is the error of [CaptureFrame], [None]
    when the frame was written. *)
Definition CaptureTrackingShot (label now : string) (saved : option string)
    (op : Operator) : option Operator :=
  let currentView := "[view capture not yet implemented]" in
  match RenderText currentView (renderingStage op) with
  | None => None
  | Some rs =>
      let filename :=
        filmDir op +:+ "/frame_" +:+ now +:+ "_" +:+ Sprint_03d (frameCount op)
          +:+ "_" +:+ label +:+ ".png" in
      match saved with
      | Some err =>
          let cameraTrip :=
            trip.NewFall "visual" ("Camera seizure during frame capture: " +:+ err)
              (<["filename" := VString filename]>
                 (<["frame_count" := VInt (frameCount op)]>
                    (<["original_error" := VString err]> ∅))) in
          Some {| op_StageDirector := recordTrip cameraTrip (op_StageDirector op);
                  renderingStage := rs;
                  frameCount := frameCount op; filmDir := filmDir op |}
      | None =>
          Some {| op_StageDirector := op_StageDirector op;
                  renderingStage := rs;
                  frameCount := Int64.wrap (frameCount op + 1);
                  filmDir := filmDir op |}
      end
  end.

Definition TypeWithTrackingShot (text label : string) (scheds : list key_schedule)
    (now : string) (saved : option string) (op : Operator) : option Operator :=
  CaptureTrackingShot label now saved (on_director (Type_ text scheds) op).

Definition PressEnterWithTrackingShot (label : string) (sched : wait_schedule)
    (now : string) (saved : option string) (op : Operator) : option Operator :=
  CaptureTrackingShot label now saved (on_director (PressEnter sched) op).

Definition PressTabWithTrackingShot (label : string) (sched : wait_schedule)
    (now : string) (saved : option string) (op : Operator) : option Operator :=
  CaptureTrackingShot label now saved (on_director (PressTab sched) op).

Definition WaitForTextWithTrackingShot (text label : string) (sched : wait_schedule)
    (now : string) (saved : option string) (op : Operator) : option Operator :=
  CaptureTrackingShot label now saved (on_director (WaitForText text sched) op).

Definition WaitForModeWithTrackingShot (mode label : string) (sched : wait_schedule)
    (now : string) (saved : option string) (op : Operator) : option Operator :=
  CaptureTrackingShot label now saved (on_director (WaitForMode mode sched) op).

End OperatorMethods.

Arguments Operator : clear implicits.

(** [Handler.CanRecover]: whether the policy lists the error type as
    recoverable. *)
Definition Handler_CanRecover (h : trip.Handler) (errorType : string) : bool :=
  existsb (fun recoverableType => String.eqb recoverableType errorType)
    (trip.RecoverableTypes (trip.policy h)).

(** ** The teatest operator (package [operators])

    The test model of [teatest] is an external object: the operator holds
    it once [Start] has made it, and a method that reaches for it before
    panics on a nil pointer ([None]).  [teatest.WaitFor] ends the test when
    its text does not show in time ([None] as well); whether it shows is
    given to [WaitForText], as the error of [CaptureFrame] is given to
    [CaptureTrackingShot].  Every interaction the operator logs carries a
    string. *)

Module operators.

Record TeaOperator : Type := mkTeaOperator {
  teatestModel : bool;
  renderingStage : RenderingStage;
  frameCount : Z;
  filmDir : string;
  config : StageConfig;
  interactions : list StageAction
}.

Definition NewTeaOperator (outputDir : string) : TeaOperator :=
  let renderConfig :=
    {| Width := 80; Height := 24; FontSize := 12;
       Background := mkRGBA 0 0 0 255; Foreground := mkRGBA 255 255 255 255;
       OutputDir := outputDir |} in
  let stageConfig :=
    {| Timeout := 5 * second; TypingSpeed := 0; CaptureViews := true; MaxRetries := 1 |} in
  {| teatestModel := false;
     renderingStage := NewRenderingStage renderConfig;
     frameCount := 0; filmDir := outputDir; config := stageConfig;
     interactions := [] |}.

Definition recordInteraction (interactionType details : string) (op : TeaOperator)
    : TeaOperator :=
  {| teatestModel := teatestModel op; renderingStage := renderingStage op;
     frameCount := frameCount op; filmDir := filmDir op; config := config op;
     interactions :=
       interactions op ++
         [{| action_Type := interactionType; action_Details := VString details;
             action_Result := VString "success" |}] |}.

Definition WithTimeout (timeout : Z) (op : TeaOperator) : TeaOperator :=
  {| teatestModel := teatestModel op; renderingStage := renderingStage op;
     frameCount := frameCount op; filmDir := filmDir op;
     config := set_Timeout timeout (config op);
     interactions := interactions op |}.

Definition Start (op : TeaOperator) : TeaOperator :=
  recordInteraction "start" "teatest_operator_initialized"
    {| teatestModel := true; renderingStage := renderingStage op;
       frameCount := frameCount op; filmDir := filmDir op; config := config op;
       interactions := interactions op |}.

(** [Type] hands the text to the test model key by key: with no key to
    hand over, the model is not reached for. *)
Definition Type_ (text : string) (op : TeaOperator) : option TeaOperator :=
  if teatestModel op || String.eqb text "" then Some (recordInteraction "type" text op)
  else None.

Definition PressEnter (op : TeaOperator) : option TeaOperator :=
  if teatestModel op then Some (recordInteraction "press_key" "enter" op) else None.

Definition PressTab (op : TeaOperator) : option TeaOperator :=
  if teatestModel op then Some (recordInteraction "press_key" "tab" op) else None.

Definition WaitForText (text : string) (shows : bool) (op : TeaOperator)
    : option TeaOperator :=
  if teatestModel op && shows then Some (recordInteraction "wait_for_text" text op)
  else None.

Definition CaptureTrackingShot (label : string) (saved : option string)
    (op : TeaOperator) : option TeaOperator :=
  let currentView :=
    "TeaOperator Frame " +:+ Sprint_d (frameCount op) +:+ ": " +:+ label in
  match RenderText currentView (renderingStage op) with
  | None => None
  | Some rs =>
      let op1 :=
        {| teatestModel := teatestModel op; renderingStage := rs;
           frameCount := frameCount op; filmDir := filmDir op; config := config op;
           interactions := interactions op |} in
      match saved with
      | Some err => Some op1
      | None =>
          Some (recordInteraction "tracking_shot" label
                  {| teatestModel := teatestModel op; renderingStage := rs;
                     frameCount := Int64.wrap (frameCount op + 1);
                     filmDir := filmDir op; config := config op;
                     interactions := interactions op |})
      end
  end.

(** ["%v"] of the details of an interaction. *)
Definition details_text (a : StageAction) : string :=
  match action_Details a with
  | VString s => s
  | _ => ""
  end.

(** [Stop]: the result and the operator afterwards. *)
Definition Stop (op : TeaOperator) : StageResult * TeaOperator :=
  let snapshots :=
    map (fun interaction =>
           {| snap_View := "Frame captured: " +:+ details_text interaction;
              snap_Mode := "teatest_mode"; snap_Input := "" |})
      (List.filter (fun interaction => String.eqb (action_Type interaction) "tracking_shot")
         (interactions op)) in
  let op1 := recordInteraction "stop" "teatest_operator_completed" op in
  ({| Actions := interactions op1; Snapshots := snapshots; Success := true;
      ErrorMessage := ""; Error_ := None |}, op1).

(** The calls of a test on a [TeaOperator]. *)
Inductive call : Type :=
| CallWithTimeout (timeout : Z)
| CallStart
| CallType (text : string)
| CallPressEnter
| CallPressTab
| CallWaitForText (text : string) (shows : bool)
| CallCaptureTrackingShot (label : string) (saved : option string).

Definition run_call (c : call) (op : TeaOperator) : option TeaOperator :=
  match c with
  | CallWithTimeout timeout => Some (WithTimeout timeout op)
  | CallStart => Some (Start op)
  | CallType text => Type_ text op
  | CallPressEnter => PressEnter op
  | CallPressTab => PressTab op
  | CallWaitForText text shows => WaitForText text shows op
  | CallCaptureTrackingShot label saved => CaptureTrackingShot label saved op
  end.

Fixpoint run_calls (calls : list call) (op : TeaOperator) : option TeaOperator :=
  match calls with
  | [] => Some op
  | c :: rest =>
      match run_call c op with
      | Some op' => run_calls rest op'
      | None => None
      end
  end.

(** The labels of the tracking shots of [calls] whose frame was written. *)
Definition frames_written (calls : list call) : list string :=
  flat_map (fun c => match c with
                     | CallCaptureTrackingShot label None => [label]
                     | _ => []
                     end) calls.

(** Whether the text a [WaitForText] call waits for shows in time (any
    other call has nothing to wait for). *)
Definition awaited_text_shows (c : call) : bool :=
  match c with
  | CallWaitForText _ shows => shows
  | _ => true
  end.

End operators.

(** * Properties *)

Ltac int64_solve :=
  unfold Int64.in_range, Int64.below_max, Int64.min_int64, Int64.max_int64 in *;
  simpl; lia.

(** ** 64-bit arithmetic *)

Lemma Int64_wrap_in_range (z : Z) : Int64.in_range (Int64.wrap z).
Proof.
  unfold Int64.in_range, Int64.wrap, Int64.min_int64, Int64.max_int64.
  pose proof (Z.mod_pos_bound (z + 2 ^ 63) (2 ^ 64) ltac:(lia)). lia.
Qed.

Lemma Int64_wrap_id (z : Z) : Int64.in_range z -> Int64.wrap z = z.
Proof.
  unfold Int64.in_range, Int64.wrap, Int64.min_int64, Int64.max_int64. intros Hz.
  rewrite Z.mod_small by lia. lia.
Qed.

Lemma Int64_AddInt64_succ (z : Z) : Int64.below_max z -> Int64.AddInt64 z 1 = z + 1.
Proof.
  unfold Int64.below_max, Int64.AddInt64. intros Hz. apply Int64_wrap_id.
  unfold Int64.in_range. lia.
Qed.

Lemma Int64_below_max_in_range (z : Z) : Int64.below_max z -> Int64.in_range z.
Proof. unfold Int64.below_max, Int64.in_range. lia. Qed.

(** ** The background consumer *)

Section ConsumerProperties.

Context {M : Type}.

Implicit Types (d : StageDirector M) (u : modelUpdate M).

Lemma body_duplicate u d :
  mu_sequence u <= lastProcessedSeq d ->
  syncModelUpdates_body u d
  = set_duplicateUpdates (Int64.AddInt64 (duplicateUpdates d) 1) d.
Proof.
  intros Hle. unfold syncModelUpdates_body.
  destruct (Z.leb_spec (mu_sequence u) (lastProcessedSeq d)); [reflexivity | lia].
Qed.

Lemma body_fresh u d :
  lastProcessedSeq d < mu_sequence u ->
  latestModel (syncModelUpdates_body u d) = Some (mu_model u)
  /\ lastProcessedSeq (syncModelUpdates_body u d) = mu_sequence u
  /\ updatesProcessed (syncModelUpdates_body u d)
     = Int64.AddInt64 (updatesProcessed d) 1
  /\ duplicateUpdates (syncModelUpdates_body u d) = duplicateUpdates d
  /\ sequenceGaps (syncModelUpdates_body u d)
     = (if mu_sequence u >? Int64.wrap (lastProcessedSeq d + 1)
        then Int64.AddInt64 (sequenceGaps d) 1 else sequenceGaps d).
Proof.
  intros Hlt. unfold syncModelUpdates_body.
  destruct (Z.leb_spec (mu_sequence u) (lastProcessedSeq d)); [lia |].
  destruct (mu_sequence u >? Int64.wrap (lastProcessedSeq d + 1)); cbn; auto.
Qed.

Lemma body_seq_max u d :
  lastProcessedSeq (syncModelUpdates_body u d)
  = Z.max (lastProcessedSeq d) (mu_sequence u).
Proof.
  destruct (Z_le_gt_dec (mu_sequence u) (lastProcessedSeq d)) as [Hle | Hgt].
  - rewrite body_duplicate by assumption. cbn. lia.
  - destruct (body_fresh u d ltac:(lia)) as (_ & -> & _). lia.
Qed.

Lemma body_seq_mono u d :
  lastProcessedSeq d <= lastProcessedSeq (syncModelUpdates_body u d).
Proof. rewrite body_seq_max. lia. Qed.

Lemma sync_snoc (us : list (modelUpdate M)) u d :
  syncModelUpdates (us ++ [u]) d = syncModelUpdates_body u (syncModelUpdates us d).
Proof. unfold syncModelUpdates. rewrite fold_left_app. reflexivity. Qed.

Lemma sync_app (us1 us2 : list (modelUpdate M)) d :
  syncModelUpdates (us1 ++ us2) d = syncModelUpdates us2 (syncModelUpdates us1 d).
Proof. unfold syncModelUpdates. apply fold_left_app. Qed.

Lemma sync_seq_mono (us : list (modelUpdate M)) d :
  lastProcessedSeq d <= lastProcessedSeq (syncModelUpdates us d).
Proof.
  revert d. induction us as [| u us IH]; intros d; cbn; [lia |].
  etransitivity; [apply (body_seq_mono u) | apply IH].
Qed.

(** The state cell after a run of the consumer, in terms of the updates it
    received: every received sequence number is at most
    [lastProcessedSeq], and either nothing was applied (all were at most the
    starting [lastProcessedSeq]) or [latest] is the state of a received
    update that carries the highest sequence number. *)
Lemma sync_latest (us : list (modelUpdate M)) d :
  let d' := syncModelUpdates us d in
  (forall u, In u us -> mu_sequence u <= lastProcessedSeq d')
  /\ ((lastProcessedSeq d' = lastProcessedSeq d /\ latestModel d' = latestModel d)
      \/ (exists u, In u us /\ lastProcessedSeq d < mu_sequence u
                    /\ lastProcessedSeq d' = mu_sequence u
                    /\ latestModel d' = Some (mu_model u))).
Proof.
  induction us as [| u us IH] using rev_ind; cbn zeta.
  - split; [intros u [] | left; split; reflexivity].
  - rewrite sync_snoc. cbn zeta in IH. destruct IH as [IHle IHlatest].
    set (d1 := syncModelUpdates us d) in *.
    pose proof (body_seq_mono u d1) as Hmono.
    pose proof (sync_seq_mono us d) as Hmono0. fold d1 in Hmono0.
    split.
    + intros u' [Hin | [-> | []]]%in_app_or.
      * specialize (IHle u' Hin). lia.
      * rewrite body_seq_max. lia.
    + destruct (Z_le_gt_dec (mu_sequence u) (lastProcessedSeq d1)) as [Hle | Hgt].
      * rewrite body_duplicate by assumption. cbn.
        destruct IHlatest as [[Hs Hl] | (u0 & Hin & Hlt & Hs & Hl)].
        -- left. split; assumption.
        -- right. exists u0. rewrite in_app_iff. tauto.
      * destruct (body_fresh u d1 ltac:(lia)) as (Hl & Hs & _).
        right. exists u. rewrite in_app_iff. cbn. repeat split; auto; lia.
Qed.

End ConsumerProperties.

(** C1. For an update with sequence number [s] received by the consumer:
    if [s <= lastProcessedSeq] the only effect is [duplicateUpdates + 1]
    (so [latestModel] and [lastProcessedSeq] stay); if
    [s > lastProcessedSeq + 1] then [sequenceGaps + 1] and the update is
    applied; otherwise it is applied and neither diagnostic counter moves.
    Applying sets [latestModel] to the update's model and
    [lastProcessedSeq] to [s], and adds one to [updatesProcessed].  In
    particular, from a state that has not yet reached sequence 5,
    receiving sequence 5 and then sequence 3 leaves [latestModel] at the
    model of sequence 5 and adds exactly one to [duplicateUpdates].
    (The values are [int64]s, the counters being below the largest one.) *)
Theorem C1_consumer_step {M : Type} (d : StageDirector M) (u : modelUpdate M) :
  Int64.in_range (lastProcessedSeq d) ->
  Int64.in_range (mu_sequence u) ->
  Int64.below_max (duplicateUpdates d) ->
  Int64.below_max (sequenceGaps d) ->
  Int64.below_max (updatesProcessed d) ->
  let d' := syncModelUpdates_body u d in
  (mu_sequence u <= lastProcessedSeq d ->
     d' = set_duplicateUpdates (duplicateUpdates d + 1) d
     /\ duplicateUpdates d' = duplicateUpdates d + 1
     /\ latestModel d' = latestModel d
     /\ lastProcessedSeq d' = lastProcessedSeq d
     /\ sequenceGaps d' = sequenceGaps d
     /\ updatesProcessed d' = updatesProcessed d)
  /\ (mu_sequence u > lastProcessedSeq d + 1 ->
        sequenceGaps d' = sequenceGaps d + 1
        /\ duplicateUpdates d' = duplicateUpdates d
        /\ applied u d d')
  /\ (mu_sequence u = lastProcessedSeq d + 1 ->
        sequenceGaps d' = sequenceGaps d
        /\ duplicateUpdates d' = duplicateUpdates d
        /\ applied u d d')
  /\ (forall m5 m3 : M,
        lastProcessedSeq d < 5 ->
        let d2 :=
          syncModelUpdates
            [ {| mu_model := m5; mu_sequence := 5 |};
              {| mu_model := m3; mu_sequence := 3 |} ] d in
        latestModel d2 = Some m5
        /\ lastProcessedSeq d2 = 5
        /\ duplicateUpdates d2 = duplicateUpdates d + 1).
Proof.
  intros Hseq Hu Hdup Hgap Hproc d'. subst d'.
  split; [| split; [| split]].
  - intros Hle. rewrite body_duplicate by assumption.
    rewrite Int64_AddInt64_succ by assumption. cbn. auto 10.
  - intros Hgt. destruct (body_fresh u d ltac:(lia)) as (Hl & Hs & Hp & Hd & Hg).
    rewrite Int64_wrap_id in Hg by int64_solve.
    destruct (Z.gtb_spec (mu_sequence u) (lastProcessedSeq d + 1)); [| lia].
    rewrite Int64_AddInt64_succ in Hg, Hp by assumption.
    unfold applied. auto 10.
  - intros Heq. destruct (body_fresh u d ltac:(lia)) as (Hl & Hs & Hp & Hd & Hg).
    rewrite Int64_wrap_id in Hg by int64_solve.
    destruct (Z.gtb_spec (mu_sequence u) (lastProcessedSeq d + 1)); [lia |].
    rewrite Int64_AddInt64_succ in Hp by assumption.
    unfold applied. auto 10.
  - intros m5 m3 Hlt d2. subst d2. unfold syncModelUpdates. cbn [fold_left].
    set (u5 := {| mu_model := m5; mu_sequence := 5 |}).
    set (u3 := {| mu_model := m3; mu_sequence := 3 |}).
    destruct (body_fresh u5 d ltac:(cbn; lia)) as (Hl & Hs & Hp & Hd & Hg).
    rewrite (body_duplicate u3) by (rewrite Hs; cbn; lia).
    cbn. rewrite Hd, Int64_AddInt64_succ by assumption. auto.
Qed.

Lemma C1_consumer_step_witness :
  let d := NewStageDirector (Some newT) (Some NewMockREPL) in
  let m5 := {| input := "five"; mode := "typing"; output := ""; conditions := ∅ |} in
  let m3 := {| input := "three"; mode := "typing"; output := ""; conditions := ∅ |} in
  let d2 :=
    syncModelUpdates
      [ {| mu_model := m5; mu_sequence := 5 |}; {| mu_model := m3; mu_sequence := 3 |} ] d in
  latestModel d2 = Some m5 /\ lastProcessedSeq d2 = 5 /\ duplicateUpdates d2 = 0 + 1.
Proof.
  intros d m5 m3 d2.
  refine (proj2 (proj2 (proj2
    (C1_consumer_step d {| mu_model := m5; mu_sequence := 5 |} _ _ _ _ _))) m5 m3 _);
    cbn; int64_solve.
Defined.

(** C3. Over the steps of the consumer [lastProcessedSeq] never decreases;
    after any run every sequence number received so far is at most
    [lastProcessedSeq], and the cell either is as it was before the run
    (nothing applied) or holds the state of a received update that carries
    the highest sequence number, which is [lastProcessedSeq].  A later read
    therefore sees a state whose sequence number is at least that of an
    earlier read, and the same state when the number is the same. *)
Theorem C3_state_cell_invariant {M : Type} (d : StageDirector M)
    (us1 us2 : list (modelUpdate M)) :
  let d1 := syncModelUpdates us1 d in
  let d2 := syncModelUpdates (us1 ++ us2) d in
  (forall (u : modelUpdate M) (d0 : StageDirector M),
      lastProcessedSeq d0 <= lastProcessedSeq (syncModelUpdates_body u d0))
  /\ lastProcessedSeq d <= lastProcessedSeq d1
  /\ lastProcessedSeq d1 <= lastProcessedSeq d2
  /\ (forall u, In u us1 -> mu_sequence u <= lastProcessedSeq d1)
  /\ ((lastProcessedSeq d1 = lastProcessedSeq d /\ latestModel d1 = latestModel d)
      \/ (exists u, In u us1
                    /\ (forall u', In u' us1 -> mu_sequence u' <= mu_sequence u)
                    /\ lastProcessedSeq d < mu_sequence u
                    /\ lastProcessedSeq d1 = mu_sequence u
                    /\ latestModel d1 = Some (mu_model u)))
  /\ (lastProcessedSeq d2 = lastProcessedSeq d1 -> latestModel d2 = latestModel d1).
Proof.
  intros d1 d2. subst d1 d2. rewrite sync_app.
  set (d1 := syncModelUpdates us1 d).
  destruct (sync_latest us1 d) as [Hle Hlatest]. fold d1 in Hle, Hlatest.
  repeat split.
  - intros u d0. apply body_seq_mono.
  - apply sync_seq_mono.
  - apply sync_seq_mono.
  - exact Hle.
  - destruct Hlatest as [Hsame | (u & Hin & Hlt & Hs & Hl)]; [left; exact Hsame |].
    right. exists u. repeat split; auto.
    intros u' Hin'. rewrite <- Hs. apply Hle, Hin'.
  - intros Heq.
    destruct (sync_latest us2 d1) as [_ [[_ Hl] | (u & _ & Hlt & Hs & _)]];
      [exact Hl | lia].
Qed.

Lemma C3_state_cell_invariant_witness :
  let d := NewStageDirector (Some newT) (Some NewMockREPL) in
  let m1 := {| input := "a"; mode := "typing"; output := ""; conditions := ∅ |} in
  let m2 := {| input := "ab"; mode := "typing"; output := ""; conditions := ∅ |} in
  let us1 := [ {| mu_model := m2; mu_sequence := 2 |}; {| mu_model := m1; mu_sequence := 1 |} ] in
  let us2 := [ {| mu_model := m1; mu_sequence := 1 |} ] in
  lastProcessedSeq (syncModelUpdates (us1 ++ us2) d) = lastProcessedSeq (syncModelUpdates us1 d)
  /\ latestModel (syncModelUpdates (us1 ++ us2) d) = latestModel (syncModelUpdates us1 d).
Proof.
  intros d m1 m2 us1 us2.
  assert (Heq : lastProcessedSeq (syncModelUpdates (us1 ++ us2) d)
                = lastProcessedSeq (syncModelUpdates us1 d)) by reflexivity.
  split; [exact Heq |].
  exact (proj2 (proj2 (proj2 (proj2 (proj2
    (C3_state_cell_invariant d us1 us2))))) Heq).
Defined.

(** ** The update wrapper *)

Section WrapperProperties.

Context {M : Type} `{!REPLModel M} `{!Fmt M}.

Implicit Types (d : StageDirector M).

Lemma publish_full (m : M) d ch :
  modelChan d = Some ch ->
  (chan_cap ch <= length (chan_buf ch))%nat ->
  publish m d
  = set_droppedUpdates (Int64.AddInt64 (droppedUpdates d) 1)
      (set_bufferOverflows (Int64.AddInt64 (bufferOverflows d) 1)
         (set_updateSeq (Int64.AddInt64 (updateSeq d) 1) d)).
Proof.
  intros Hch Hfull. unfold publish. rewrite Hch.
  destruct (Nat.ltb_spec (length (chan_buf ch)) (chan_cap ch)); [lia | reflexivity].
Qed.

Lemma publish_room (m : M) d ch :
  modelChan d = Some ch ->
  (length (chan_buf ch) < chan_cap ch)%nat ->
  publish m d
  = set_updatesSent (Int64.AddInt64 (updatesSent d) 1)
      (set_modelChan
         (Some {| chan_buf :=
                    chan_buf ch ++
                      [{| mu_model := m;
                          mu_sequence := Int64.AddInt64 (updateSeq d) 1 |}];
                  chan_cap := chan_cap ch |})
         (set_updateSeq (Int64.AddInt64 (updateSeq d) 1) d)).
Proof.
  intros Hch Hroom. unfold publish. rewrite Hch.
  destruct (Nat.ltb_spec (length (chan_buf ch)) (chan_cap ch)); [reflexivity | lia].
Qed.

End WrapperProperties.

(** C2. The interception never blocks: [stageModelWrapper.Update] is a
    total function of the director, and for an update that the model
    returns as a [REPLModel] (director and channel set) the shared counter
    [updateSeq] is incremented exactly once and its new value stamps the
    update; with a full queue the update is dropped, [bufferOverflows] and
    [droppedUpdates] each grow by one and [updatesSent] and the queue stay;
    with room the stamped update is appended to the queue and [updatesSent]
    grows by one, the two other counters staying.  (The counters are
    [int64]s below the largest one.) *)
Theorem C2_publish_nonblocking {M : Type} `{!REPLModel M} `{!Fmt M}
    (w : stageModelWrapper M) (msg : Msg) (d : StageDirector M)
    (ch : chan (modelUpdate M)) (replModel : M) :
  w_director w = true ->
  modelChan d = Some ch ->
  Update (w_REPLModel w) msg = Returns (REPL replModel) ->
  Int64.below_max (updateSeq d) ->
  Int64.below_max (updatesSent d) ->
  Int64.below_max (bufferOverflows d) ->
  Int64.below_max (droppedUpdates d) ->
  let d' := snd (stageModelWrapper_Update w msg d) in
  let update := {| mu_model := replModel; mu_sequence := updateSeq d + 1 |} in
  fst (stageModelWrapper_Update w msg d)
  = Some {| w_REPLModel := replModel; w_director := true |}
  /\ updateSeq d' = updateSeq d + 1
  /\ ((chan_cap ch <= length (chan_buf ch))%nat ->
        modelChan d' = Some ch
        /\ bufferOverflows d' = bufferOverflows d + 1
        /\ droppedUpdates d' = droppedUpdates d + 1
        /\ updatesSent d' = updatesSent d)
  /\ ((length (chan_buf ch) < chan_cap ch)%nat ->
        modelChan d' = Some {| chan_buf := chan_buf ch ++ [update];
                               chan_cap := chan_cap ch |}
        /\ updatesSent d' = updatesSent d + 1
        /\ bufferOverflows d' = bufferOverflows d
        /\ droppedUpdates d' = droppedUpdates d).
Proof.
  intros Hdir Hch Hupd Hseq Hsent Hover Hdrop d' update. subst d' update.
  unfold stageModelWrapper_Update. rewrite Hupd, Hdir. cbn [fst snd].
  split; [reflexivity |].
  split; [| split].
  - destruct (Nat.le_gt_cases (chan_cap ch) (length (chan_buf ch))) as [Hfull | Hroom].
    + rewrite (publish_full _ _ ch) by assumption. cbn.
      apply Int64_AddInt64_succ, Hseq.
    + rewrite (publish_room _ _ ch) by assumption. cbn.
      apply Int64_AddInt64_succ, Hseq.
  - intros Hfull. rewrite (publish_full _ _ ch) by assumption. cbn.
    rewrite !Int64_AddInt64_succ by assumption. auto.
  - intros Hroom. rewrite (publish_room _ _ ch) by assumption. cbn.
    rewrite !Int64_AddInt64_succ by assumption. auto.
Qed.

Lemma C2_publish_nonblocking_witness :
  let d := NewStageDirector (Some newT) (Some NewMockREPL) in
  let w := {| w_REPLModel := NewMockREPL; w_director := true |} in
  let d' := snd (stageModelWrapper_Update w (KeyMsg KeyRunes ["a"%char]) d) in
  updateSeq d' = 0 + 1 /\ updatesSent d' = 0 + 1 /\ bufferOverflows d' = 0.
Proof.
  intros d w d'.
  pose proof (C2_publish_nonblocking w (KeyMsg KeyRunes ["a"%char]) d
                {| chan_buf := []; chan_cap := 50 |}
                {| input := "a"; mode := "typing"; output := ""; conditions := ∅ |}
                eq_refl eq_refl eq_refl
                ltac:(cbn; int64_solve) ltac:(cbn; int64_solve)
                ltac:(cbn; int64_solve) ltac:(cbn; int64_solve)) as (_ & Hseq & _ & Hroom).
  destruct (Hroom ltac:(cbn; lia)) as (_ & Hsent & Hover & _).
  exact (conj Hseq (conj Hsent Hover)).
Defined.

(** ** Trips over a session *)

Section SessionProperties.

Context {M : Type} `{!REPLModel M} `{!Fmt M}.

Implicit Types (d : StageDirector M) (tr : trip.Trip).

Lemma ext_refl d : ext d d.
Proof. exists []. reflexivity. Qed.

Lemma ext_trans d1 d2 d3 : ext d1 d2 -> ext d2 d3 -> ext d1 d3.
Proof.
  intros [l1 H1] [l2 H2]. exists (l1 ++ l2)%list.
  rewrite fold_left_app, <- H1. exact H2.
Qed.

Lemma ext_same d0 d d' : tstate d' = tstate d -> ext d0 d -> ext d0 d'.
Proof. intros Heq [l Hl]. exists l. rewrite Heq. exact Hl. Qed.

Lemma tstate_recordTrip tr d : tstate (recordTrip tr d) = record_ts (tstate d) tr.
Proof.
  unfold recordTrip, record_ts, tstate.
  destruct (trip.CanRecover tr); cbn; destruct (t d) as [tst |]; cbn;
    destruct (trip.IsFall tr); reflexivity.
Qed.

Lemma ext_recordTrip d0 tr d : ext d0 d -> ext d0 (recordTrip tr d).
Proof.
  intros Hd. apply (ext_trans _ d); [exact Hd |].
  exists [tr]. apply tstate_recordTrip.
Qed.

(** A step that leaves the trip state alone. *)
Ltac ext_frame :=
  match goal with
  | |- ext ?d0 (_ _ ?d) => apply (ext_same d0 d); [reflexivity |]
  | |- ext ?d0 (_ _ _ ?d) => apply (ext_same d0 d); [reflexivity |]
  end.

Lemma ext_recordStageAction d0 a v d :
  ext d0 d -> ext d0 (recordStageAction a v d).
Proof. intros Hd. ext_frame. exact Hd. Qed.

Lemma ext_captureSnapshot d0 d : ext d0 d -> ext d0 (captureSnapshot d).
Proof.
  intros Hd. unfold captureSnapshot.
  destruct (negb (CaptureViews (config d))); [exact Hd |].
  ext_frame. exact Hd.
Qed.

Lemma ext_captureErrorSnapshot d0 a b d :
  ext d0 d -> ext d0 (captureErrorSnapshot a b d).
Proof. intros Hd. ext_frame. exact Hd. Qed.

Lemma ext_cancel_ctx d0 d :
  ext d0 d -> ext d0 (if cancel d then set_ctxDone true d else d).
Proof. intros Hd. destruct (cancel d); [ext_frame |]; exact Hd. Qed.

Lemma ext_handleModelPanic d0 r msg d :
  ext d0 d -> ext d0 (handleModelPanic r msg d).
Proof.
  intros Hd. unfold handleModelPanic. cbv zeta.
  apply ext_cancel_ctx, ext_recordTrip, ext_captureErrorSnapshot, Hd.
Qed.

Lemma ext_handleInvalidModelState d0 reason msg d :
  ext d0 d -> ext d0 (handleInvalidModelState reason msg d).
Proof.
  intros Hd. unfold handleInvalidModelState. cbv zeta.
  apply ext_cancel_ctx, ext_recordTrip, ext_captureErrorSnapshot, Hd.
Qed.

Lemma tstate_publish (m : M) d : tstate (publish m d) = tstate d.
Proof.
  unfold publish. destruct (modelChan d) as [ch |]; [| reflexivity].
  destruct (length (chan_buf ch) <? chan_cap ch)%nat; reflexivity.
Qed.

Lemma tstate_syncModelUpdates_body (u : modelUpdate M) d :
  tstate (syncModelUpdates_body u d) = tstate d.
Proof.
  unfold syncModelUpdates_body.
  destruct (mu_sequence u <=? lastProcessedSeq d); [reflexivity |].
  destruct (mu_sequence u >? Int64.wrap (lastProcessedSeq d + 1)); reflexivity.
Qed.

Lemma ext_stageModelWrapper_Update d0 w msg d :
  ext d0 d -> ext d0 (snd (stageModelWrapper_Update w msg d)).
Proof.
  intros Hd. unfold stageModelWrapper_Update.
  destruct (Update (w_REPLModel w) msg) as [r | [| | m]], (w_director w);
    cbn [snd]; try exact Hd.
  - apply ext_handleModelPanic, Hd.
  - apply ext_handleInvalidModelState, Hd.
  - apply ext_handleInvalidModelState, Hd.
  - apply (ext_same d0 d); [apply tstate_publish | exact Hd].
Qed.

Lemma ext_program_step d0 d : ext d0 d -> ext d0 (program_step d).
Proof.
  intros Hd. unfold program_step.
  destruct (program d) as [p |]; [| exact Hd].
  destruct (p_quit p); [exact Hd |].
  destruct (p_model p) as [w |]; [| exact Hd].
  destruct (p_inbox p) as [| msg rest]; [exact Hd |].
  destruct (bool_decide (msg = QuitMsg)); [ext_frame; exact Hd |].
  pose proof (ext_stageModelWrapper_Update d0 w msg d Hd) as Hw.
  destruct (stageModelWrapper_Update w msg d) as [w' d1]. cbn [snd] in Hw.
  ext_frame. exact Hw.
Qed.

Lemma ext_consumer_step d0 d : ext d0 d -> ext d0 (consumer_step d).
Proof.
  intros Hd. unfold consumer_step.
  destruct (modelChan d) as [ch |]; [| exact Hd].
  destruct (chan_buf ch) as [| u rest]; [exact Hd |].
  eapply ext_same; [apply tstate_syncModelUpdates_body |].
  ext_frame. exact Hd.
Qed.

Lemma ext_run_bg d0 steps d : ext d0 d -> ext d0 (run_bg steps d).
Proof.
  revert d. induction steps as [| s steps IH]; intros d Hd; [exact Hd |].
  cbn. apply IH. destruct s; cbn.
  - apply ext_program_step, Hd.
  - apply ext_consumer_step, Hd.
  - ext_frame. exact Hd.
Qed.

Lemma ext_pollUntil d0 pred sl tiebreak d :
  ext d0 d -> ext d0 (snd (pollUntil pred sl tiebreak d)).
Proof.
  revert d. induction sl as [| during rest IH]; intros d Hd; cbn.
  - destruct (ctxDone d); exact Hd.
  - destruct (ctxDone d); [exact Hd |]. destruct (pred d); [exact Hd |].
    apply IH, ext_run_bg, Hd.
Qed.

Lemma ext_WaitForMode d0 e sched d : ext d0 d -> ext d0 (WaitForMode e sched d).
Proof.
  intros Hd. unfold WaitForMode. destruct (failed d); [exact Hd |].
  pose proof (ext_pollUntil d0 (fun d => String.eqb (getCurrentMode d) e)
                (sleeps sched) (tie sched) d Hd) as Hp.
  destruct (pollUntil _ _ _ d) as [[| |] d1]; cbn [snd] in Hp; try exact Hp.
  apply ext_recordTrip, Hp.
Qed.

Lemma ext_WaitForSearchResults d0 sched d :
  ext d0 d -> ext d0 (WaitForSearchResults sched d).
Proof.
  intros Hd. unfold WaitForSearchResults. destruct (failed d); [exact Hd |].
  pose proof (ext_pollUntil d0
                (fun d => Contains (getCurrentView d) "Live Results:"
                          || Contains (getCurrentView d) "Found")
                (sleeps sched) (tie sched) d Hd) as Hp.
  destruct (pollUntil _ _ _ d) as [[| |] d1]; cbn [snd] in Hp; try exact Hp.
  apply ext_recordTrip, Hp.
Qed.

Lemma ext_WaitForText d0 text sched d :
  ext d0 d -> ext d0 (WaitForText text sched d).
Proof.
  intros Hd. unfold WaitForText. destruct (failed d); [exact Hd |].
  pose proof (ext_pollUntil d0 (fun d => Contains (getCurrentView d) text)
                (sleeps sched) (tie sched) d Hd) as Hp.
  destruct (pollUntil _ _ _ d) as [[| |] d1]; cbn [snd] in Hp; try exact Hp.
  apply ext_recordTrip, Hp.
Qed.

Lemma ext_waitForProgramReady_loop d0 i sl tiebreak d :
  ext d0 d -> ext d0 (snd (waitForProgramReady_loop i sl tiebreak d)).
Proof.
  revert sl d. induction i as [| i IH]; intros sl d Hd; cbn; [exact Hd |].
  destruct sl as [| during rest].
  - destruct (ctxDone d); exact Hd.
  - destruct (ctxDone d); [exact Hd |].
    destruct (0 <? len (getCurrentView d)); [exact Hd |].
    apply IH, ext_run_bg, Hd.
Qed.

Lemma ext_sendMessage d0 msg sched d : ext d0 d -> ext d0 (sendMessage msg sched d).
Proof.
  intros Hd. unfold sendMessage. destruct (program d) as [p |]; [| exact Hd].
  cbv zeta. apply ext_captureSnapshot. unfold waitForViewChange.
  apply ext_pollUntil. ext_frame. exact Hd.
Qed.

Lemma ext_Type d0 text scheds d : ext d0 d -> ext d0 (Type_ text scheds d).
Proof.
  unfold Type_. generalize (runes text) as chars. intros chars.
  revert scheds d. induction chars as [| c chars IH]; intros scheds d Hd; [exact Hd |].
  cbn. apply IH.
  match goal with |- ext _ (if ?c then _ else _) => destruct c end.
  - apply ext_run_bg, ext_recordStageAction, ext_sendMessage, Hd.
  - apply ext_recordStageAction, ext_sendMessage, Hd.
Qed.

Lemma ext_Wait d0 duration during d : ext d0 d -> ext d0 (Wait duration during d).
Proof.
  intros Hd. unfold Wait.
  apply ext_captureSnapshot, ext_recordStageAction, ext_run_bg, Hd.
Qed.

Lemma ext_PressBackspace d0 sched d : ext d0 d -> ext d0 (PressBackspace sched d).
Proof. intros Hd. apply ext_recordStageAction, ext_sendMessage, Hd. Qed.

Lemma ext_ClearInput_loop d0 n scheds d :
  ext d0 d -> ext d0 (ClearInput_loop n scheds d).
Proof.
  revert scheds d. induction n as [| n IH]; intros scheds d Hd; [exact Hd |].
  cbn. apply IH.
  match goal with |- ext _ (if ?c then _ else _) => destruct c end.
  - apply ext_Wait, ext_PressBackspace, Hd.
  - apply ext_PressBackspace, Hd.
Qed.

Lemma ext_AssertViewContains d0 text d :
  ext d0 d -> ext d0 (AssertViewContains text d).
Proof.
  intros Hd. unfold AssertViewContains. cbv zeta.
  destruct (negb (Contains (getCurrentView d) text));
    [apply ext_recordTrip | apply ext_recordStageAction]; exact Hd.
Qed.

Lemma ext_AssertMode d0 e d : ext d0 d -> ext d0 (AssertMode e d).
Proof.
  intros Hd. unfold AssertMode. cbv zeta.
  destruct (negb (String.eqb (getCurrentMode d) e));
    [apply ext_recordTrip | apply ext_recordStageAction]; exact Hd.
Qed.

Lemma ext_AssertInputEquals d0 e d : ext d0 d -> ext d0 (AssertInputEquals e d).
Proof.
  intros Hd. unfold AssertInputEquals. cbv zeta.
  destruct (negb (String.eqb (getCurrentInput d) e));
    [apply ext_recordTrip | apply ext_recordStageAction]; exact Hd.
Qed.

Lemma ext_AssertNoSearchResults d0 d d' :
  ext d0 d -> AssertNoSearchResults d = Some d' -> ext d0 d'.
Proof.
  intros Hd. unfold AssertNoSearchResults.
  destruct (latestModel d) as [m |]; [| discriminate].
  destruct (CheckCondition m "search_results"); intros [= <-];
    [apply ext_recordTrip | apply ext_recordStageAction]; exact Hd.
Qed.

Lemma ext_Start d0 sched d : ext d0 d -> ext d0 (Start sched d).
Proof.
  intros Hd. unfold Start. destruct (started d); [exact Hd |]. cbv zeta.
  unfold waitForProgramReady.
  match goal with
  | |- context [waitForProgramReady_loop ?i ?sl ?tb ?d1] =>
      assert (Hw : ext d0 (snd (waitForProgramReady_loop i sl tb d1)))
        by (apply ext_waitForProgramReady_loop; ext_frame; exact Hd);
      destruct (waitForProgramReady_loop i sl tb d1) as [[err |] d2]
  end; cbn [snd] in Hw.
  - apply ext_recordTrip, Hw.
  - destruct (CaptureViews (config (set_started true d2))).
    + ext_frame. ext_frame. exact Hw.
    + ext_frame. exact Hw.
Qed.

Lemma tstate_Stop d : tstate (snd (Stop d)) = tstate d.
Proof.
  unfold Stop. cbv zeta. cbn [snd].
  destruct (CaptureViews (config d) && started d); cbn;
    destruct (cancel d); cbn;
    destruct (program d); reflexivity.
Qed.

Lemma ext_run_op d0 o d d' : ext d0 d -> run_op o d = Some d' -> ext d0 d'.
Proof.
  intros Hd. destruct o; cbn [run_op];
    try (intros [= <-]).
  - unfold WithTimeout. destruct (started d); [exact Hd |].
    ext_frame. ext_frame. ext_frame. exact Hd.
  - unfold WithViewCapture. destruct (started d); [exact Hd |].
    ext_frame. exact Hd.
  - apply ext_Start, Hd.
  - eapply ext_same; [apply tstate_Stop | exact Hd].
  - apply ext_Type, Hd.
  - apply ext_recordStageAction, ext_sendMessage, Hd.
  - apply ext_recordStageAction, ext_sendMessage, Hd.
  - apply ext_recordStageAction, ext_sendMessage, Hd.
  - apply ext_recordStageAction, ext_sendMessage, Hd.
  - apply ext_recordStageAction, ext_sendMessage, Hd.
  - apply ext_recordStageAction, ext_sendMessage, Hd.
  - apply ext_ClearInput_loop, Hd.
  - apply ext_Wait, Hd.
  - apply ext_WaitForMode, Hd.
  - apply ext_WaitForSearchResults, Hd.
  - apply ext_WaitForText, Hd.
  - apply ext_AssertViewContains, Hd.
  - apply ext_AssertMode, Hd.
  - apply ext_AssertInputEquals, Hd.
  - intros Ha. eapply ext_AssertNoSearchResults; eassumption.
  - apply ext_recordTrip, Hd.
  - apply ext_recordTrip, Hd.
  - eapply ext_same; [| exact Hd]. reflexivity.
  - apply ext_run_bg, Hd.
Qed.

Lemma ext_run ops d d' : run ops d = Some d' -> ext d d'.
Proof.
  revert d. induction ops as [| o ops IH]; intros d; cbn.
  - intros [= <-]. apply ext_refl.
  - destruct (run_op o d) as [d1 |] eqn:Ho; [| discriminate].
    intros Hrun. apply (ext_trans _ d1); [| apply IH, Hrun].
    eapply ext_run_op; [apply ext_refl | exact Ho].
Qed.

(** What [recordTrip] does to the trip state. *)
Lemma recordTrip_lastTrip tr d : lastTrip (recordTrip tr d) = Some tr.
Proof.
  pose proof (tstate_recordTrip tr d) as H. unfold tstate, record_ts in H.
  congruence.
Qed.

Lemma recordTrip_unrecoverable tr d :
  trip.CanRecover tr = false ->
  failed (recordTrip tr d) = true
  /\ trip.trips (tripHandler (recordTrip tr d)) = trip.trips (tripHandler d) ++ [tr]
  /\ trip.stumbles (tripHandler (recordTrip tr d)) = trip.stumbles (tripHandler d).
Proof.
  intros Hrec. pose proof (tstate_recordTrip tr d) as H.
  unfold tstate, record_ts in H. rewrite Hrec in H. cbn in H.
  injection H as Hh _ Hf. rewrite Hh, Hf. unfold trip.Record_.
  unfold trip.CanRecover in Hrec. rewrite Hrec. auto.
Qed.

Lemma recordTrip_interactions tr d :
  interactions (recordTrip tr d) = interactions d.
Proof.
  unfold recordTrip. cbv zeta.
  destruct (trip.CanRecover tr); cbn; destruct (t d); cbn;
    destruct (trip.IsFall tr); reflexivity.
Qed.

(** The flag [failed] is never cleared. *)
Lemma failed_sticky d d' : ext d d' -> failed d = true -> failed d' = true.
Proof.
  intros [trs Htrs] Hf.
  assert (Hgen : forall s, snd s = true -> snd (fold_left record_ts trs s) = true).
  { clear. induction trs as [| tr trs IH]; intros s Hs; [exact Hs |].
    cbn. apply IH. cbn. destruct (negb (trip.CanRecover tr)); auto. }
  specialize (Hgen (tstate d) Hf). rewrite <- Htrs in Hgen. exact Hgen.
Qed.

Lemma tinv_record s tr : tinv s -> tinv (record_ts s tr).
Proof.
  destruct s as [[h l] f]. unfold tinv, record_ts, trip.Record_, trip.CanRecover.
  cbn [fst snd]. intros (Htr & Hst & Hf & Hl).
  destruct (bool_decide_reflect (trip.trip_Severity tr = trip.Stumble)) as [Hs | Hs];
    cbn [negb trip.trips trip.stumbles].
  - repeat split; auto.
    + intros tr' [Hin | [<- | []]]%in_app_or; auto.
    + apply Hf.
    + apply Hf.
    + discriminate.
    + discriminate.
    + intros [_ Hnil]. destruct (trip.stumbles h); discriminate.
  - repeat split; auto.
    + intros tr' [Hin | [<- | []]]%in_app_or; auto.
    + intros _ Hnil. destruct (trip.trips h); discriminate.
    + discriminate.
    + discriminate.
    + intros [Hnil _]. destruct (trip.trips h); discriminate.
Qed.

Lemma tinv_ext d d' : ext d d' -> tinv (tstate d) -> tinv (tstate d').
Proof.
  intros [trs Htrs]. rewrite Htrs. generalize (tstate d). clear.
  induction trs as [| tr trs IH]; intros s Hs; [exact Hs |].
  cbn. apply IH, tinv_record, Hs.
Qed.

Lemma tinv_new tst m cfg : tinv (tstate (NewStageDirectorWithConfig (M := M) tst m cfg)).
Proof.
  unfold tinv. cbn. repeat split; try tauto; try discriminate.
Qed.

Lemma Stop_Success d :
  Success (fst (Stop d)) = negb (failed d) && bool_decide (lastTrip d = None).
Proof.
  pose proof (tstate_Stop d) as H. unfold tstate in H.
  injection H as _ Hl Hf. unfold Stop in *. cbv zeta in *. cbn [fst snd Success] in *.
  rewrite Hl, Hf. reflexivity.
Qed.

(** Once failed, a wait gives the director back as it is. *)
Lemma wait_short_circuit (w : op) d :
  is_wait w = true -> failed d = true -> run_op w d = Some d.
Proof.
  intros Hw Hf. destruct w; try discriminate; cbn [run_op];
    unfold WaitForMode, WaitForSearchResults, WaitForText; rewrite Hf; reflexivity.
Qed.

End SessionProperties.

(** What [Stop] computes.  At the end of every session started from a
    fresh director, [Success] is false exactly when at least one trip, of
    whatever severity, went through [recordTrip] ([success := !d.failed &&
    d.lastTrip == nil]), while [failed] is set exactly when one of them was
    no stumble: the two agree on every session in which no stumble did, and
    every caller of [recordTrip] hands it an Error or a Fall. *)
Lemma Stop_success_iff_no_trip {M : Type} `{!REPLModel M} `{!Fmt M}
    (tst : option TestingT) (m : option M) (cfg : StageConfig)
    (ops : list op) (d : StageDirector M) :
  run ops (NewStageDirectorWithConfig tst m cfg) = Some d ->
  let recorded := (trip.trips (tripHandler d) ++ trip.stumbles (tripHandler d))%list in
  (Success (fst (Stop d)) = false <-> recorded <> [])
  /\ (failed d = true
      <-> exists tr, In tr recorded /\ trip.trip_Severity tr <> trip.Stumble)
  /\ ((forall tr, In tr recorded -> trip.trip_Severity tr = trip.Stumble) ->
      failed d = false /\ (recorded <> [] -> Success (fst (Stop d)) = false))
  /\ (trip.stumbles (tripHandler d) = [] ->
      (Success (fst (Stop d)) = false <-> failed d = true)).
Proof.
  intros Hrun recorded. subst recorded.
  pose proof (tinv_ext _ _ (ext_run _ _ _ Hrun) (tinv_new tst m cfg))
    as (Htr & Hst & Hf & Hl).
  unfold tstate in *. cbn [fst snd] in *.
  assert (Hsucc : Success (fst (Stop d)) = false
                  <-> (trip.trips (tripHandler d) ++ trip.stumbles (tripHandler d))%list <> []).
  { rewrite Stop_Success. split.
    - intros Hfalse Hnil. apply app_eq_nil in Hnil as [Ht Hs].
      assert (Hnone : lastTrip d = None) by (apply Hl; auto).
      assert (Hnf : failed d <> true) by (intros Hft; apply Hf in Hft; auto).
      rewrite Hnone in Hfalse. destruct (failed d); [congruence | discriminate].
    - intros Hne. destruct (failed d); [reflexivity |]. cbn.
      apply bool_decide_eq_false. intros Hnone. apply Hl in Hnone as [Ht Hs].
      apply Hne. rewrite Ht, Hs. reflexivity. }
  assert (Hfail : failed d = true
                  <-> exists tr, In tr (trip.trips (tripHandler d) ++ trip.stumbles (tripHandler d))%list
                                 /\ trip.trip_Severity tr <> trip.Stumble).
  { rewrite Hf. split.
    - intros Hne. destruct (trip.trips (tripHandler d)) as [| tr l] eqn:E; [congruence |].
      exists tr. split; [left; reflexivity |]. apply Htr. left. reflexivity.
    - intros (tr & [Hin | Hin]%in_app_or & Hsev) Hnil.
      + rewrite Hnil in Hin. destruct Hin.
      + apply Hsev, Hst, Hin. }
  split; [exact Hsucc |]. split; [exact Hfail |]. split.
  - intros Hall. split.
    + destruct (failed d) eqn:E; [| reflexivity].
      destruct (proj1 Hfail eq_refl) as (tr & Hin & Hsev).
      exfalso. apply Hsev, Hall, Hin.
    + apply Hsucc.
  - intros Hnone. rewrite Hsucc, Hf, Hnone, app_nil_r. reflexivity.
Qed.


(** C7. After a fall has been recorded, whatever the session does next,
    each of [WaitForMode], [WaitForText] and [WaitForSearchResults], under
    every schedule, returns the director exactly as it found it: no poll is
    made and no trip is recorded. *)
Theorem C7_fall_halts_waits {M : Type} `{!REPLModel M} `{!Fmt M}
    (d d' : StageDirector M) (tr : trip.Trip) (ops : list op) (w : op) :
  trip.trip_Severity tr = trip.Fall ->
  run ops (recordTrip tr d) = Some d' ->
  is_wait w = true ->
  failed d' = true /\ run_op w d' = Some d'.
Proof.
  intros Hfall Hrun Hw.
  assert (Hf : failed d' = true).
  { apply (failed_sticky (recordTrip tr d)); [apply ext_run with ops, Hrun |].
    apply recordTrip_unrecoverable. unfold trip.CanRecover. rewrite Hfall. reflexivity. }
  split; [exact Hf | apply wait_short_circuit; assumption].
Qed.

Lemma C7_fall_halts_waits_witness :
  let fall := trip.NewFall "visual" "Camera seizure during frame capture" ∅ in
  let d := NewStageDirector (Some newT) (Some NewMockREPL) in
  let d' := AssertMode "initial" (recordTrip fall d) in
  run_op (OpWaitForMode "anything" {| sleeps := [[]; []; []]; tie := TimerCase |}) d'
  = Some d'.
Proof.
  intros fall d d'.
  exact (proj2 (C7_fall_halts_waits d d' fall [OpAssertMode "initial"]
                  (OpWaitForMode "anything" {| sleeps := [[]; []; []]; tie := TimerCase |})
                  eq_refl eq_refl eq_refl)).
Defined.

(** C10. Recording a trip that cannot be recovered from (severity Error
    as well as Fall: a failed assertion is enough) sets [failed]; from then
    on, whatever the session does, each wait returns the director as it
    found it under every schedule, while each of the four assertions still
    runs: it logs its action when it holds and records its trip when it
    does not ([AssertNoSearchResults] asks the latest model, and panics as
    it does on any director when there is none). *)
Theorem C10_unrecoverable_trip_halts_waits {M : Type} `{!REPLModel M} `{!Fmt M}
    (d d' : StageDirector M) (tr : trip.Trip) (ops : list op) :
  trip.trip_Severity tr <> trip.Stumble ->
  run ops (recordTrip tr d) = Some d' ->
  trip.CanRecover tr = false
  /\ failed (recordTrip tr d) = true
  /\ failed d' = true
  /\ (forall w : op, is_wait w = true -> run_op w d' = Some d')
  /\ (forall text : string,
        if Contains (getCurrentView d') text
        then interactions (AssertViewContains text d')
             = interactions d' ++
                 [{| action_Type := "assertion";
                     action_Details := VString ("contains=" +:+ text);
                     action_Result := VNil |}]
        else exists atrip,
               lastTrip (AssertViewContains text d') = Some atrip
               /\ trip.trip_Type atrip = "assertion"
               /\ trip.trips (tripHandler (AssertViewContains text d'))
                  = trip.trips (tripHandler d') ++ [atrip])
  /\ (forall expectedMode : string,
        if String.eqb (getCurrentMode d') expectedMode
        then interactions (AssertMode expectedMode d')
             = interactions d' ++
                 [{| action_Type := "assertion";
                     action_Details := VString ("mode=" +:+ expectedMode);
                     action_Result := VNil |}]
        else exists atrip,
               lastTrip (AssertMode expectedMode d') = Some atrip
               /\ trip.trip_Type atrip = "assertion"
               /\ trip.trips (tripHandler (AssertMode expectedMode d'))
                  = trip.trips (tripHandler d') ++ [atrip])
  /\ (forall expected : string,
        if String.eqb (getCurrentInput d') expected
        then interactions (AssertInputEquals expected d')
             = interactions d' ++
                 [{| action_Type := "assertion";
                     action_Details := VString ("input=" +:+ expected);
                     action_Result := VNil |}]
        else exists atrip,
               lastTrip (AssertInputEquals expected d') = Some atrip
               /\ trip.trip_Type atrip = "assertion"
               /\ trip.trips (tripHandler (AssertInputEquals expected d'))
                  = trip.trips (tripHandler d') ++ [atrip])
  /\ match latestModel d' with
     | Some m =>
         exists d'',
           AssertNoSearchResults d' = Some d''
           /\ if CheckCondition m "search_results"
              then exists atrip,
                     lastTrip d'' = Some atrip
                     /\ trip.trip_Type atrip = "assertion"
                     /\ trip.trips (tripHandler d'')
                        = trip.trips (tripHandler d') ++ [atrip]
              else interactions d''
                   = interactions d' ++
                       [{| action_Type := "assertion";
                           action_Details := VString "no_search_results";
                           action_Result := VNil |}]
     | None => AssertNoSearchResults d' = None
     end.
Proof.
  intros Hsev Hrun.
  assert (Hrec : trip.CanRecover tr = false)
    by (apply bool_decide_eq_false; exact Hsev).
  assert (Hf0 : failed (recordTrip tr d) = true)
    by (apply recordTrip_unrecoverable, Hrec).
  assert (Hf : failed d' = true)
    by (apply (failed_sticky (recordTrip tr d)); [apply ext_run with ops, Hrun | exact Hf0]).
  repeat split; auto.
  - intros w Hw. apply wait_short_circuit; assumption.
  - intros text. unfold AssertViewContains. cbv zeta.
    destruct (Contains (getCurrentView d') text); cbn [negb]; [reflexivity |].
    eexists. split; [apply recordTrip_lastTrip |]. split; [reflexivity |].
    apply recordTrip_unrecoverable. reflexivity.
  - intros e. unfold AssertMode. cbv zeta.
    destruct (String.eqb (getCurrentMode d') e); cbn [negb]; [reflexivity |].
    eexists. split; [apply recordTrip_lastTrip |]. split; [reflexivity |].
    apply recordTrip_unrecoverable. reflexivity.
  - intros e. unfold AssertInputEquals. cbv zeta.
    destruct (String.eqb (getCurrentInput d') e); cbn [negb]; [reflexivity |].
    eexists. split; [apply recordTrip_lastTrip |]. split; [reflexivity |].
    apply recordTrip_unrecoverable. reflexivity.
  - unfold AssertNoSearchResults.
    destruct (latestModel d') as [m |]; [| reflexivity].
    destruct (CheckCondition m "search_results").
    + eexists. split; [reflexivity |].
      eexists. split; [apply recordTrip_lastTrip |]. split; [reflexivity |].
      apply recordTrip_unrecoverable. reflexivity.
    + eexists. split; reflexivity.
Qed.

Lemma C10_unrecoverable_trip_halts_waits_witness :
  let d := NewStageDirector (Some newT) (Some NewMockREPL) in
  let failedAssertion :=
    newStageTrip "assertion" "Expected mode result, got initial"
      (<["expected" := VString "result"]> (<["actual" := VString "initial"]> ∅)) in
  let d' := recordTrip failedAssertion d in
  AssertMode "result" d = d'
  /\ failed d' = true
  /\ run_op (OpWaitForText "never" {| sleeps := [[]; []]; tie := TimerCase |}) d' = Some d'.
Proof.
  intros d failedAssertion d'.
  destruct (C10_unrecoverable_trip_halts_waits d d' failedAssertion []
              ltac:(discriminate) eq_refl) as (_ & Hf & _ & Hwaits & _).
  split; [reflexivity |]. split; [exact Hf |].
  apply Hwaits. reflexivity.
Defined.

(** ** Fail-fast handling in the update wrapper *)

Section FailFastProperties.

Context {M : Type} `{!REPLModel M} `{!Fmt M}.

Implicit Types (d : StageDirector M).

Lemma captureErrorSnapshot_frame a b d :
  tstate (captureErrorSnapshot a b d) = tstate d
  /\ cancel (captureErrorSnapshot a b d) = cancel d
  /\ model (captureErrorSnapshot a b d) = model d.
Proof. repeat split. Qed.

Lemma recordTrip_frame tr d :
  snapshots (recordTrip tr d) = snapshots d /\ cancel (recordTrip tr d) = cancel d.
Proof.
  unfold recordTrip. cbv zeta.
  destruct (trip.CanRecover tr); cbn; destruct (t d); cbn;
    destruct (trip.IsFall tr); split; reflexivity.
Qed.

Lemma fail_fast errorType errorMessage tripType tripMessage ctx d :
  cancel d = true ->
  let d1 := captureErrorSnapshot errorType errorMessage d in
  let d2 := recordTrip (newStageTrip tripType tripMessage ctx) d1 in
  fail_fast_outcome errorType errorMessage tripType tripMessage d
    (if cancel d2 then set_ctxDone true d2 else d2).
Proof.
  intros Hc d1 d2.
  destruct (recordTrip_frame (newStageTrip tripType tripMessage ctx) d1) as [Hsn Hcn].
  destruct (recordTrip_unrecoverable (newStageTrip tripType tripMessage ctx) d1 eq_refl)
    as (Hf & Htr & Hst).
  pose proof (recordTrip_lastTrip (newStageTrip tripType tripMessage ctx) d1) as Hl.
  fold d2 in Hsn, Hcn, Hf, Htr, Hst, Hl.
  assert (Hc2 : cancel d2 = true) by (rewrite Hcn; exact Hc).
  rewrite Hc2. unfold fail_fast_outcome. cbn.
  rewrite Hsn, Hf, Hl, Htr, Hst. repeat split.
  eexists. repeat split.
Qed.

End FailFastProperties.

(** C5 (amended). When the driven program's [Update] panics, returns a
    nil model, or returns a model that is no [REPLModel], the wrapper (with
    its director set, a director whose [t] is not nil: the handlers trace
    through it) captures one error snapshot, records one trip of type
    MODEL_PANIC, respectively INVALID_MODEL_STATE, whose severity is Error
    (the default of [newStageTrip]; it is not a fall), which sets [failed],
    and cancels the session context. *)
Theorem C5_fail_fast_trip_has_error_severity {M : Type} `{!REPLModel M} `{!Fmt M}
    (w : stageModelWrapper M) (msg : Msg) (d : StageDirector M) :
  w_director w = true ->
  cancel d = true ->
  t d <> None ->
  let d' := snd (stageModelWrapper_Update w msg d) in
  (forall r, Update (w_REPLModel w) msg = Panics r ->
     fst (stageModelWrapper_Update w msg d) = None
     /\ fail_fast_outcome "model_panic" ("Panic: " +:+ Sprint_v r)
          "MODEL_PANIC" ("Model panic during Update: " +:+ Sprint_v r) d d')
  /\ (Update (w_REPLModel w) msg = Returns NilModel ->
        fst (stageModelWrapper_Update w msg d) = Some w
        /\ fail_fast_outcome "invalid_model_state" "Update returned nil model"
             "INVALID_MODEL_STATE" "Update returned nil model" d d')
  /\ (Update (w_REPLModel w) msg = Returns ForeignModel ->
        fst (stageModelWrapper_Update w msg d) = Some w
        /\ fail_fast_outcome "invalid_model_state" "Update returned non-REPLModel"
             "INVALID_MODEL_STATE" "Update returned non-REPLModel" d d').
Proof.
  intros Hdir Hcancel _ d'. subst d'. unfold stageModelWrapper_Update.
  split; [| split].
  - intros r ->. rewrite Hdir. cbn [fst snd].
    split; [reflexivity | apply fail_fast, Hcancel].
  - intros ->. rewrite Hdir. cbn [fst snd].
    split; [reflexivity | apply fail_fast, Hcancel].
  - intros ->. rewrite Hdir. cbn [fst snd].
    split; [reflexivity | apply fail_fast, Hcancel].
Qed.

Lemma C5_fail_fast_trip_has_error_severity_witness :
  let d := NewStageDirector (Some newT) (Some NewMockREPL) in
  let w := {| w_REPLModel := NewMockREPL; w_director := true |} in
  let d' := snd (stageModelWrapper_Update (REPLModel0 := FaultyREPL_REPLModel)
                   w (KeyMsg KeyEnter []) d) in
  fail_fast_outcome "model_panic" "Panic: boom" "MODEL_PANIC"
    "Model panic during Update: boom" d d'.
Proof.
  intros d w d'.
  exact (proj2 (proj1 (C5_fail_fast_trip_has_error_severity
                         (REPLModel0 := FaultyREPL_REPLModel)
                         w (KeyMsg KeyEnter []) d eq_refl eq_refl ltac:(discriminate))
                  (VString "boom") eq_refl)).
Defined.

(** C5 as stated fails: the trip recorded for a panicking [Update] is no
    fall. *)
Lemma C5_panic_trip_is_not_a_fall_counterexample :
  let d := NewStageDirector (Some newT) (Some NewMockREPL) in
  let w := {| w_REPLModel := NewMockREPL; w_director := true |} in
  let d' := snd (stageModelWrapper_Update (REPLModel0 := FaultyREPL_REPLModel)
                   w (KeyMsg KeyEnter []) d) in
  exists tr,
    lastTrip d' = Some tr
    /\ trip.trip_Type tr = "MODEL_PANIC"
    /\ trip.trip_Severity tr = trip.Error
    /\ trip.trip_Severity tr <> trip.Fall
    /\ trip.IsFall tr = false.
Proof.
  cbv zeta. eexists. split; [reflexivity |]. repeat split. discriminate.
Qed.

(** ** Timeouts of the waits *)

Section WaitProperties.

Context {M : Type} `{!REPLModel M} `{!Fmt M}.

Implicit Types (d : StageDirector M).

Lemma timeout_outcome_intro tripType message (ctx : gmap string Value) entries d1 :
  Forall (fun kv => ctx !! fst kv = Some (snd kv)) entries ->
  timeout_outcome tripType entries d1
    (recordTrip (newStageTrip tripType message ctx) d1).
Proof.
  intros Hctx. exists (newStageTrip tripType message ctx).
  destruct (recordTrip_unrecoverable (newStageTrip tripType message ctx) d1 eq_refl)
    as (Hf & Htr & Hst).
  repeat split; auto using recordTrip_lastTrip.
Qed.

(** The older director: a wait for a text that never shows ends with one
    error of type "timeout". *)
Lemma Legacy_WaitForText_timeout (text : string) (ticks : list (list M))
    (ld : Legacy.InteractiveTestDirector M) :
  Contains (Legacy.getCurrentView ld) text = false ->
  Forall (Forall (fun m => Contains (View m) text = false)) ticks ->
  exists ld1 e,
    Legacy.WaitForText text ticks ld = Legacy.recordError e ld1
    /\ Legacy.lastError (Legacy.WaitForText text ticks ld) = Some e
    /\ Legacy.failed (Legacy.WaitForText text ticks ld) = true
    /\ Legacy.te_Type e = "timeout"
    /\ Legacy.te_Context e !! "expected_text" = Some (VString text)
    /\ Legacy.te_Context e !! "current_view"
       = Some (VString (Legacy.getCurrentView ld1)).
Proof.
  intros Hnow Hticks. revert ld Hnow.
  induction Hticks as [| installed rest Hinst _ IH]; intros ld Hnow.
  - cbn. eexists ld, _. repeat split.
  - cbn.
    assert (Hstill : Contains (Legacy.getCurrentView (Legacy.syncModelUpdates installed ld)) text
                     = false).
    { clear IH. revert ld Hnow.
      induction Hinst as [| m ms Hm _ IHm]; intros ld Hnow; [exact Hnow |].
      cbn. apply IHm. exact Hm. }
    rewrite Hstill. apply IH, Hstill.
Qed.

(** A wait that leaves its loop through [ctx.Done()], or because the
    predicate holds, records nothing. *)
Lemma WaitForText_no_timeout (text : string) (sched : wait_schedule) d res d1 :
  pollUntil (fun d => Contains (getCurrentView d) text) (sleeps sched) (tie sched) d
  = (res, d1) ->
  res <> TimedOut ->
  WaitForText text sched d = (if failed d then d else d1).
Proof.
  intros Hpoll Hres. unfold WaitForText. rewrite Hpoll.
  destruct (failed d); [reflexivity |]. destruct res; congruence.
Qed.

End WaitProperties.

(** C6 (amended). When a wait of the stage director leaves its loop
    through the timer in state [d1] (the predicate has not been seen to
    hold), exactly one trip is recorded on top of [d1]; its severity is
    Error; its type is WAIT_TEXT_TIMEOUT for [WaitForText], with the
    searched text and the current view in the context, WAIT_MODE_TIMEOUT for
    [WaitForMode], with the expected and the current mode, and
    WAIT_RESULTS_TIMEOUT for [WaitForSearchResults], with the current view
    cut to 200 characters.  (The type "timeout" is the one of the older
    [InteractiveTestDirector], whose errors have no severity.) *)
Theorem C6_wait_timeout_trip {M : Type} `{!REPLModel M} `{!Fmt M}
    (d : StageDirector M) (sched : wait_schedule) (text expectedMode : string) :
  failed d = false ->
  (forall d1,
     pollUntil (fun d => Contains (getCurrentView d) text)
       (sleeps sched) (tie sched) d = (TimedOut, d1) ->
     timeout_outcome "WAIT_TEXT_TIMEOUT"
       [("expected_text", VString text); ("current_view", VString (getCurrentView d1))]
       d1 (WaitForText text sched d))
  /\ (forall d1,
        pollUntil (fun d => String.eqb (getCurrentMode d) expectedMode)
          (sleeps sched) (tie sched) d = (TimedOut, d1) ->
        timeout_outcome "WAIT_MODE_TIMEOUT"
          [("expected_mode", VString expectedMode);
           ("current_mode", VString (getCurrentMode d1))]
          d1 (WaitForMode expectedMode sched d))
  /\ (forall d1,
        pollUntil (fun d => Contains (getCurrentView d) "Live Results:"
                            || Contains (getCurrentView d) "Found")
          (sleeps sched) (tie sched) d = (TimedOut, d1) ->
        timeout_outcome "WAIT_RESULTS_TIMEOUT"
          [("current_view", VString (truncateString (getCurrentView d1) 200))]
          d1 (WaitForSearchResults sched d)).
Proof.
  intros Hf. split; [| split]; intros d1 Hpoll.
  - unfold WaitForText. rewrite Hf, Hpoll. apply timeout_outcome_intro.
    repeat constructor.
  - unfold WaitForMode. rewrite Hf, Hpoll. apply timeout_outcome_intro.
    repeat constructor.
  - unfold WaitForSearchResults. rewrite Hf, Hpoll. apply timeout_outcome_intro.
    repeat constructor.
Qed.

Lemma C6_wait_timeout_trip_witness :
  let d := NewStageDirector (Some newT) (Some NewMockREPL) in
  let sched := {| sleeps := [[]; []]; tie := TimerCase |} in
  timeout_outcome "WAIT_TEXT_TIMEOUT"
    [("expected_text", VString "never");
     ("current_view", VString (getCurrentView d))]
    d (WaitForText "never" sched d).
Proof.
  intros d sched.
  exact (proj1 (C6_wait_timeout_trip d sched "never" "result" eq_refl) d eq_refl).
Defined.

(** C6 as stated fails: the trip that [WaitForText] records at its
    deadline is not of type "timeout". *)
Lemma C6_timeout_trip_type_counterexample :
  let d := NewStageDirector (Some newT) (Some NewMockREPL) in
  let d' := WaitForText "never" {| sleeps := [[]; []]; tie := TimerCase |} d in
  exists tr,
    lastTrip d' = Some tr
    /\ trip.trips (tripHandler d') = [tr]
    /\ trip.trip_Type tr = "WAIT_TEXT_TIMEOUT"
    /\ trip.trip_Type tr <> "timeout".
Proof.
  cbv zeta. eexists. split; [reflexivity |]. repeat split. discriminate.
Qed.

(** The timer and the session context can be ready together (the
    constructor gives the context the very timeout the waits use): if the
    [select] then takes [ctx.Done()], the wait ends without a trip. *)
Example wait_ends_on_done_context :
  let d := set_ctxDone true (NewStageDirector (Some newT) (Some NewMockREPL)) in
  WaitForText "never" {| sleeps := []; tie := CtxDoneCase |} d = d
  /\ lastTrip (WaitForText "never" {| sleeps := []; tie := TimerCase |} d) <> None.
Proof. cbv zeta. split; [reflexivity | discriminate]. Qed.

(** ** [Stop] before [Start] *)

(** C8 (amended). [Stop] on an [InteractiveTestDirector] that was never
    started returns at once the failure result (no success, the message
    "Test director was never started", no interaction, no snapshot) and
    leaves the director as it is.  [StageDirector.Stop] has no such test:
    on a director that was never started it takes no final snapshot,
    cancels the session context (and quits a program left by a failed
    [Start]), and returns the recorded actions and snapshots with
    [Success] true exactly when no trip has been recorded; on a fresh
    director that is a success with an empty message. *)
Theorem C8_stop_before_start {M : Type} `{!REPLModel M} `{!Fmt M} :
  (forall ld : Legacy.InteractiveTestDirector M,
     Legacy.started ld = false ->
     Legacy.Stop ld
     = ({| Legacy.Interactions := []; Legacy.Snapshots := [];
           Legacy.Success := false;
           Legacy.ErrorMessage := "Test director was never started";
           Legacy.Error_ := None |}, ld))
  /\ (forall d : StageDirector M,
        started d = false ->
        Success (fst (Stop d)) = negb (failed d) && bool_decide (lastTrip d = None)
        /\ ErrorMessage (fst (Stop d)) = getErrorMessage d
        /\ Actions (fst (Stop d)) = interactions d
        /\ Snapshots (fst (Stop d)) = snapshots d
        /\ snd (Stop d)
           = let d2 := if cancel d then set_ctxDone true d else d in
             match program d2 with
             | Some p => set_program (Some (Quit p)) d2
             | None => d2
             end)
  /\ (forall (tst : option TestingT) (m : option M) (cfg : StageConfig),
        Stop (NewStageDirectorWithConfig tst m cfg)
        = ({| Actions := []; Snapshots := []; Success := true;
              ErrorMessage := ""; Error_ := None |},
           set_ctxDone true (NewStageDirectorWithConfig tst m cfg))).
Proof.
  split; [| split].
  - intros ld Hs. unfold Legacy.Stop. rewrite Hs. reflexivity.
  - intros d Hs. rewrite Stop_Success. unfold Stop. cbv zeta.
    rewrite Hs, andb_false_r. cbn [fst snd].
    destruct (cancel d); cbn; destruct (program d); cbn; auto.
  - intros tst m cfg. destruct cfg as [timeout speed [] retries]; reflexivity.
Qed.

Lemma C8_stop_before_start_witness :
  let d := NewStageDirector (Some newT) (Some NewMockREPL) in
  let typed := Type_ "ab" [] d in
  Actions (fst (Stop typed)) = interactions typed
  /\ Success (fst (Stop typed)) = true.
Proof.
  intros d typed.
  destruct (proj1 (proj2 (C8_stop_before_start (M := MockREPL))) typed eq_refl)
    as (Hs & _ & Ha & _).
  split; [exact Ha | exact Hs].
Defined.

(** C8 as stated fails for the stage director: [Stop] before [Start]
    reports success, with an empty message, and cancels the context. *)
Lemma C8_stage_director_stop_counterexample :
  let d := NewStageDirector (Some newT) (Some NewMockREPL) in
  started d = false
  /\ Success (fst (Stop d)) = true
  /\ ErrorMessage (fst (Stop d)) = ""
  /\ ctxDone d = false
  /\ ctxDone (snd (Stop d)) = true
  /\ snd (Stop d) <> d.
Proof.
  cbv zeta. repeat split. intros H. apply (f_equal ctxDone) in H. discriminate H.
Qed.

(** ** Typing *)

Section TypingProperties.

Context {M : Type} `{!REPLModel M} `{!Fmt M}.

Implicit Types (d : StageDirector M).

Lemma append_String (x : ascii) (a b : string) :
  String x a +:+ b = String x (a +:+ b).
Proof. reflexivity. Qed.

Lemma append_nil_r (a : string) : a +:+ "" = a.
Proof.
  induction a as [| x a IH]; [reflexivity |].
  rewrite append_String, IH. reflexivity.
Qed.

Lemma append_assoc (a b c : string) : (a +:+ b) +:+ c = a +:+ (b +:+ c).
Proof.
  induction a as [| x a IH]; [reflexivity |].
  rewrite !append_String, IH. reflexivity.
Qed.

Lemma len_append (a b : string) : len (a +:+ b) = len a + len b.
Proof.
  induction a as [| x a IH].
  - change ("" +:+ b) with b. unfold len. cbn [String.length]. lia.
  - rewrite append_String. unfold len in *. cbn [String.length]. lia.
Qed.

Lemma len_String (c : ascii) (s : string) : len (String c s) = len s + 1.
Proof. unfold len. cbn [String.length]. lia. Qed.

Lemma len_nonneg (s : string) : 0 <= len s.
Proof. unfold len. lia. Qed.



Lemma ascending_le lo seqs hi : ascending lo seqs hi -> lo <= hi.
Proof.
  revert lo. induction seqs as [| s seqs IH]; intros lo; cbn; [auto |].
  intros [Hlt Hrest]. specialize (IH _ Hrest). lia.
Qed.

Lemma ascending_hi lo seqs hi hi' :
  ascending lo seqs hi -> hi <= hi' -> ascending lo seqs hi'.
Proof.
  revert lo. induction seqs as [| s seqs IH]; intros lo; cbn; [lia |].
  intros [Hlt Hrest] Hhi. split; [exact Hlt | apply IH; assumption].
Qed.

Lemma ascending_snoc lo seqs hi s :
  ascending lo seqs hi -> hi < s -> ascending lo (seqs ++ [s]) s.
Proof.
  revert lo. induction seqs as [| x seqs IH]; intros lo; cbn; [lia |].
  intros [Hlt Hrest] Hs. split; [exact Hlt | apply IH; assumption].
Qed.


Lemma pfields_syncModelUpdates_body (u : modelUpdate M) d :
  program (syncModelUpdates_body u d) = program d
  /\ modelChan (syncModelUpdates_body u d) = modelChan d
  /\ updateSeq (syncModelUpdates_body u d) = updateSeq d
  /\ bufferOverflows (syncModelUpdates_body u d) = bufferOverflows d.
Proof.
  unfold syncModelUpdates_body.
  destruct (mu_sequence u <=? lastProcessedSeq d); [auto |].
  destruct (mu_sequence u >? Int64.wrap (lastProcessedSeq d + 1)); auto.
Qed.










Lemma tframe_recordTrip tr d : tframe (recordTrip tr d) = tframe d.
Proof.
  unfold recordTrip. cbv zeta.
  destruct (trip.CanRecover tr); cbn; destruct (t d); cbn;
    destruct (trip.IsFall tr); reflexivity.
Qed.

Lemma tframe_cancel d : tframe (if cancel d then set_ctxDone true d else d) = tframe d.
Proof. destruct (cancel d); reflexivity. Qed.

Lemma tframe_stageModelWrapper_Update w msg d :
  tframe (snd (stageModelWrapper_Update w msg d)) = tframe d.
Proof.
  unfold stageModelWrapper_Update.
  destruct (Update (w_REPLModel w) msg) as [r | [| | m]], (w_director w);
    cbn [snd]; try reflexivity.
  - unfold handleModelPanic. cbv zeta. rewrite tframe_cancel, tframe_recordTrip.
    reflexivity.
  - unfold handleInvalidModelState. cbv zeta. rewrite tframe_cancel, tframe_recordTrip.
    reflexivity.
  - unfold handleInvalidModelState. cbv zeta. rewrite tframe_cancel, tframe_recordTrip.
    reflexivity.
  - unfold publish. destruct (modelChan d) as [ch |]; [| reflexivity].
    destruct (length (chan_buf ch) <? chan_cap ch)%nat; reflexivity.
Qed.

Lemma tframe_program_step d : tframe (program_step d) = tframe d.
Proof.
  unfold program_step. destruct (program d) as [p |] eqn:Hp; [| reflexivity].
  destruct (p_quit p); [reflexivity |].
  destruct (p_model p) as [w |]; [| reflexivity].
  destruct (p_inbox p) as [| msg rest]; [reflexivity |].
  destruct (bool_decide (msg = QuitMsg)).
  - unfold tframe, sentlog. cbn. rewrite Hp. reflexivity.
  - pose proof (tframe_stageModelWrapper_Update w msg d) as Hw.
    destruct (stageModelWrapper_Update w msg d) as [w' d1]. cbn [snd] in Hw.
    unfold tframe, sentlog in *. cbn. rewrite Hp in *.
    injection Hw as Hi _ Hc. rewrite Hi, Hc. reflexivity.
Qed.

Lemma tframe_consumer_step d : tframe (consumer_step d) = tframe d.
Proof.
  unfold consumer_step. destruct (modelChan d) as [ch |]; [| reflexivity].
  destruct (chan_buf ch) as [| u rest]; [reflexivity |].
  unfold syncModelUpdates_body. cbn.
  destruct (mu_sequence u <=? lastProcessedSeq d); [reflexivity |].
  destruct (mu_sequence u >? Int64.wrap (lastProcessedSeq d + 1)); reflexivity.
Qed.

Lemma tframe_run_bg steps d : tframe (run_bg steps d) = tframe d.
Proof.
  revert d. induction steps as [| s steps IH]; intros d; [reflexivity |].
  change (run_bg (s :: steps) d) with (run_bg steps (run_bg_step s d)).
  rewrite IH. destruct s; cbn;
    [apply tframe_program_step | apply tframe_consumer_step | reflexivity].
Qed.

Lemma tframe_pollUntil pred sl tiebreak d :
  tframe (snd (pollUntil pred sl tiebreak d)) = tframe d.
Proof.
  revert d. induction sl as [| during rest IH]; intros d; cbn.
  - destruct (ctxDone d); reflexivity.
  - destruct (ctxDone d); [reflexivity |]. destruct (pred d); [reflexivity |].
    rewrite IH. apply tframe_run_bg.
Qed.

Lemma tframe_captureSnapshot d : tframe (captureSnapshot d) = tframe d.
Proof. unfold captureSnapshot. destruct (negb (CaptureViews (config d))); reflexivity. Qed.

(** [sendMessage] hands exactly one message to a program that exists, and
    none otherwise. *)
Lemma tframe_sendMessage msg sched d :
  tframe (sendMessage msg sched d)
  = (interactions d,
     match sentlog d with Some l => Some (l ++ [msg]) | None => None end,
     config d).
Proof.
  unfold sendMessage. destruct (program d) as [p |] eqn:Hp.
  - cbv zeta. rewrite tframe_captureSnapshot. unfold waitForViewChange.
    rewrite tframe_pollUntil. unfold tframe, sentlog. cbn. rewrite Hp. reflexivity.
  - unfold tframe, sentlog. rewrite Hp. reflexivity.
Qed.


End TypingProperties.

(** *** Runes *)








(** The runes of a text of bytes below 128 are its characters. *)
Lemma runes_ascii (s : string) :
  all_chars (fun c => (nat_of_ascii c <? 128)%nat) s = true ->
  runes s = map str (list_ascii_of_string s).
Proof.
  unfold runes. induction s as [| x s IH]; [reflexivity |].
  cbn [all_chars]. intros [Hx Hs]%andb_true_iff.
  cbn [runes_from list_ascii_of_string map]. unfold rune_width, utf8_first.
  rewrite Hx. cbn [Nat.sub]. rewrite IH by exact Hs.
  f_equal. cbn. destruct s; reflexivity.
Qed.






(** ** The consumer's turns and its loop *)

Section ConsumerTurns.

Context {M : Type} `{!REPLModel M} `{!Fmt M}.

Implicit Types (d : StageDirector M).

Lemma body_set_modelChan (u : modelUpdate M) c d :
  syncModelUpdates_body u (set_modelChan c d)
  = set_modelChan c (syncModelUpdates_body u d).
Proof.
  unfold syncModelUpdates_body. cbn.
  destruct (mu_sequence u <=? lastProcessedSeq d); [reflexivity |].
  destruct (mu_sequence u >? Int64.wrap (lastProcessedSeq d + 1)); reflexivity.
Qed.

Lemma body_modelChan (u : modelUpdate M) d :
  modelChan (syncModelUpdates_body u d) = modelChan d.
Proof. apply pfields_syncModelUpdates_body. Qed.

Lemma sync_set_modelChan (us : list (modelUpdate M)) c c' d :
  set_modelChan c' (syncModelUpdates us (set_modelChan c d))
  = set_modelChan c' (syncModelUpdates us d).
Proof.
  revert d. induction us as [| u us IH]; intros d; [reflexivity |].
  change (syncModelUpdates (u :: us) ?x)
    with (syncModelUpdates us (syncModelUpdates_body u x)).
  rewrite body_set_modelChan. apply IH.
Qed.

(** As many turns of the consumer as there are queued updates empty the
    queue and amount to the loop [syncModelUpdates] run on the queued
    updates, oldest first. *)
Lemma consumer_turns_sync (buf : list (modelUpdate M)) (capacity : nat) d :
  modelChan d = Some {| chan_buf := buf; chan_cap := capacity |} ->
  run_bg (repeat ConsumerStep (length buf)) d
  = set_modelChan (Some {| chan_buf := []; chan_cap := capacity |})
      (syncModelUpdates buf d).
Proof.
  revert d. induction buf as [| u rest IH]; intros d Hch.
  - cbn. destruct d. cbn in Hch. subst. reflexivity.
  - cbn [length repeat].
    change (run_bg (ConsumerStep :: repeat ConsumerStep (length rest)) d)
      with (run_bg (repeat ConsumerStep (length rest)) (consumer_step d)).
    unfold consumer_step at 1. rewrite Hch. cbn [chan_buf chan_cap].
    rewrite IH by (rewrite body_modelChan; reflexivity).
    rewrite body_set_modelChan.
    change (syncModelUpdates (u :: rest) d)
      with (syncModelUpdates rest (syncModelUpdates_body u d)).
    apply sync_set_modelChan.
Qed.

End ConsumerTurns.

(** ** A whole session

    The scenario of the test suite on [MockREPL], every keystroke being
    handled by the program and the consumer while the director waits for
    the view to change: the session succeeds, with nine actions. *)

Example scenario_succeeds :
  let handled := {| sleeps := [[ProgramStep; ConsumerStep]; []]; tie := TimerCase |} in
  let now := {| sleeps := [[]]; tie := TimerCase |} in
  exists d : StageDirector MockREPL,
    run [ OpStart now; OpAssertMode "initial";
          OpType "world" (repeat {| ks_view := handled; ks_delay := [] |} 5);
          OpAssertMode "typing"; OpPressEnter handled;
          OpWaitForMode "result" now; OpAssertViewContains "world" ]
      (NewStageDirector (Some newT) (Some NewMockREPL)) = Some d
    /\ getCurrentInput d = ""
    /\ getCurrentMode d = "result"
    /\ Success (fst (Stop d)) = true
    /\ length (Actions (fst (Stop d))) = 9%nat.
Proof.
  cbv zeta. eexists. split; [vm_compute; reflexivity |].
  repeat split; vm_compute; reflexivity.
Qed.

(** A stalled consumer: the program handles 53 keystrokes while the
    consumer takes no turn.  Fifty updates fill the queue, the three others
    are dropped, and every update got its own sequence number. *)
Example stalled_consumer_overflows :
  let handled := {| ks_view := {| sleeps := [[ProgramStep]]; tie := TimerCase |};
                    ks_delay := [] |} in
  let d := Start {| sleeps := [[]]; tie := TimerCase |}
             (NewStageDirector (Some newT) (Some NewMockREPL)) in
  let d' := Type_ (string_of_list_ascii (repeat "a"%char 53)) (repeat handled 53) d in
  updateSeq d' = 53
  /\ updatesSent d' = 50
  /\ bufferOverflows d' = 3
  /\ droppedUpdates d' = 3
  /\ updatesProcessed d' = 0
  /\ HasDroppedUpdates d' = true
  /\ getCurrentInput d' = "".
Proof. cbv zeta. repeat split; vm_compute; reflexivity. Qed.

(** ** Digits and frame timings of the reports *)

Section ReportText.

Lemma append_nil_l (s : string) : "" +:+ s = s.
Proof. reflexivity. Qed.

Lemma all_chars_app (p : ascii -> bool) (a b : string) :
  all_chars p (a +:+ b) = all_chars p a && all_chars p b.
Proof.
  induction a as [| c a IH]; [reflexivity |].
  rewrite append_String. cbn. rewrite IH, andb_assoc. reflexivity.
Qed.

Lemma digit_char_digit (n : Z) :
  0 <= n <= 9 -> is_digit (digit_char n) = true /\ digit_of (digit_char n) = n.
Proof.
  intros Hn. rewrite <- (Z2Nat.id n) by lia.
  assert (Hk : (Z.to_nat n < 10)%nat) by lia.
  revert Hk. generalize (Z.to_nat n) as k. clear Hn. intros k Hk.
  do 10 (destruct k as [| k]; [split; reflexivity |]). lia.
Qed.

Lemma digits_loop_app (a b : string) (r : Z) :
  digits_loop (a +:+ b) r
  = match digits_loop a r with Some r' => digits_loop b r' | None => None end.
Proof.
  revert r. induction a as [| c a IH]; intros r; [reflexivity |].
  rewrite append_String. cbn [digits_loop]. destruct (negb (is_digit c)); [reflexivity |].
  apply IH.
Qed.

Lemma digits_loop_all (s : string) (r : Z) :
  all_chars is_digit s = true <-> exists n, digits_loop s r = Some n.
Proof.
  revert r. induction s as [| c s IH]; intros r; cbn.
  - split; [eauto | reflexivity].
  - destruct (is_digit c); cbn.
    + apply IH.
    + split; [discriminate | intros [n Hn]; discriminate].
Qed.

Lemma digits_loop_range (s : string) (r n : Z) :
  Int64.in_range r -> digits_loop s r = Some n -> Int64.in_range n.
Proof.
  revert r. induction s as [| c s IH]; intros r Hr; cbn.
  - intros [= <-]. exact Hr.
  - destruct (negb (is_digit c)); [discriminate |].
    apply IH. apply Int64_wrap_in_range.
Qed.

Lemma Sprint_digits_acc (fuel : nat) (n : Z) (acc : string) :
  Sprint_digits fuel n acc = Sprint_digits fuel n "" +:+ acc.
Proof.
  revert n acc. induction fuel as [| fuel IH]; intros n acc; cbn; [reflexivity |].
  destruct (n <? 10); [reflexivity |].
  rewrite (IH _ (String _ acc)), (IH _ (String _ "")).
  rewrite append_assoc. reflexivity.
Qed.

Lemma digits_loop_Sprint_digits (fuel : nat) (n : Z) :
  0 <= n < 10 ^ Z.of_nat fuel -> n <= Int64.max_int64 ->
  digits_loop (Sprint_digits fuel n "") 0 = Some n.
Proof.
  revert n. induction fuel as [| fuel IH]; intros n Hn Hmax.
  - cbn in *. assert (n = 0) by lia. subst. reflexivity.
  - cbn [Sprint_digits]. cbv zeta.
    assert (Hd : 0 <= n mod 10 <= 9) by (pose proof (Z.mod_pos_bound n 10); lia).
    destruct (digit_char_digit _ Hd) as [Hdig Hval].
    destruct (Z.ltb_spec n 10) as [Hlt | Hge].
    + cbn. rewrite Hdig, Hval. cbn. rewrite Z.mod_small by lia.
      f_equal. apply Int64_wrap_id. int64_solve.
    + rewrite Sprint_digits_acc, digits_loop_app.
      rewrite IH.
      * cbn. rewrite Hdig, Hval. cbn. f_equal.
        replace (n / 10 * 10 + n mod 10) with n by (pose proof (Z.div_mod n 10); lia).
        apply Int64_wrap_id. int64_solve.
      * rewrite Nat2Z.inj_succ, Z.pow_succ_r in Hn by lia.
        split; [apply Z.div_pos; lia | apply Z.div_lt_upper_bound; lia].
      * pose proof (Z.div_le_upper_bound n 10 n). int64_solve.
Qed.

Lemma Sprint_d_nonneg (n : Z) :
  0 <= n <= Int64.max_int64 -> digits_loop (Sprint_d n) 0 = Some n.
Proof.
  intros Hn. unfold Sprint_d. destruct (Z.ltb_spec n 0); [lia |].
  apply digits_loop_Sprint_digits; [| lia].
  unfold Int64.max_int64 in Hn. split; [lia |].
  change (Z.of_nat 20) with 20. lia.
Qed.

Lemma index_rune_split (c : ascii) (s : string) (i : nat) :
  index_rune c s = Some i ->
  exists rest, s = String.substring 0 i s +:+ String c rest.
Proof.
  revert i. induction s as [| r s IH]; intros i; cbn [index_rune]; [discriminate |].
  destruct (Ascii.eqb_spec r c) as [-> | Hne].
  - intros [= <-]. exists s. reflexivity.
  - destruct (index_rune c s) as [j |] eqn:Hj; cbn; [| discriminate].
    intros [= <-]. destruct (IH j eq_refl) as [rest Hs].
    exists rest. rewrite append_String. f_equal. exact Hs.
Qed.

Lemma index_rune_app (c : ascii) (a b : string) :
  index_rune c a = None ->
  index_rune c (a +:+ String c b) = Some (String.length a).
Proof.
  induction a as [| r a IH]; cbn [index_rune].
  - intros _. rewrite append_nil_l. cbn [index_rune]. rewrite Ascii.eqb_refl. reflexivity.
  - rewrite append_String. cbn [index_rune String.length].
    destruct (Ascii.eqb r c); [discriminate |].
    destruct (index_rune c a); [discriminate |]. intros _.
    rewrite IH by reflexivity. reflexivity.
Qed.

Lemma substring_app_front (a b : string) :
  String.substring 0 (String.length a) (a +:+ b) = a.
Proof.
  induction a as [| r a IH].
  - rewrite append_nil_l. destruct b; reflexivity.
  - rewrite append_String. cbn. f_equal. exact IH.
Qed.

Lemma digits_no_underscore (s : string) :
  all_chars is_digit s = true -> index_rune "_" s = None.
Proof.
  induction s as [| r s IH]; cbn; [reflexivity |].
  intros H. apply andb_prop in H as [Hr Hs].
  destruct (Ascii.eqb_spec r "_") as [-> | _]; [discriminate |].
  rewrite IH by exact Hs. reflexivity.
Qed.

Lemma len_append_pos (a b : string) (c : ascii) : (len (a +:+ String c b) =? 0) = false.
Proof.
  unfold len. apply Z.eqb_neq.
  destruct a; [rewrite append_nil_l | rewrite append_String]; cbn [String.length]; lia.
Qed.

End ReportText.

(** X1. [parseInt] accepts exactly the strings made of decimal digits (the
    empty string among them): on such a string it returns a value of the
    [int] range and no error; on any other string, one with a sign
    included, it returns the error "invalid integer: " followed by the
    string. *)
Theorem parseInt_accepts_digit_strings (s : string) :
  if all_chars is_digit s
  then exists n, parseInt s = Ok n /\ Int64.in_range n
  else parseInt s = Err ("invalid integer: " +:+ s).
Proof.
  unfold parseInt.
  destruct (all_chars is_digit s) eqn:Hall.
  - apply (digits_loop_all s 0) in Hall as [n Hn]. rewrite Hn.
    exists n. split; [reflexivity |].
    apply (digits_loop_range s 0); [int64_solve | exact Hn].
  - destruct (digits_loop s 0) as [n |] eqn:Hn; [| reflexivity].
    assert (Hex : exists n, digits_loop s 0 = Some n) by eauto.
    apply digits_loop_all in Hex. congruence.
Qed.

(** X2. [parseInt] reads back what ["%d"] prints of an [int] that is not
    negative, and rejects what it prints of a negative one. *)
Theorem parseInt_Sprint_d (n : Z) :
  Int64.in_range n ->
  parseInt (Sprint_d n)
  = if 0 <=? n then Ok n else Err ("invalid integer: " +:+ Sprint_d n).
Proof.
  intros Hn. unfold parseInt. destruct (Z.leb_spec 0 n) as [Hpos | Hneg].
  - rewrite Sprint_d_nonneg; [reflexivity | unfold Int64.in_range in Hn; lia].
  - unfold Sprint_d at 1. destruct (Z.ltb_spec n 0); [| lia]. reflexivity.
Qed.

Lemma parseInt_Sprint_d_witness :
  parseInt (Sprint_d 1200) = Ok 1200
  /\ parseInt (Sprint_d (-15)) = Err "invalid integer: -15".
Proof.
  split.
  - apply (parseInt_Sprint_d 1200). vm_compute. split; discriminate.
  - apply (parseInt_Sprint_d (-15)). vm_compute. split; discriminate.
Defined.

(** X3. For a label "N_description" whose part before the first underscore
    is a digit string that [parseInt] reads as [n], [extractFrameTiming]
    prints a hundred times [n] (wrapped to the [int] range); when that
    product fits, the timing reads back as [n * 100]. *)
Theorem extractFrameTiming_frame_number (ds description : string) (n : Z) :
  parseInt ds = Ok n ->
  let timing := extractFrameTiming (ds +:+ "_" +:+ description) in
  timing = Sprint_d (Int64.wrap (n * 100))
  /\ (0 <= n -> n * 100 <= Int64.max_int64 -> parseInt timing = Ok (n * 100)).
Proof.
  intros Hparse timing. unfold parseInt in Hparse.
  destruct (digits_loop ds 0) as [n' |] eqn:Hds; [| discriminate].
  injection Hparse as ->.
  assert (Hall : all_chars is_digit ds = true)
    by (apply (digits_loop_all ds 0); eauto).
  assert (Ht : timing = Sprint_d (Int64.wrap (n * 100))).
  { subst timing. unfold extractFrameTiming.
    change ("_" +:+ description) with (String "_" description).
    rewrite len_append_pos, index_rune_app by (apply digits_no_underscore; exact Hall).
    cbv zeta. rewrite substring_app_front, Hds. reflexivity. }
  split; [exact Ht |].
  intros Hpos Hmax. rewrite Ht, Int64_wrap_id by int64_solve.
  unfold parseInt. rewrite Sprint_d_nonneg by lia. reflexivity.
Qed.

Lemma extractFrameTiming_frame_number_witness :
  extractFrameTiming "12_search_results" = "1200"
  /\ parseInt (extractFrameTiming "12_search_results") = Ok 1200.
Proof.
  destruct (extractFrameTiming_frame_number "12" "search_results" 12) as [H1 H2].
  - reflexivity.
  - split; [exact H1 | apply H2; vm_compute; discriminate].
Defined.

(** X4. A label that is not a digit string followed by an underscore (it
    has no underscore, or something other than digits stands before the
    first one) gets the timing "0". *)
Theorem extractFrameTiming_default (label : string) :
  (forall ds description,
     label = ds +:+ "_" +:+ description -> all_chars is_digit ds = false) ->
  extractFrameTiming label = "0".
Proof.
  intros Hform. unfold extractFrameTiming.
  destruct (len label =? 0); [reflexivity |].
  destruct (index_rune "_" label) as [i |] eqn:Hi; [| reflexivity].
  cbv zeta. destruct (index_rune_split _ _ _ Hi) as [rest Hsplit].
  specialize (Hform _ _ Hsplit).
  destruct (digits_loop (String.substring 0 i label) 0) as [n |] eqn:Hn; [| reflexivity].
  assert (Hex : exists n, digits_loop (String.substring 0 i label) 0 = Some n) by eauto.
  apply digits_loop_all in Hex. congruence.
Qed.

Lemma extractFrameTiming_default_witness :
  extractFrameTiming "frame_12" = "0".
Proof.
  apply (extractFrameTiming_default "frame_12").
  intros ds description H.
  destruct ds as [| c ds]; [discriminate |].
  injection H as <- _. reflexivity.
Defined.

(** ** Captured ANSI text on its way into a report *)

Section AnsiText.

Lemma ReplaceAll_single_cons (c x : ascii) (s new : string) :
  ReplaceAll (String c s) (String x "") new
  = (if Ascii.eqb c x then new else String c "") +:+ ReplaceAll s (String x "") new.
Proof.
  unfold ReplaceAll. cbn [ReplaceAll_from String.prefix String.length].
  destruct (Ascii.eqb_spec c x) as [-> | Hne].
  - destruct (ascii_dec x x) as [_ | Hxx]; [| contradiction].
    destruct s; reflexivity.
  - destruct (ascii_dec x c) as [-> | _]; [contradiction | reflexivity].
Qed.

Lemma ReplaceAll_single_app (x : ascii) (a b new : string) :
  ReplaceAll (a +:+ b) (String x "") new
  = ReplaceAll a (String x "") new +:+ ReplaceAll b (String x "") new.
Proof.
  induction a as [| c a IH]; [reflexivity |].
  rewrite append_String, !ReplaceAll_single_cons, IH, append_assoc. reflexivity.
Qed.

Lemma escapeForHTML_app (a b : string) :
  escapeForHTML (a +:+ b) = escapeForHTML a +:+ escapeForHTML b.
Proof.
  unfold escapeForHTML, str. cbv zeta. rewrite !ReplaceAll_single_app. reflexivity.
Qed.

Lemma convertSequenceToHTML_no_break (x : string) :
  all_chars (fun c => negb (Ascii.eqb c CR || Ascii.eqb c LF)) (convertSequenceToHTML x)
  = true.
Proof.
  unfold convertSequenceToHTML.
  repeat (match goal with |- context [String.eqb ?a ?b] => destruct (String.eqb a b) end;
          [vm_compute; reflexivity |]).
  reflexivity.
Qed.

Lemma convertSequenceToHTML_no_letter (x : string) :
  all_chars (fun c => negb (is_letter c)) x = true -> convertSequenceToHTML x = "".
Proof.
  intros Hx. unfold convertSequenceToHTML.
  repeat (match goal with
          | |- context [String.eqb ?a ?b] =>
              destruct (String.eqb_spec a b) as [-> | _]; [vm_compute in Hx; discriminate |]
          end).
  reflexivity.
Qed.

Lemma convert_from_regular (c : ascii) (rest : string) :
  Ascii.eqb c ESC = false ->
  convertANSIToHTML_from None (String c rest)
  = if Ascii.eqb c CR then convertANSIToHTML_from None rest
    else if Ascii.eqb c LF then "<br>" +:+ convertANSIToHTML_from None rest
    else String c (convertANSIToHTML_from None rest).
Proof.
  intros Hc. cbn [convertANSIToHTML_from]. rewrite Hc. cbn [andb].
  destruct (Ascii.eqb c CR); [reflexivity |].
  destruct (Ascii.eqb c LF); [reflexivity |].
  destruct rest; reflexivity.
Qed.

Lemma convert_from_app (a b : string) :
  free_of ESC a = true ->
  convertANSIToHTML_from None (a +:+ b)
  = convertANSIToHTML_from None a +:+ convertANSIToHTML_from None b.
Proof.
  unfold free_of. induction a as [| c a IH]; cbn [all_chars]; [reflexivity |].
  intros H. apply andb_prop in H as [Hc Ha]. apply negb_true_iff in Hc.
  rewrite append_String, !convert_from_regular by exact Hc.
  rewrite IH by exact Ha.
  destruct (Ascii.eqb c CR); [reflexivity |].
  destruct (Ascii.eqb c LF); [rewrite append_assoc |]; reflexivity.
Qed.

Lemma convert_from_sequence (collected body b : string) (l : ascii) :
  all_chars (fun c => negb (is_letter c)) body = true ->
  is_letter l = true ->
  convertANSIToHTML_from (Some collected) (body +:+ String l b)
  = convertSequenceToHTML (collected +:+ body +:+ str l)
      +:+ convertANSIToHTML_from None b.
Proof.
  revert collected. induction body as [| c body IH]; intros collected Hbody Hl.
  - rewrite !append_nil_l. cbn [convertANSIToHTML_from]. rewrite Hl. reflexivity.
  - cbn [all_chars] in Hbody. apply andb_prop in Hbody as [Hc Hbody].
    apply negb_true_iff in Hc.
    rewrite append_String. cbn [convertANSIToHTML_from]. rewrite Hc.
    rewrite IH by assumption. unfold str.
    rewrite (append_assoc collected). reflexivity.
Qed.

Lemma convert_from_unterminated (collected body : string) :
  all_chars (fun c => negb (is_letter c)) body = true ->
  convertANSIToHTML_from (Some collected) body = convertSequenceToHTML (collected +:+ body).
Proof.
  revert collected. induction body as [| c body IH]; intros collected Hbody.
  - rewrite append_nil_r. reflexivity.
  - cbn [all_chars] in Hbody. apply andb_prop in Hbody as [Hc Hbody].
    apply negb_true_iff in Hc. cbn [convertANSIToHTML_from]. rewrite Hc.
    rewrite IH by assumption. unfold str. rewrite (append_assoc collected). reflexivity.
Qed.

(** The loop never writes a line break, from whatever state it runs. *)
Lemma convert_from_no_break_upto (n : nat) (seq : option string) (s : string) :
  (String.length s <= n)%nat ->
  all_chars (fun c => negb (Ascii.eqb c CR || Ascii.eqb c LF))
    (convertANSIToHTML_from seq s) = true.
Proof.
  revert seq s. induction n as [| n IH]; intros seq s Hn.
  - destruct s; [| cbn in Hn; lia].
    destruct seq; [apply convertSequenceToHTML_no_break | reflexivity].
  - destruct s as [| c s].
    { destruct seq; [apply convertSequenceToHTML_no_break | reflexivity]. }
    cbn [String.length] in Hn. cbn [convertANSIToHTML_from].
    destruct seq as [collected |].
    + destruct (is_letter c); [| apply IH; lia].
      rewrite all_chars_app, convertSequenceToHTML_no_break, IH by lia. reflexivity.
    + destruct (Ascii.eqb c CR) eqn:Hcr; [apply IH; lia |].
      destruct (Ascii.eqb c LF) eqn:Hlf.
      { rewrite all_chars_app, IH by lia. reflexivity. }
      assert (Hreg : all_chars (fun c => negb (Ascii.eqb c CR || Ascii.eqb c LF))
                       (String c (convertANSIToHTML_from None s)) = true).
      { cbn [all_chars]. rewrite Hcr, Hlf, IH by lia. reflexivity. }
      destruct s as [| next rest']; [exact Hreg |].
      destruct (Ascii.eqb c ESC && Ascii.eqb next "[")%char; [| exact Hreg].
      apply IH. cbn [String.length] in Hn. lia.
Qed.

Lemma is_letter_not_param (l : ascii) : is_letter l = true -> is_param l = false.
Proof. destruct l as [[] [] [] [] [] [] [] []]; vm_compute; congruence. Qed.

Lemma is_param_not_ESC (c : ascii) : is_param c = true -> Ascii.eqb c ESC = false.
Proof. destruct c as [[] [] [] [] [] [] [] []]; vm_compute; congruence. Qed.

Lemma csi_match_regular (c : ascii) (rest : string) :
  Ascii.eqb c ESC = false -> csi_match (String c rest) = None.
Proof. intros Hc. cbn. destruct rest; [reflexivity |]. rewrite Hc. reflexivity. Qed.

Lemma stripANSI_from_regular (c : ascii) (rest : string) :
  Ascii.eqb c ESC = false ->
  stripANSI_from O (String c rest) = String c (stripANSI_from O rest).
Proof.
  intros Hc. cbn [stripANSI_from]. rewrite csi_match_regular by exact Hc. reflexivity.
Qed.

Lemma stripANSI_from_ESC (tail : string) :
  stripANSI_from O (String ESC (String "[" tail))
  = match csi_tail tail with
    | Some n => stripANSI_from n tail
    | None => String ESC (String "[" (stripANSI_from O tail))
    end.
Proof.
  rewrite <- (stripANSI_from_regular "[" tail) by reflexivity.
  cbn [stripANSI_from csi_match]. rewrite Ascii.eqb_refl. cbn [andb].
  destruct (csi_tail tail) as [n |]; reflexivity.
Qed.

Lemma stripANSI_from_app (a b : string) :
  free_of ESC a = true -> stripANSI_from O (a +:+ b) = a +:+ stripANSI_from O b.
Proof.
  unfold free_of. induction a as [| c a IH]; cbn [all_chars]; [reflexivity |].
  intros H. apply andb_prop in H as [Hc Ha]. apply negb_true_iff in Hc.
  rewrite !append_String. cbn [stripANSI_from].
  rewrite csi_match_regular by exact Hc. rewrite IH by exact Ha. reflexivity.
Qed.

Lemma stripANSI_from_skip_letter (x b : string) (l : ascii) :
  stripANSI_from (S (String.length x)) (x +:+ String l b) = stripANSI_from O b.
Proof.
  induction x as [| c x IH]; [reflexivity |].
  rewrite append_String. cbn [String.length stripANSI_from]. exact IH.
Qed.

Lemma csi_tail_terminated (ps b : string) (l : ascii) :
  all_chars is_param ps = true -> is_letter l = true ->
  csi_tail (ps +:+ String l b) = Some (S (String.length ps)).
Proof.
  intros Hps Hl. induction ps as [| c ps IH].
  - rewrite append_nil_l. cbn. rewrite (is_letter_not_param l Hl), Hl. reflexivity.
  - cbn [all_chars] in Hps. apply andb_prop in Hps as [Hc Hps].
    rewrite append_String. cbn [csi_tail String.length]. rewrite Hc, IH by exact Hps.
    reflexivity.
Qed.

Lemma csi_tail_unterminated (ps : string) :
  all_chars is_param ps = true -> csi_tail ps = None.
Proof.
  induction ps as [| c ps IH]; [reflexivity |]. cbn [all_chars csi_tail].
  intros H. apply andb_prop in H as [Hc Hps]. rewrite Hc, IH by exact Hps. reflexivity.
Qed.

Lemma params_free_of_ESC (ps : string) :
  all_chars is_param ps = true -> free_of ESC ps = true.
Proof.
  unfold free_of. induction ps as [| c ps IH]; [reflexivity |]. cbn [all_chars].
  intros H. apply andb_prop in H as [Hc Hps].
  rewrite (is_param_not_ESC c Hc), IH by exact Hps. reflexivity.
Qed.

End AnsiText.

(** X5. [escapeForHTML] escapes each character exactly once and on its
    own: the ampersand, the two quotes, the angle brackets, the line feed
    and the carriage return become their escapes, every other character is
    kept, and the text an earlier replacement wrote is never escaped
    again. *)
Theorem escapeForHTML_escapes_each_character_once (c : ascii) (s : string) :
  escapeForHTML (String c s)
  = (if Ascii.eqb c "&" then "&amp;"
     else if Ascii.eqb c quote then "&#34;"
     else if Ascii.eqb c "'" then "&#39;"
     else if Ascii.eqb c "<" then "&lt;"
     else if Ascii.eqb c ">" then "&gt;"
     else if Ascii.eqb c LF then String backslash "n"
     else if Ascii.eqb c CR then String backslash "r"
     else str c) +:+ escapeForHTML s.
Proof.
  change (String c s) with (str c +:+ s). rewrite escapeForHTML_app. f_equal.
  destruct c as [[] [] [] [] [] [] [] []]; vm_compute; reflexivity.
Qed.

(** X6. What [escapeForHTML] returns holds no angle bracket, no double or
    single quote, no line feed and no carriage return, whatever it is
    given. *)
Theorem escapeForHTML_attribute_safe (s : string) :
  all_chars
    (fun c => negb (existsb (Ascii.eqb c) ["<"; ">"; quote; "'"; LF; CR]%char))
    (escapeForHTML s) = true.
Proof.
  induction s as [| c s IH]; [reflexivity |].
  change (String c s) with (str c +:+ s).
  rewrite escapeForHTML_app, all_chars_app, IH, andb_true_r.
  destruct c as [[] [] [] [] [] [] [] []]; vm_compute; reflexivity.
Qed.

(** X7. [convertANSIToHTML] returns a text without escape character,
    carriage return or line feed as it is. *)
Theorem convertANSIToHTML_plain_text (s : string) :
  all_chars (fun c => negb (Ascii.eqb c ESC || Ascii.eqb c CR || Ascii.eqb c LF)) s = true ->
  convertANSIToHTML s = s.
Proof.
  unfold convertANSIToHTML. induction s as [| c s IH]; [reflexivity |].
  cbn [all_chars]. intros H. apply andb_prop in H as [Hc Hs].
  apply negb_true_iff, orb_false_iff in Hc as [Hc Hlf].
  apply orb_false_iff in Hc as [Hesc Hcr].
  rewrite convert_from_regular by exact Hesc. rewrite Hcr, Hlf, IH by exact Hs.
  reflexivity.
Qed.

Lemma convertANSIToHTML_plain_text_witness :
  convertANSIToHTML "Hello world" = "Hello world".
Proof. apply (convertANSIToHTML_plain_text "Hello world"). reflexivity. Defined.

(** X8. What [convertANSIToHTML] returns holds no carriage return and no
    line feed, whatever it is given. *)
Theorem convertANSIToHTML_no_line_breaks (s : string) :
  all_chars (fun c => negb (Ascii.eqb c CR || Ascii.eqb c LF)) (convertANSIToHTML s) = true.
Proof. apply (convert_from_no_break_upto (String.length s)). lia. Qed.

(** X9. An escape sequence (the escape character, an opening bracket,
    characters other than letters, one letter) that follows a text [a]
    without escape character is replaced by what [convertSequenceToHTML]
    gives for it, nothing for a sequence it does not know; the text before
    and the text after are converted on their own. *)
Theorem convertANSIToHTML_sequence (a body b : string) (l : ascii) :
  free_of ESC a = true ->
  all_chars (fun c => negb (is_letter c)) body = true ->
  is_letter l = true ->
  convertANSIToHTML (a +:+ String ESC (String "[" (body +:+ String l b)))
  = convertANSIToHTML a +:+ convertSequenceToHTML (body +:+ str l) +:+ convertANSIToHTML b.
Proof.
  intros Ha Hbody Hl. unfold convertANSIToHTML.
  rewrite convert_from_app by exact Ha. f_equal.
  cbn [convertANSIToHTML_from]. rewrite Ascii.eqb_refl.
  change (Ascii.eqb ESC CR) with false. change (Ascii.eqb ESC LF) with false.
  cbn [andb]. rewrite convert_from_sequence by assumption. reflexivity.
Qed.

Lemma convertANSIToHTML_sequence_witness :
  convertANSIToHTML ("Text" +:+ String ESC (String "[" ("2" +:+ String "K" "Line")))
  = "TextLine".
Proof.
  apply (convertANSIToHTML_sequence "Text" "2" "Line" "K"); reflexivity.
Defined.

(** X10. An escape sequence that is never closed by a letter swallows the
    rest of the text: after the escape character and the opening bracket,
    nothing more is written. *)
Theorem convertANSIToHTML_unterminated_sequence (a body : string) :
  free_of ESC a = true ->
  all_chars (fun c => negb (is_letter c)) body = true ->
  convertANSIToHTML (a +:+ String ESC (String "[" body)) = convertANSIToHTML a.
Proof.
  intros Ha Hbody. unfold convertANSIToHTML.
  rewrite convert_from_app by exact Ha.
  cbn [convertANSIToHTML_from]. rewrite Ascii.eqb_refl.
  change (Ascii.eqb ESC CR) with false. change (Ascii.eqb ESC LF) with false.
  cbn [andb]. rewrite convert_from_unterminated by exact Hbody.
  rewrite append_nil_l, convertSequenceToHTML_no_letter by exact Hbody.
  apply append_nil_r.
Qed.

Lemma convertANSIToHTML_unterminated_sequence_witness :
  convertANSIToHTML ("12:30 " +:+ String ESC (String "[" "31;1 <- 42 + 7 = 49")) = "12:30 ".
Proof.
  apply (convertANSIToHTML_unterminated_sequence "12:30 " "31;1 <- 42 + 7 = 49");
    reflexivity.
Defined.

(** X11. [stripANSI] removes an escape sequence (the escape character, an
    opening bracket, digits and semicolons, one letter) that follows a text
    without escape character, and keeps that text; a sequence whose digits
    and semicolons run to the end of the text without a letter is left in
    place. *)
Theorem stripANSI_sequences (a ps b : string) (l : ascii) :
  free_of ESC a = true ->
  all_chars is_param ps = true ->
  is_letter l = true ->
  stripANSI (a +:+ String ESC (String "[" (ps +:+ String l b))) = a +:+ stripANSI b
  /\ stripANSI (a +:+ String ESC (String "[" ps)) = a +:+ String ESC (String "[" ps).
Proof.
  intros Ha Hps Hl. unfold stripANSI.
  rewrite !stripANSI_from_app by exact Ha. rewrite !stripANSI_from_ESC.
  rewrite csi_tail_terminated, csi_tail_unterminated by assumption.
  split; f_equal.
  - apply stripANSI_from_skip_letter.
  - do 2 f_equal. rewrite <- (append_nil_r ps) at 1.
    rewrite stripANSI_from_app by (apply params_free_of_ESC; exact Hps).
    apply append_nil_r.
Qed.

Lemma stripANSI_sequences_witness :
  stripANSI ("Before" +:+ String ESC (String "[" ("2" +:+ String "K" "Line"))) = "BeforeLine"
  /\ stripANSI ("Before" +:+ String ESC (String "[" "2"))
     = "Before" +:+ String ESC (String "[" "2").
Proof.
  apply (stripANSI_sequences "Before" "2" "Line" "K"); reflexivity.
Defined.

(** ** The trip handler *)

Section TripHandler.

Lemma Record_fold (ts : list trip.Trip) (h : trip.Handler) :
  let h' := fold_left trip.Record_ ts h in
  trip.trips h' = trip.trips h ++ List.filter (fun t => negb (trip.CanRecover t)) ts
  /\ trip.stumbles h' = trip.stumbles h ++ List.filter trip.CanRecover ts
  /\ trip.policy h' = trip.policy h
  /\ trip.component h' = trip.component h.
Proof.
  revert h. induction ts as [| t ts IH]; intros h; cbn.
  - rewrite !app_nil_r. auto.
  - destruct (IH (trip.Record_ h t)) as (Ht & Hs & Hp & Hc).
    rewrite Ht, Hs, Hp, Hc. unfold trip.Record_, trip.CanRecover.
    destruct (bool_decide (trip.trip_Severity t = trip.Stumble)); cbn;
      rewrite <- ?app_assoc; auto.
Qed.

Lemma existsb_IsFall_filter (ts : list trip.Trip) :
  existsb trip.IsFall (List.filter (fun t => negb (trip.CanRecover t)) ts)
  = existsb trip.IsFall ts.
Proof.
  induction ts as [| t ts IH]; [reflexivity |]. cbn [List.filter existsb].
  destruct (trip.CanRecover t) eqn:Hc; cbn [negb existsb].
  - assert (Hf : trip.IsFall t = false).
    { unfold trip.CanRecover, trip.IsFall in *.
      apply bool_decide_eq_true in Hc. rewrite Hc.
      apply bool_decide_eq_false. discriminate. }
    rewrite Hf. exact IH.
  - rewrite IH. reflexivity.
Qed.

Lemma ShouldContinue_Record_false (h : trip.Handler) (t : trip.Trip) :
  trip.ShouldContinue h = false -> trip.ShouldContinue (trip.Record_ h t) = false.
Proof.
  unfold trip.ShouldContinue, trip.Record_.
  destruct (bool_decide (trip.trip_Severity t = trip.Stumble)); cbn.
  - destruct (trip.StopOnFall (trip.policy h) && existsb trip.IsFall (trip.trips h));
      [reflexivity |].
    rewrite length_app. cbn.
    destruct (0 <? trip.MaxStumbles (trip.policy h)); cbn; [| discriminate].
    destruct (Z.ltb_spec (trip.MaxStumbles (trip.policy h))
                (Z.of_nat (length (trip.stumbles h)))); [| discriminate].
    intros _.
    destruct (Z.ltb_spec (trip.MaxStumbles (trip.policy h))
                (Z.of_nat (length (trip.stumbles h) + 1))); [reflexivity | lia].
  - rewrite existsb_app.
    destruct (trip.StopOnFall (trip.policy h)); cbn; [| auto].
    destruct (existsb trip.IsFall (trip.trips h)); cbn; [reflexivity |].
    destruct ((0 <? trip.MaxStumbles (trip.policy h))
              && (trip.MaxStumbles (trip.policy h) <? Z.of_nat (length (trip.stumbles h))));
      [| discriminate].
    intros _. destruct (trip.IsFall t || false); reflexivity.
Qed.

Lemma ShouldContinue_fold_false (ts : list trip.Trip) (h : trip.Handler) :
  trip.ShouldContinue h = false ->
  trip.ShouldContinue (fold_left trip.Record_ ts h) = false.
Proof.
  revert h. induction ts as [| t ts IH]; intros h Hh; [exact Hh |].
  cbn. apply IH, ShouldContinue_Record_false, Hh.
Qed.

End TripHandler.

(** X12. [Record] keeps the stumbles and the other trips apart and in the
    order they came: after any number of calls, [trips] has grown by the
    recorded trips that are no stumbles, [stumbles] by those that are. *)
Theorem Handler_Record_keeps_stumbles_apart (ts : list trip.Trip) (h : trip.Handler) :
  let h' := fold_left trip.Record_ ts h in
  trip.trips h' = trip.trips h ++ List.filter (fun t => negb (trip.CanRecover t)) ts
  /\ trip.stumbles h' = trip.stumbles h ++ List.filter trip.CanRecover ts.
Proof.
  intros h'. destruct (Record_fold ts h) as (Ht & Hs & _). split; assumption.
Qed.

(** X13. Under the default policy a handler says to continue exactly as
    long as no Fall was recorded and at most ten stumbles were: the
    eleventh stumble stops the testing, and trips of severity Error never
    do. *)
Theorem Handler_ShouldContinue_default_policy (comp : string) (ts : list trip.Trip) :
  trip.ShouldContinue (fold_left trip.Record_ ts (trip.NewHandler comp None))
  = negb (existsb trip.IsFall ts)
    && (length (List.filter trip.CanRecover ts) <=? 10)%nat.
Proof.
  destruct (Record_fold ts (trip.NewHandler comp None)) as (Ht & Hs & Hp & _).
  unfold trip.ShouldContinue. rewrite Ht, Hs, Hp. cbn [trip.NewHandler trip.trips
    trip.stumbles trip.policy trip.DefaultPolicy trip.StopOnFall trip.MaxStumbles app andb].
  rewrite existsb_IsFall_filter.
  destruct (existsb trip.IsFall ts); [reflexivity |]. cbn [negb andb].
  change (0 <? 10) with true. cbn [andb].
  destruct (Z.ltb_spec 10 (Z.of_nat (length (List.filter trip.CanRecover ts))));
    destruct (Nat.leb_spec (length (List.filter trip.CanRecover ts)) 10); try reflexivity; lia.
Qed.

(** X14. A handler that says to stop never says to continue again,
    whatever is recorded afterwards. *)
Theorem Handler_never_resumes (ts : list trip.Trip) (h : trip.Handler) :
  trip.ShouldContinue h = false ->
  trip.ShouldContinue (fold_left trip.Record_ ts h) = false.
Proof. apply ShouldContinue_fold_false. Qed.

Lemma Handler_never_resumes_witness :
  let fallen := trip.Record_ (trip.NewHandler "visual" None) (trip.NewFall "visual" "jam" ∅) in
  trip.ShouldContinue fallen = false
  /\ trip.ShouldContinue
       (fold_left trip.Record_ [trip.NewStumble "timing" "late" ∅; trip.NewTrip "system" "x" ∅]
          fallen) = false.
Proof.
  intros fallen. split; [reflexivity |].
  apply (Handler_never_resumes _ fallen). reflexivity.
Defined.

(** ** The accounting of the updates *)

Section Accounting.

Context {M : Type} `{!REPLModel M} `{!Fmt M}.

Implicit Types (d : StageDirector M).

Lemma synced_same d d' : sfields d' = sfields d -> synced d -> synced d'.
Proof.
  unfold sfields. intros [= Hc Hl Hu Hs Hp Hd Hb Hg Hdup]. unfold synced.
  rewrite Hc, Hl, Hu, Hs, Hp, Hd, Hb, Hg, Hdup. auto.
Qed.

Lemma sfields_recordTrip tr d : sfields (recordTrip tr d) = sfields d.
Proof.
  unfold recordTrip. cbv zeta.
  destruct (trip.CanRecover tr); cbn; destruct (t d); cbn;
    destruct (trip.IsFall tr); reflexivity.
Qed.

Lemma sfields_cancel d : sfields (if cancel d then set_ctxDone true d else d) = sfields d.
Proof. destruct (cancel d); reflexivity. Qed.

Lemma sfields_handleModelPanic r msg d : sfields (handleModelPanic r msg d) = sfields d.
Proof.
  unfold handleModelPanic. cbv zeta. rewrite sfields_cancel, sfields_recordTrip. reflexivity.
Qed.

Lemma sfields_handleInvalidModelState reason msg d :
  sfields (handleInvalidModelState reason msg d) = sfields d.
Proof.
  unfold handleInvalidModelState. cbv zeta.
  rewrite sfields_cancel, sfields_recordTrip. reflexivity.
Qed.

Lemma ascending_length lo seqs hi :
  ascending lo seqs hi -> lo + Z.of_nat (length seqs) <= hi.
Proof.
  revert lo. induction seqs as [| s seqs IH]; intros lo; cbn [ascending length].
  - lia.
  - intros [Hlt Hrest]. specialize (IH _ Hrest). lia.
Qed.

Lemma synced_publish (m : M) d :
  synced d -> updateSeq d < Int64.max_int64 ->
  synced (publish m d) /\ updateSeq (publish m d) = updateSeq d + 1.
Proof.
  intros (ch & Hch & Hcap & Hasc & Hmax & Hp & Hg & Hpg & Hdup & Hd & Hbo & Hseq & Hsent) Hlt.
  pose proof (ascending_length _ _ _ Hasc) as Hlen. rewrite length_map in Hlen.
  unfold publish. rewrite Hch.
  assert (Hs : Int64.AddInt64 (updateSeq d) 1 = updateSeq d + 1).
  { apply Int64_AddInt64_succ. int64_solve. }
  rewrite Hs.
  destruct (Nat.ltb_spec (length (chan_buf ch)) (chan_cap ch)) as [Hroom | Hfull].
  - cbn. rewrite Int64_AddInt64_succ by int64_solve. split; [| reflexivity].
    eexists. cbn. split; [reflexivity |]. cbn.
    rewrite length_app, map_app. cbn.
    repeat split; try assumption; try lia.
    apply ascending_snoc with (hi := updateSeq d); [exact Hasc | lia].
  - cbn. rewrite !Int64_AddInt64_succ by int64_solve. split; [| reflexivity].
    exists ch. cbn.
    repeat split; try assumption; try lia.
    apply ascending_hi with (hi := updateSeq d); [exact Hasc | lia].
Qed.

Lemma synced_consumer_step d :
  synced d -> synced (consumer_step d) /\ updateSeq (consumer_step d) = updateSeq d.
Proof.
  intros (ch & Hch & Hcap & Hasc & Hmax & Hp & Hg & Hpg & Hdup & Hd & Hbo & Hseq & Hsent).
  unfold consumer_step. rewrite Hch.
  destruct (chan_buf ch) as [| u rest] eqn:Hbuf.
  - split; [| reflexivity]. exists ch. rewrite Hbuf. cbn. repeat split; assumption.
  - cbn [map ascending length] in *. destruct Hasc as [Hlt Hasc].
    pose proof (ascending_length _ _ _ Hasc) as Hlen. rewrite length_map in Hlen.
    unfold syncModelUpdates_body. cbn.
    destruct (Z.leb_spec (mu_sequence u) (lastProcessedSeq d)); [lia |].
    rewrite (Int64_wrap_id (lastProcessedSeq d + 1)) by int64_solve.
    destruct (Z.gtb_spec (mu_sequence u) (lastProcessedSeq d + 1)); cbn;
      rewrite ?Int64_AddInt64_succ by int64_solve;
      (split; [| reflexivity]); eexists; cbn; (split; [reflexivity |]); cbn;
      repeat split; try assumption; try lia.
Qed.

Lemma synced_stageModelWrapper_Update w msg d :
  synced d -> updateSeq d < Int64.max_int64 ->
  let d' := snd (stageModelWrapper_Update w msg d) in
  synced d' /\ updateSeq d <= updateSeq d' <= updateSeq d + 1.
Proof.
  intros Hd Hlt. unfold stageModelWrapper_Update.
  destruct (Update (w_REPLModel w) msg) as [r | [| | m]], (w_director w); cbn [snd];
    try (split; [exact Hd | lia]).
  - pose proof (sfields_handleModelPanic r msg d) as Hf.
    split; [apply (synced_same d); assumption |].
    unfold sfields in Hf. injection Hf as _ _ -> _ _ _ _ _ _. lia.
  - pose proof (sfields_handleInvalidModelState "Update returned nil model" msg d) as Hf.
    split; [apply (synced_same d); assumption |].
    unfold sfields in Hf. injection Hf as _ _ -> _ _ _ _ _ _. lia.
  - pose proof (sfields_handleInvalidModelState "Update returned non-REPLModel" msg d) as Hf.
    split; [apply (synced_same d); assumption |].
    unfold sfields in Hf. injection Hf as _ _ -> _ _ _ _ _ _. lia.
  - destruct (synced_publish m d Hd Hlt) as [Hs Hu]. split; [exact Hs | lia].
Qed.

Lemma synced_program_step d :
  synced d -> updateSeq d < Int64.max_int64 ->
  synced (program_step d) /\ updateSeq d <= updateSeq (program_step d) <= updateSeq d + 1.
Proof.
  intros Hd Hlt. unfold program_step.
  destruct (program d) as [p |]; [| split; [exact Hd | lia]].
  destruct (p_quit p); [split; [exact Hd | lia] |].
  destruct (p_model p) as [w |]; [| split; [exact Hd | lia]].
  destruct (p_inbox p) as [| msg rest]; [split; [exact Hd | lia] |].
  destruct (bool_decide (msg = QuitMsg)).
  - split; [| cbn; lia]. apply (synced_same d); [reflexivity | exact Hd].
  - pose proof (synced_stageModelWrapper_Update w msg d Hd Hlt) as Hw.
    destruct (stageModelWrapper_Update w msg d) as [w' d1]. cbn [snd] in Hw.
    destruct Hw as [Hs Hu]. split; [| cbn; exact Hu].
    apply (synced_same d1); [reflexivity | exact Hs].
Qed.

Lemma synced_run_bg steps d :
  synced d -> updateSeq d + Z.of_nat (length steps) <= Int64.max_int64 ->
  synced (run_bg steps d)
  /\ updateSeq d <= updateSeq (run_bg steps d) <= updateSeq d + Z.of_nat (length steps).
Proof.
  revert d. induction steps as [| s steps IH]; intros d Hd Hroom.
  - cbn. split; [exact Hd | lia].
  - change (run_bg (s :: steps) d) with (run_bg steps (run_bg_step s d)).
    cbn [length] in *.
    assert (Hstep : synced (run_bg_step s d)
                    /\ updateSeq d <= updateSeq (run_bg_step s d) <= updateSeq d + 1).
    { destruct s; cbn [run_bg_step].
      - apply synced_program_step; [exact Hd | lia].
      - destruct (synced_consumer_step d Hd) as [Hs Hu]. split; [exact Hs | lia].
      - split; [| cbn; lia]. apply (synced_same d); [reflexivity | exact Hd]. }
    destruct Hstep as [Hs Hu].
    destruct (IH _ Hs) as [Hs' Hu']; [lia |]. split; [exact Hs' | lia].
Qed.

Lemma synced_new (tst : option TestingT) (m : option M) (cfg : StageConfig) :
  synced (NewStageDirectorWithConfig tst m cfg).
Proof.
  eexists. cbn. split; [reflexivity |]. cbn. unfold Int64.max_int64. repeat split; lia.
Qed.

End Accounting.

Section Instants.

Context {M : Type} `{!REPLModel M} `{!Fmt M}.

Implicit Types (d : StageDirector M) (r : racing (M := M)).

Lemma accounted_at_rest d : synced d -> accounted (at_rest d).
Proof.
  intros (ch & Hch & Hcap & Hasc & Hmax & Hp & Hg & Hpg & Hdup & Hd & Hbo & Hseq & Hsent).
  exists ch. cbn. rewrite Z.sub_0_r, !Z.add_0_r.
  repeat split; try assumption; lia.
Qed.

Lemma accounted_synced r :
  accounted r -> r_update r = UpdateIdle -> r_sync r = SyncIdle -> synced (r_director r).
Proof.
  intros (ch & Hch & Hcap & Hasc & Hu & Hs & Hmax & Hsent0 & Hp & Hg & Hd & Hdup & Hbo & Hseq
          & Hsent) Hupc Hspc.
  rewrite Hupc, Hspc in *. cbn in *. rewrite Z.sub_0_r in Hasc.
  exists ch. repeat split; try assumption; lia.
Qed.

Lemma floor_seq_bound r :
  accounted r ->
  let d := r_director r in
  updatesProcessed d + sequenceGaps d + held (r_sync r)
  <= floor_seq (r_sync r) (lastProcessedSeq d).
Proof.
  intros (ch & _ & _ & _ & _ & Hs & _). cbv zeta.
  destruct (r_sync r); cbn in *; lia.
Qed.

Lemma in_flight_sum (pc : update_pc (M := M)) :
  numbered pc = unsent pc + uncounted_send pc
  /\ numbered pc <= 1
  /\ 0 <= unsent pc /\ 0 <= uncounted_send pc <= 1
  /\ 0 <= counted_overflow pc <= unsent pc /\ unsent pc <= 1.
Proof. destruct pc; cbn; lia. Qed.

Lemma held_bounds (pc : sync_pc (M := M)) : 0 <= held pc <= 1.
Proof. destruct pc; cbn; lia. Qed.

Lemma accounted_enter_update (m : M) r :
  accounted r -> updateSeq (r_director r) < Int64.max_int64 ->
  accounted (enter_update m r)
  /\ updateSeq (r_director (enter_update m r)) <= updateSeq (r_director r) + 1.
Proof.
  intros Hacc Hlt. pose proof Hacc as Hkeep.
  destruct Hacc as (ch & Hch & Hcap & Hasc & Hu & Hs & Hmax & Hsent0 & Hp & Hg & Hd & Hdup
                    & Hbo & Hseq & Hsent).
  unfold enter_update. cbv zeta. rewrite Hch.
  destruct (r_update r) eqn:Hpc; try (split; [exact Hkeep | lia]).
  cbn in Hasc, Hbo, Hseq, Hsent.
  rewrite Int64_AddInt64_succ by int64_solve.
  split; [| cbn; lia].
  exists ch. cbn.
  replace (updateSeq (r_director r) + 1 - 1) with (updateSeq (r_director r) - 0) by lia.
  repeat split; try assumption; try lia.
Qed.

Lemma accounted_update_step r :
  accounted r ->
  accounted (update_step r)
  /\ updateSeq (r_director (update_step r)) = updateSeq (r_director r).
Proof.
  intros Hacc. pose proof Hacc as Hkeep.
  destruct Hacc as (ch & Hch & Hcap & Hasc & Hu & Hs & Hmax & Hsent0 & Hp & Hg & Hd & Hdup
                    & Hbo & Hseq & Hsent).
  pose proof (held_bounds (r_sync r)) as Hheld.
  unfold update_step. cbv zeta.
  destruct (r_update r) as [| u | | |] eqn:Hpc; cbn in Hasc, Hu, Hbo, Hseq, Hsent.
  - split; [exact Hkeep | reflexivity].
  - rewrite Hch.
    destruct (Nat.ltb_spec (length (chan_buf ch)) (chan_cap ch)) as [Hroom | Hfull].
    + split; [| reflexivity]. eexists. cbn. split; [reflexivity |]. cbn.
      rewrite length_app, map_app. cbn.
      repeat split; try assumption; try lia.
      rewrite Z.sub_0_r, <- Hu.
      apply ascending_snoc with (hi := updateSeq (r_director r) - 1); [exact Hasc | lia].
    + split; [| reflexivity]. exists ch. cbn. repeat split; try assumption; lia.
  - rewrite Int64_AddInt64_succ by int64_solve.
    split; [| reflexivity]. exists ch. cbn. repeat split; try assumption; lia.
  - rewrite Int64_AddInt64_succ by int64_solve.
    split; [| reflexivity]. exists ch. cbn. repeat split; try assumption; lia.
  - rewrite Int64_AddInt64_succ by int64_solve.
    split; [| reflexivity]. exists ch. cbn. repeat split; try assumption; try lia.
    apply ascending_hi with (hi := updateSeq (r_director r) - 1); [exact Hasc | lia].
Qed.

Lemma accounted_sync_step r :
  accounted r ->
  accounted (sync_step r)
  /\ updateSeq (r_director (sync_step r)) = updateSeq (r_director r).
Proof.
  intros Hacc. pose proof Hacc as Hkeep.
  destruct Hacc as (ch & Hch & Hcap & Hasc & Hu & Hs & Hmax & Hsent0 & Hp & Hg & Hd & Hdup
                    & Hbo & Hseq & Hsent).
  pose proof (in_flight_sum (r_update r)) as Hfl.
  pose proof (ascending_le _ _ _ Hasc) as Hle.
  unfold sync_step. cbv zeta.
  destruct (r_sync r) as [| u | u cur | u | u |] eqn:Hpc; cbn in Hasc, Hs, Hsent, Hle.
  - rewrite Hch. destruct (chan_buf ch) as [| u rest] eqn:Hbuf.
    + split; [exact Hkeep | reflexivity].
    + cbn [map ascending length] in *. destruct Hasc as [Hlt Hasc].
      split; [| reflexivity]. eexists. cbn. split; [reflexivity |]. cbn.
      assert (Hfacts : update_facts (r_update r)
                (set_modelChan (Some {| chan_buf := rest; chan_cap := chan_cap ch |})
                   (r_director r)))
        by (destruct (r_update r); exact Hu).
      repeat split; try assumption; lia.
  - split; [| reflexivity]. exists ch. cbn. repeat split; try assumption; try lia; tauto.
  - destruct Hs as (-> & Hpg & Hlt).
    destruct (Z.leb_spec (mu_sequence u) (lastProcessedSeq (r_director r))); [lia |].
    rewrite (Int64_wrap_id (lastProcessedSeq (r_director r) + 1)) by int64_solve.
    destruct (Z.gtb_spec (mu_sequence u) (lastProcessedSeq (r_director r) + 1)).
    + rewrite Int64_AddInt64_succ by int64_solve.
      split; [| reflexivity]. exists ch. cbn.
      assert (Hfacts : update_facts (r_update r)
                (set_sequenceGaps (sequenceGaps (r_director r) + 1) (r_director r)))
        by (destruct (r_update r); exact Hu).
      repeat split; try assumption; lia.
    + split; [| reflexivity]. exists ch. cbn. repeat split; try assumption; lia.
  - split; [| reflexivity]. exists ch. cbn.
    assert (Hfacts : update_facts (r_update r)
              (set_latestModel (Some (mu_model u)) (r_director r)))
      by (destruct (r_update r); exact Hu).
    repeat split; try assumption; lia.
  - split; [| reflexivity]. exists ch. cbn.
    assert (Hfacts : update_facts (r_update r)
              (set_lastProcessedSeq (mu_sequence u) (r_director r)))
      by (destruct (r_update r); exact Hu).
    repeat split; try assumption; lia.
  - rewrite Int64_AddInt64_succ by int64_solve.
    split; [| reflexivity]. exists ch. cbn.
    assert (Hfacts : update_facts (r_update r)
              (set_updatesProcessed (updatesProcessed (r_director r) + 1) (r_director r)))
      by (destruct (r_update r); exact Hu).
    repeat split; try assumption; lia.
Qed.

Lemma accounted_run_micro steps r :
  accounted r ->
  updateSeq (r_director r) + Z.of_nat (length steps) <= Int64.max_int64 ->
  accounted (run_micro steps r).
Proof.
  revert r. induction steps as [| s steps IH]; intros r Hacc Hroom; [exact Hacc |].
  change (run_micro (s :: steps) r) with (run_micro steps (micro_step s r)).
  cbn [length] in Hroom.
  assert (Hstep : accounted (micro_step s r)
                  /\ updateSeq (r_director (micro_step s r))
                     <= updateSeq (r_director r) + 1).
  { destruct s as [m | |]; cbn [micro_step].
    - apply accounted_enter_update; [exact Hacc | lia].
    - destruct (accounted_update_step r Hacc) as [Ha He]. split; [exact Ha | lia].
    - destruct (accounted_sync_step r Hacc) as [Ha He]. split; [exact Ha | lia]. }
  destruct Hstep as [Ha Hu]. apply IH; [exact Ha | lia].
Qed.

(** Left alone, the operations of a send make up [publish]. *)
Lemma run_micro_publish (m : M) d :
  run_micro [EnterUpdate m; UpdateStep; UpdateStep; UpdateStep] (at_rest d)
  = at_rest (publish m d).
Proof.
  unfold publish. cbn [run_micro fold_left micro_step].
  unfold enter_update, at_rest. cbn [r_director r_update r_sync].
  destruct (modelChan d) as [ch |] eqn:Hch; [| reflexivity].
  unfold update_step at 3. cbn [r_director r_update r_sync]. cbn [modelChan set_updateSeq].
  rewrite Hch.
  destruct (length (chan_buf ch) <? chan_cap ch)%nat; reflexivity.
Qed.

(** Left alone, the operations of the consumer make up [consumer_step]. *)
Lemma run_micro_consumer_step d :
  exists n, (n <= 6)%nat
    /\ run_micro (repeat SyncStep n) (at_rest d) = at_rest (consumer_step d).
Proof.
  unfold consumer_step.
  destruct (modelChan d) as [ch |] eqn:Hch; [| exists 0%nat; split; [lia | reflexivity]].
  destruct (chan_buf ch) as [| u rest] eqn:Hbuf; [exists 0%nat; split; [lia | reflexivity] |].
  unfold syncModelUpdates_body. cbv zeta.
  destruct (mu_sequence u <=? lastProcessedSeq d) eqn:Hdup.
  - exists 3%nat. split; [lia |].
    cbn [repeat run_micro fold_left micro_step].
    unfold sync_step at 3, at_rest. cbn [r_director r_update r_sync]. rewrite Hch, Hbuf.
    unfold sync_step at 2. cbn [r_director r_update r_sync].
    unfold sync_step. cbn [r_director r_update r_sync].
    cbn [lastProcessedSeq set_modelChan]. rewrite Hdup. reflexivity.
  - exists 6%nat. split; [lia |].
    cbn [repeat run_micro fold_left micro_step].
    unfold sync_step at 6, at_rest. cbn [r_director r_update r_sync]. rewrite Hch, Hbuf.
    unfold sync_step at 5. cbn [r_director r_update r_sync].
    unfold sync_step at 4. cbn [r_director r_update r_sync].
    cbn [lastProcessedSeq set_modelChan]. rewrite Hdup.
    destruct (mu_sequence u >? Int64.wrap (lastProcessedSeq d + 1)); reflexivity.
Qed.

End Instants.

(** X15. At every instant of every interleaving of the single operations
    of the program's send and of the consumer, as long as the sequence
    numbers have room, the counters account for the updates up to what is
    in flight: the number given out last is counted as sent or dropped, or
    is the one update the program's goroutine is still sending; an
    overflow is counted at most one operation before its drop; what was
    sent is queued or processed, up to the update being queued and the
    update the consumer holds; the queue stays within its capacity; no
    update is taken for a duplicate; the consumer has seen at most as many
    gaps as updates were dropped; and [HasDroppedUpdates] says whether an
    overflow was counted.  When neither goroutine is in the middle of its
    operations the counters agree exactly ([synced]).  Left alone, the
    operations of a send amount to [publish], those of the consumer to
    [consumer_step].  (This is about the counters at one instant; a
    reader that loads them one after the other, as
    [GetSynchronizationStats] does, puts together values of different
    instants.  [ResetMetrics] is not among the operations.) *)
Theorem updates_accounted_at_every_instant {M : Type} `{!REPLModel M} `{!Fmt M}
    (d : StageDirector M) (steps : list micro) :
  synced d ->
  updateSeq d + Z.of_nat (length steps) <= Int64.max_int64 ->
  let r := run_micro steps (at_rest d) in
  let d' := r_director r in
  accounted r
  /\ (exists ch, modelChan d' = Some ch
       /\ (length (chan_buf ch) <= chan_cap ch)%nat
       /\ Z.of_nat (length (chan_buf ch)) + updatesProcessed d' - 1
          <= updatesSent d'
          <= Z.of_nat (length (chan_buf ch)) + updatesProcessed d' + 1)
  /\ updatesSent d' + droppedUpdates d'
     <= updateSeq d'
     <= updatesSent d' + droppedUpdates d' + 1
  /\ droppedUpdates d' <= bufferOverflows d' <= droppedUpdates d' + 1
  /\ duplicateUpdates d' = 0
  /\ sequenceGaps d' <= droppedUpdates d'
  /\ HasDroppedUpdates d' = (0 <? bufferOverflows d')
  /\ (r_update r = UpdateIdle -> r_sync r = SyncIdle ->
      synced d' /\ HasDroppedUpdates d' = (0 <? droppedUpdates d'))
  /\ (forall (m : M) (d0 : StageDirector M),
        run_micro [EnterUpdate m; UpdateStep; UpdateStep; UpdateStep] (at_rest d0)
        = at_rest (publish m d0))
  /\ (forall d0 : StageDirector M, exists n, (n <= 6)%nat
        /\ run_micro (repeat SyncStep n) (at_rest d0) = at_rest (consumer_step d0)).
Proof.
  intros Hd Hroom r d'.
  pose proof (accounted_run_micro steps (at_rest d) (accounted_at_rest d Hd) Hroom) as Hacc.
  fold r in Hacc. split; [exact Hacc |].
  pose proof (floor_seq_bound r Hacc) as Hfloor. cbv zeta in Hfloor.
  pose proof (accounted_synced r Hacc) as Hrest.
  destruct Hacc as (ch & Hch & Hcap & Hasc & Hu & Hs & Hmax & Hsent0 & Hp & Hg & Hdr & Hdup
                    & Hbo & Hseq & Hsent).
  subst d'. generalize dependent (r_director r). intros d'. intros.
  pose proof (in_flight_sum (r_update r)) as Hfl.
  pose proof (held_bounds (r_sync r)) as Hheld.
  pose proof (ascending_length _ _ _ Hasc) as Hlen. rewrite length_map in Hlen.
  assert (Hgaps : sequenceGaps d' <= droppedUpdates d') by lia.
  assert (Hhas : HasDroppedUpdates d' = (0 <? bufferOverflows d')).
  { unfold HasDroppedUpdates.
    destruct (Z.ltb_spec 0 (droppedUpdates d')), (Z.ltb_spec 0 (bufferOverflows d')),
      (Z.ltb_spec 0 (sequenceGaps d')); cbn; try reflexivity; lia. }
  split; [exists ch; split; [exact Hch | split; [exact Hcap | lia]] |].
  split; [lia |]. split; [lia |]. split; [exact Hdup |]. split; [exact Hgaps |].
  split; [exact Hhas |].
  split.
  { intros Hupc Hspc. split; [apply Hrest; assumption |].
    rewrite Hhas, Hbo, Hupc. cbn. rewrite Z.add_0_r. reflexivity. }
  split; [intros m d0; apply run_micro_publish | intros d0; apply run_micro_consumer_step].
Qed.

(** The fifty-first update of a program whose consumer has not run yet,
    between the count of the overflow and the count of the drop. *)
Lemma updates_accounted_at_every_instant_witness :
  let d := NewStageDirector (Some newT) (Some NewMockREPL) in
  let send := [EnterUpdate NewMockREPL; UpdateStep; UpdateStep] in
  let r := run_micro (concat (repeat send 50) ++ send) (at_rest d) in
  let d' := r_director r in
  r_update r = UpdateOverflowCounted
  /\ updateSeq d' = 51 /\ updatesSent d' = 50
  /\ bufferOverflows d' = 1 /\ droppedUpdates d' = 0
  /\ duplicateUpdates d' = 0
  /\ sequenceGaps d' <= droppedUpdates d'
  /\ HasDroppedUpdates d' = (0 <? bufferOverflows d').
Proof.
  intros d send r d'.
  destruct (updates_accounted_at_every_instant d (concat (repeat send 50) ++ send))
    as (_ & _ & _ & _ & Hdup & Hgaps & Hhas & _).
  - apply synced_new.
  - vm_compute. discriminate.
  - split; [vm_compute; reflexivity |].
    split; [vm_compute; reflexivity |]. split; [vm_compute; reflexivity |].
    split; [vm_compute; reflexivity |]. split; [vm_compute; reflexivity |].
    split; [exact Hdup | split; [exact Hgaps | exact Hhas]].
Defined.

(** X16. [ResetMetrics] called while an update is queued makes the
    consumer discard the update that follows: it applies the queued update,
    whose sequence number is then ahead of the counter that starts again
    from zero, so the next update the program publishes gets the number 1
    and is counted as a duplicate, with nothing counted as dropped;
    [latestModel] is not written again and still holds the model the queued
    update carried.  (With a model handled by value, as [SimpleREPL], that
    is a state the program has left behind.) *)
Theorem ResetMetrics_with_update_in_flight {M : Type} `{!REPLModel M} `{!Fmt M}
    (d : StageDirector M) (u : modelUpdate M) (capacity : nat) (m' : M) :
  modelChan d = Some {| chan_buf := [u]; chan_cap := capacity |} ->
  (1 <= capacity)%nat ->
  1 <= mu_sequence u ->
  let d1 := consumer_step (ResetMetrics d) in
  let d2 := consumer_step (publish m' d1) in
  latestModel d1 = Some (mu_model u)
  /\ latestModel d2 = Some (mu_model u)
  /\ updateSeq d2 = 1
  /\ updatesSent d2 = 1
  /\ duplicateUpdates d2 = 1
  /\ droppedUpdates d2 = 0
  /\ bufferOverflows d2 = 0.
Proof.
  intros Hch Hcap Hseq.
  assert (Hreset : modelChan (ResetMetrics d) = modelChan d
                   /\ lastProcessedSeq (ResetMetrics d) = 0
                   /\ updateSeq (ResetMetrics d) = 0
                   /\ updatesSent (ResetMetrics d) = 0
                   /\ duplicateUpdates (ResetMetrics d) = 0
                   /\ droppedUpdates (ResetMetrics d) = 0
                   /\ bufferOverflows (ResetMetrics d) = 0)
    by (repeat split; reflexivity).
  generalize dependent (ResetMetrics d). intros d0 (Hc0 & Hl0 & Hu0 & Hs0 & Hd0 & Hdr0 & Hb0).
  rewrite Hch in Hc0. intros d1 d2.
  assert (H1 : latestModel d1 = Some (mu_model u)
               /\ lastProcessedSeq d1 = mu_sequence u
               /\ modelChan d1 = Some {| chan_buf := []; chan_cap := capacity |}
               /\ updateSeq d1 = 0 /\ updatesSent d1 = 0 /\ duplicateUpdates d1 = 0
               /\ droppedUpdates d1 = 0 /\ bufferOverflows d1 = 0).
  { subst d1. unfold consumer_step. rewrite Hc0. cbn [chan_buf chan_cap].
    unfold syncModelUpdates_body. cbn [lastProcessedSeq set_modelChan].
    rewrite Hl0. destruct (Z.leb_spec (mu_sequence u) 0); [lia |].
    destruct (mu_sequence u >? Int64.wrap (0 + 1)); cbn; auto 10. }
  clearbody d1. destruct H1 as (Hl1 & Hp1 & Hc1 & Hu1 & Hs1 & Hd1 & Hdr1 & Hb1).
  split; [exact Hl1 |].
  subst d2. rewrite (publish_room m' d1 _ Hc1) by (cbn; lia).
  unfold consumer_step. cbn [modelChan set_updatesSent set_modelChan chan_buf chan_cap app].
  rewrite body_duplicate.
  - cbn. rewrite Hl1, Hu1, Hs1, Hd1, Hdr1, Hb1. repeat split; reflexivity.
  - cbn. rewrite Hu1, Hp1. change (Int64.AddInt64 0 1) with 1. exact Hseq.
Qed.

Lemma ResetMetrics_with_update_in_flight_witness :
  let d := run_bg [ProgramStep]
             (Type_ "a" []
                (Start {| sleeps := [[]]; tie := TimerCase |}
                   (NewStageDirector (Some newT) (Some NewSimpleREPL)))) in
  let typed_a := {| sr_input := "a"; sr_output := ""; sr_mode := "input" |} in
  let typed_ab := {| sr_input := "ab"; sr_output := ""; sr_mode := "input" |} in
  let d2 := consumer_step (publish typed_ab (consumer_step (ResetMetrics d))) in
  getCurrentInput d2 = "a" /\ duplicateUpdates d2 = 1 /\ droppedUpdates d2 = 0.
Proof.
  intros d typed_a typed_ab d2.
  destruct (ResetMetrics_with_update_in_flight d
              {| mu_model := typed_a; mu_sequence := 1 |} 50 typed_ab)
    as (_ & Hl & _ & _ & Hdup & Hdr & _).
  - vm_compute. reflexivity.
  - clear. lia.
  - clear. cbn. lia.
  - split; [| split; [exact Hdup | exact Hdr]].
    unfold getCurrentInput, d2. rewrite Hl. reflexivity.
Defined.

(** ** The configuration after [Start] *)

Section Frozen.

Context {M : Type} `{!REPLModel M} `{!Fmt M}.

Implicit Types (d : StageDirector M).

Lemma cframe_recordTrip tr d : cframe (recordTrip tr d) = cframe d.
Proof.
  unfold recordTrip. cbv zeta.
  destruct (trip.CanRecover tr); cbn; destruct (t d); cbn;
    destruct (trip.IsFall tr); reflexivity.
Qed.

Lemma cframe_cancel d : cframe (if cancel d then set_ctxDone true d else d) = cframe d.
Proof. destruct (cancel d); reflexivity. Qed.

Lemma cframe_captureSnapshot d : cframe (captureSnapshot d) = cframe d.
Proof. unfold captureSnapshot. destruct (negb (CaptureViews (config d))); reflexivity. Qed.

Lemma cframe_stageModelWrapper_Update w msg d :
  cframe (snd (stageModelWrapper_Update w msg d)) = cframe d.
Proof.
  unfold stageModelWrapper_Update.
  destruct (Update (w_REPLModel w) msg) as [r | [| | m]], (w_director w);
    cbn [snd]; try reflexivity.
  - unfold handleModelPanic. cbv zeta. rewrite cframe_cancel, cframe_recordTrip.
    reflexivity.
  - unfold handleInvalidModelState. cbv zeta. rewrite cframe_cancel, cframe_recordTrip.
    reflexivity.
  - unfold handleInvalidModelState. cbv zeta. rewrite cframe_cancel, cframe_recordTrip.
    reflexivity.
  - unfold publish. destruct (modelChan d) as [ch |]; [| reflexivity].
    destruct (length (chan_buf ch) <? chan_cap ch)%nat; reflexivity.
Qed.

Lemma cframe_program_step d : cframe (program_step d) = cframe d.
Proof.
  unfold program_step. destruct (program d) as [p |]; [| reflexivity].
  destruct (p_quit p); [reflexivity |].
  destruct (p_model p) as [w |]; [| reflexivity].
  destruct (p_inbox p) as [| msg rest]; [reflexivity |].
  destruct (bool_decide (msg = QuitMsg)); [reflexivity |].
  pose proof (cframe_stageModelWrapper_Update w msg d) as Hw.
  destruct (stageModelWrapper_Update w msg d) as [w' d1]. exact Hw.
Qed.

Lemma cframe_consumer_step d : cframe (consumer_step d) = cframe d.
Proof.
  unfold consumer_step. destruct (modelChan d) as [ch |]; [| reflexivity].
  destruct (chan_buf ch) as [| u rest]; [reflexivity |].
  unfold syncModelUpdates_body. cbn.
  destruct (mu_sequence u <=? lastProcessedSeq d); [reflexivity |].
  destruct (mu_sequence u >? Int64.wrap (lastProcessedSeq d + 1)); reflexivity.
Qed.

Lemma cframe_run_bg steps d : cframe (run_bg steps d) = cframe d.
Proof.
  revert d. induction steps as [| s steps IH]; intros d; [reflexivity |].
  change (run_bg (s :: steps) d) with (run_bg steps (run_bg_step s d)).
  rewrite IH. destruct s; cbn;
    [apply cframe_program_step | apply cframe_consumer_step | reflexivity].
Qed.

Lemma cframe_pollUntil pred sl tiebreak d :
  cframe (snd (pollUntil pred sl tiebreak d)) = cframe d.
Proof.
  revert d. induction sl as [| during rest IH]; intros d; cbn.
  - destruct (ctxDone d); reflexivity.
  - destruct (ctxDone d); [reflexivity |]. destruct (pred d); [reflexivity |].
    rewrite IH. apply cframe_run_bg.
Qed.

Lemma cframe_wait pred sl tiebreak (mk : StageDirector M -> trip.Trip) d :
  cframe (match pollUntil pred sl tiebreak d with
          | (TimedOut, d1) => recordTrip (mk d1) d1
          | (_, d1) => d1
          end) = cframe d.
Proof.
  pose proof (cframe_pollUntil pred sl tiebreak d) as Hp.
  destruct (pollUntil pred sl tiebreak d) as [[] d1]; cbn [snd] in Hp;
    rewrite ?cframe_recordTrip; exact Hp.
Qed.

Lemma cframe_sendMessage msg sched d : cframe (sendMessage msg sched d) = cframe d.
Proof.
  unfold sendMessage. destruct (program d) as [p |]; [| reflexivity].
  cbv zeta. rewrite cframe_captureSnapshot. unfold waitForViewChange.
  rewrite cframe_pollUntil. reflexivity.
Qed.

Lemma cframe_recordStageAction a v d : cframe (recordStageAction a v d) = cframe d.
Proof. reflexivity. Qed.

Lemma cframe_Type text scheds d : cframe (Type_ text scheds d) = cframe d.
Proof.
  unfold Type_. generalize (runes text) as chars. intros chars.
  revert scheds d. induction chars as [| c chars IH]; intros scheds d; [reflexivity |].
  cbn [Type_loop]. cbv zeta. rewrite IH.
  match goal with |- cframe (if ?b then _ else _) = _ => destruct b end;
    rewrite ?cframe_run_bg, cframe_recordStageAction; apply cframe_sendMessage.
Qed.

Lemma cframe_Wait duration during d : cframe (Wait duration during d) = cframe d.
Proof.
  unfold Wait. rewrite cframe_captureSnapshot, cframe_recordStageAction.
  apply cframe_run_bg.
Qed.

Lemma cframe_PressBackspace sched d : cframe (PressBackspace sched d) = cframe d.
Proof. unfold PressBackspace. rewrite cframe_recordStageAction. apply cframe_sendMessage. Qed.

Lemma cframe_ClearInput_loop n scheds d : cframe (ClearInput_loop n scheds d) = cframe d.
Proof.
  revert scheds d. induction n as [| n IH]; intros scheds d; [reflexivity |].
  cbn [ClearInput_loop]. cbv zeta. rewrite IH.
  match goal with |- cframe (if ?b then _ else _) = _ => destruct b end;
    rewrite ?cframe_Wait; apply cframe_PressBackspace.
Qed.

Lemma cframe_Stop d : cframe (snd (Stop d)) = cframe d.
Proof.
  unfold Stop. cbv zeta. cbn [snd].
  destruct (CaptureViews (config d) && started d); cbn;
    destruct (cancel d); cbn;
    destruct (program d); reflexivity.
Qed.

Lemma cframe_run_op o d d' :
  started d = true -> run_op o d = Some d' -> cframe d' = cframe d.
Proof.
  intros Hs. destruct o; cbn [run_op]; try (intros [= <-]).
  - unfold WithTimeout. rewrite Hs. reflexivity.
  - unfold WithViewCapture. rewrite Hs. reflexivity.
  - unfold Start. rewrite Hs. reflexivity.
  - apply cframe_Stop.
  - apply cframe_Type.
  - unfold PressEnter. rewrite cframe_recordStageAction. apply cframe_sendMessage.
  - unfold PressTab. rewrite cframe_recordStageAction. apply cframe_sendMessage.
  - unfold PressArrowDown. rewrite cframe_recordStageAction. apply cframe_sendMessage.
  - unfold PressArrowUp. rewrite cframe_recordStageAction. apply cframe_sendMessage.
  - unfold PressEscape. rewrite cframe_recordStageAction. apply cframe_sendMessage.
  - apply cframe_PressBackspace.
  - apply cframe_ClearInput_loop.
  - apply cframe_Wait.
  - unfold WaitForMode. destruct (failed d); [reflexivity |].
    apply (cframe_wait _ _ _ (fun d1 => newStageTrip _ _ _)).
  - unfold WaitForSearchResults. destruct (failed d); [reflexivity |].
    apply (cframe_wait _ _ _ (fun d1 => newStageTrip _ _ _)).
  - unfold WaitForText. destruct (failed d); [reflexivity |].
    apply (cframe_wait _ _ _ (fun d1 => newStageTrip _ _ _)).
  - unfold AssertViewContains. cbv zeta.
    destruct (negb _); [apply cframe_recordTrip | reflexivity].
  - unfold AssertMode. cbv zeta.
    destruct (negb _); [apply cframe_recordTrip | reflexivity].
  - unfold AssertInputEquals. cbv zeta.
    destruct (negb _); [apply cframe_recordTrip | reflexivity].
  - unfold AssertNoSearchResults. destruct (latestModel d) as [m |]; [| discriminate].
    destruct (CheckCondition m "search_results"); intros [= <-];
      [apply cframe_recordTrip | reflexivity].
  - apply cframe_recordTrip.
  - apply cframe_recordTrip.
  - reflexivity.
  - apply cframe_run_bg.
Qed.

End Frozen.

(** X17. Once a director is started, no call of a session changes its
    configuration or clears the started flag: [WithTimeout] and
    [WithViewCapture] are ignored, a second [Start] does nothing, and
    nothing else writes them. *)
Theorem configuration_frozen_once_started {M : Type} `{!REPLModel M} `{!Fmt M}
    (ops : list op) (d d' : StageDirector M) :
  started d = true ->
  run ops d = Some d' ->
  config d' = config d /\ started d' = true.
Proof.
  revert d. induction ops as [| o ops IH]; intros d Hs; cbn [run].
  - intros [= <-]. auto.
  - destruct (run_op o d) as [d1 |] eqn:Ho; [| discriminate].
    pose proof (cframe_run_op o d d1 Hs Ho) as Hf. unfold cframe in Hf.
    injection Hf as Hc Hst. rewrite Hs in Hst.
    intros Hrun. destruct (IH d1 Hst Hrun) as [Hc' Hs']. split; congruence.
Qed.

Lemma configuration_frozen_once_started_witness :
  let d := Start {| sleeps := [[]]; tie := TimerCase |}
             (NewStageDirector (Some newT) (Some NewMockREPL)) in
  exists d',
    run [OpWithTimeout (5 * second); OpWithViewCapture false; OpType "a" []; OpStop] d
    = Some d'
    /\ config d' = DefaultStageConfig /\ started d' = true.
Proof.
  intros d. eexists. split; [vm_compute; reflexivity |].
  match goal with
  | |- config ?x = _ /\ _ =>
      destruct (configuration_frozen_once_started
                  [OpWithTimeout (5 * second); OpWithViewCapture false; OpType "a" []; OpStop]
                  d x) as [Hc Hs]
  end.
  - vm_compute. reflexivity.
  - vm_compute. reflexivity.
  - split; [rewrite Hc; vm_compute; reflexivity | exact Hs].
Defined.

(** ** [Start] without a model *)

Section StartProperties.

Context {M : Type} `{!REPLModel M} `{!Fmt M}.

Implicit Types (d : StageDirector M).

Lemma inert_run_bg steps d :
  inert d -> run_bg steps d = d \/ run_bg steps d = set_ctxDone true d.
Proof.
  revert d. induction steps as [| s steps IH]; intros d Hd; [left; reflexivity |].
  change (run_bg (s :: steps) d) with (run_bg steps (run_bg_step s d)).
  assert (Hstep : run_bg_step s d = d \/ run_bg_step s d = set_ctxDone true d).
  { destruct Hd as (_ & (p & Hp & Hm) & (ch & Hch & Hbuf)).
    destruct s; cbn [run_bg_step]; [left | left | right; reflexivity].
    - unfold program_step. rewrite Hp. destruct (p_quit p); [reflexivity |].
      rewrite Hm. reflexivity.
    - unfold consumer_step. rewrite Hch, Hbuf. reflexivity. }
  destruct Hstep as [-> | ->].
  - apply IH, Hd.
  - destruct (IH (set_ctxDone true d)) as [-> | ->]; [exact Hd | right .. ]; reflexivity.
Qed.

Lemma inert_waitForProgramReady_loop i sl tiebreak d :
  inert d ->
  exists err d2,
    waitForProgramReady_loop i sl tiebreak d = (Some err, d2)
    /\ (d2 = d \/ d2 = set_ctxDone true d).
Proof.
  revert sl d. induction i as [| i IH]; intros sl d Hd; cbn [waitForProgramReady_loop].
  - eauto.
  - destruct sl as [| during rest].
    + destruct (ctxDone d); [destruct tiebreak |]; eauto.
    + destruct (ctxDone d); [eauto |].
      assert (Hview : (0 <? len (getCurrentView d)) = false).
      { unfold getCurrentView. destruct Hd as (-> & _). reflexivity. }
      rewrite Hview.
      destruct (inert_run_bg during d Hd) as [-> | ->].
      * apply IH, Hd.
      * destruct (IH rest (set_ctxDone true d)) as (err & d2 & Hloop & Hd2); [exact Hd |].
        exists err, d2. split; [exact Hloop |]. right.
        destruct Hd2 as [-> | ->]; reflexivity.
Qed.

End StartProperties.

(** X18. [Start] on a fresh director made with a [t] but without a model
    fails under every schedule: the director is not started, it is failed,
    the one trip is STARTUP_FAILED of severity Error with the error text in
    its context, no snapshot was taken, and [Stop] reports no success. *)
Theorem Start_without_model_fails {M : Type} `{!REPLModel M} `{!Fmt M}
    (tst : TestingT) (cfg : StageConfig) (sched : wait_schedule) :
  let d' := Start sched (NewStageDirectorWithConfig (M := M) (Some tst) None cfg) in
  started d' = false
  /\ failed d' = true
  /\ (exists tr,
        lastTrip d' = Some tr
        /\ trip.trips (tripHandler d') = [tr]
        /\ trip.trip_Type tr = "STARTUP_FAILED"
        /\ trip.trip_Severity tr = trip.Error
        /\ trip.GetContext tr "error" = Some (VString (trip.trip_Message tr)))
  /\ snapshots d' = []
  /\ interactions d' = []
  /\ Success (fst (Stop d')) = false.
Proof.
  intros d'. subst d'. unfold Start. cbn [started NewStageDirectorWithConfig]. cbv zeta.
  cbn [model]. unfold waitForProgramReady.
  match goal with
  | |- context [waitForProgramReady_loop ?i ?sl ?tb ?d1] =>
      destruct (inert_waitForProgramReady_loop i sl tb d1) as (err & d2 & -> & Hd2)
  end.
  { split; [reflexivity |]. split; eexists; split; reflexivity. }
  set (tr := newStageTrip "STARTUP_FAILED" err (<["error" := VString err]> ∅)).
  destruct (recordTrip_unrecoverable tr d2 eq_refl) as (Hf & Ht & _).
  pose proof (recordTrip_lastTrip tr d2) as Hl.
  pose proof (recordTrip_interactions tr d2) as Hi.
  destruct (recordTrip_frame tr d2) as [Hsn _].
  assert (Hst : started (recordTrip tr d2) = started d2).
  { unfold recordTrip. cbv zeta.
    destruct (trip.CanRecover tr); cbn; destruct (t d2); cbn;
      destruct (trip.IsFall tr); reflexivity. }
  rewrite Stop_Success, Hf, Hl, Hi, Hsn, Hst, Ht.
  split; [destruct Hd2 as [-> | ->]; reflexivity |].
  split; [reflexivity |].
  split.
  { exists tr. split; [reflexivity |].
    split; [destruct Hd2 as [-> | ->]; reflexivity |].
    split; [reflexivity |]. split; [reflexivity |].
    unfold trip.GetContext. cbn. apply lookup_insert_eq. }
  split; [destruct Hd2 as [-> | ->]; reflexivity |].
  split; [destruct Hd2 as [-> | ->]; reflexivity | reflexivity].
Qed.

(** ** More on sessions *)

Section MoreSessionProperties.

Context {M : Type} `{!REPLModel M} `{!Fmt M}.

Implicit Types (d : StageDirector M).

Lemma tframe_PressBackspace sched d :
  tframe (PressBackspace sched d)
  = (interactions d ++
       [{| action_Type := "keypress"; action_Details := VString "backspace";
           action_Result := VNil |}],
     match sentlog d with Some l => Some (l ++ [KeyMsg KeyBackspace []]) | None => None end,
     config d).
Proof.
  pose proof (tframe_sendMessage (KeyMsg KeyBackspace []) sched d) as H.
  unfold PressBackspace, tframe, recordStageAction, sentlog in *. cbn.
  injection H as Hi Hs Hc. rewrite Hi, Hs, Hc. reflexivity.
Qed.

Lemma tframe_Wait duration during d :
  tframe (Wait duration during d)
  = (interactions d ++
       [{| action_Type := "wait"; action_Details := VDuration duration;
           action_Result := VNil |}],
     sentlog d, config d).
Proof.
  unfold Wait. rewrite tframe_captureSnapshot.
  pose proof (tframe_run_bg during d) as H.
  unfold tframe, recordStageAction, sentlog in *. cbn.
  injection H as Hi Hs Hc. rewrite Hi, Hs, Hc. reflexivity.
Qed.

Lemma tframe_ClearInput_loop n scheds d :
  tframe (ClearInput_loop n scheds d)
  = (interactions d ++ concat (repeat (backspace_actions (TypingSpeed (config d))) n),
     match sentlog d with
     | Some l => Some (l ++ repeat (KeyMsg KeyBackspace []) n)
     | None => None
     end,
     config d).
Proof.
  revert scheds d. induction n as [| n IH]; intros scheds d.
  - cbn. unfold tframe. rewrite app_nil_r.
    destruct (sentlog d) as [l |]; [rewrite app_nil_r |]; reflexivity.
  - cbn [ClearInput_loop]. cbv zeta.
    pose proof (tframe_PressBackspace (ks_view (hd idle_key scheds)) d) as H1.
    set (d1 := PressBackspace (ks_view (hd idle_key scheds)) d) in *. clearbody d1.
    assert (Hc1 : config d1 = config d) by (unfold tframe in H1; congruence).
    match goal with
    | |- tframe (ClearInput_loop n (tl scheds) ?x) = _ =>
        assert (H2 : tframe x
                     = (interactions d ++ backspace_actions (TypingSpeed (config d)),
                        match sentlog d with
                        | Some l => Some (l ++ [KeyMsg KeyBackspace []])
                        | None => None
                        end,
                        config d));
        [| generalize dependent x; intros d2 H2]
    end.
    { unfold backspace_actions. rewrite Hc1.
      destruct (0 <? TypingSpeed (config d)).
      - rewrite tframe_Wait. unfold tframe in H1. injection H1 as Hi Hs Hc.
        rewrite Hi, Hs, Hc, <- app_assoc. reflexivity.
      - exact H1. }
    rewrite IH. unfold tframe in H2. injection H2 as Hi Hs Hc. rewrite Hi, Hs, Hc.
    cbn [repeat concat]. rewrite <- app_assoc.
    destruct (sentlog d) as [l |]; [| reflexivity].
    rewrite <- app_assoc. reflexivity.
Qed.

Lemma ShouldContinue_ext d d' :
  ext d d' ->
  trip.ShouldContinue (tripHandler d) = false ->
  trip.ShouldContinue (tripHandler d') = false.
Proof.
  intros [trs Htrs] Hc.
  assert (Hgen : forall s,
             fst (fst (fold_left record_ts trs s)) = fold_left trip.Record_ trs (fst (fst s))).
  { clear. induction trs as [| tr trs IH]; intros s; [reflexivity |].
    cbn [fold_left]. rewrite IH. reflexivity. }
  specialize (Hgen (tstate d)). rewrite <- Htrs in Hgen. cbn in Hgen. rewrite Hgen.
  apply ShouldContinue_fold_false, Hc.
Qed.

End MoreSessionProperties.

(** X19. On a director whose [t] is not nil, [ClearInput] presses
    backspace once per rune of the input the director sees when the call
    starts (once per character for an input of bytes below 128): that many
    backspace messages go to the program (none when there is no program),
    and that many keypress actions are logged, each followed by a wait
    action when the typing speed is positive; the configuration is
    unchanged. *)
Theorem ClearInput_one_backspace_per_character {M : Type} `{!REPLModel M} `{!Fmt M}
    (scheds : list key_schedule) (d : StageDirector M) :
  t d <> None ->
  let n := length (runes (getCurrentInput d)) in
  let d' := ClearInput scheds d in
  sentlog d' = match sentlog d with
               | Some sent => Some (sent ++ repeat (KeyMsg KeyBackspace []) n)
               | None => None
               end
  /\ interactions d'
     = interactions d ++ concat (repeat (backspace_actions (TypingSpeed (config d))) n)
  /\ config d' = config d
  /\ (all_chars (fun c => (nat_of_ascii c <? 128)%nat) (getCurrentInput d) = true ->
      n = String.length (getCurrentInput d)).
Proof.
  intros _ n d'. pose proof (tframe_ClearInput_loop n scheds d) as H.
  unfold tframe in H. injection H as Hi Hs Hc.
  split; [exact Hs |]. split; [exact Hi |]. split; [exact Hc |].
  intros Hascii. subst n. rewrite (runes_ascii _ Hascii), length_map.
  clear. induction (getCurrentInput d) as [| x s IH]; cbn; [reflexivity | f_equal; exact IH].
Qed.

Lemma ClearInput_one_backspace_per_character_witness :
  let e_acute := String (ascii_of_nat 195) (String (ascii_of_nat 169) EmptyString) in
  let handled := {| ks_view := {| sleeps := [[ProgramStep; ConsumerStep]; []];
                                  tie := TimerCase |};
                    ks_delay := [] |} in
  let d := Type_ (e_acute +:+ "b") (repeat handled 2)
             (Start {| sleeps := [[]]; tie := TimerCase |}
                (NewStageDirector (Some newT) (Some NewMockREPL))) in
  getCurrentInput d = e_acute +:+ "b"
  /\ String.length (getCurrentInput d) = 3%nat
  /\ sentlog (ClearInput [] d)
     = Some (map key [e_acute; "b"] ++ [KeyMsg KeyBackspace []; KeyMsg KeyBackspace []]).
Proof.
  intros e_acute handled d. split; [vm_compute; reflexivity |].
  split; [vm_compute; reflexivity |].
  destruct (ClearInput_one_backspace_per_character [] d) as (Hsent & _).
  - vm_compute. discriminate.
  - rewrite Hsent. vm_compute. reflexivity.
Defined.

(** X20. [HasFailed] never goes back to false: once it holds, it holds
    after every further call of the session. *)
Theorem HasFailed_is_final {M : Type} `{!REPLModel M} `{!Fmt M}
    (ops : list op) (d d' : StageDirector M) :
  HasFailed d = true -> run ops d = Some d' -> HasFailed d' = true.
Proof.
  unfold HasFailed. intros Hf Hrun. pose proof (ext_run ops d d' Hrun) as Hext.
  apply orb_true_iff in Hf as [Hf | Hc].
  - rewrite (failed_sticky d d' Hext Hf). reflexivity.
  - apply negb_true_iff in Hc. rewrite (ShouldContinue_ext d d' Hext Hc).
    apply orb_true_r.
Qed.

(** X21. [truncateString] returns a string of at most [maxLen] + 3
    characters: the string itself when it has at most [maxLen] characters,
    its first [maxLen] characters followed by three dots otherwise. *)
Theorem truncateString_bounds (s : string) (maxLen : nat) :
  (String.length (truncateString s maxLen) <= maxLen + 3)%nat
  /\ (if (String.length s <=? maxLen)%nat
      then truncateString s maxLen = s
      else exists kept cut,
             s = kept +:+ cut
             /\ String.length kept = maxLen
             /\ truncateString s maxLen = kept +:+ "...").
Proof.
  unfold truncateString.
  destruct (Nat.leb_spec (String.length s) maxLen) as [Hle | Hgt].
  - split; [lia | reflexivity].
  - assert (Hsplit : exists cut, s = String.substring 0 maxLen s +:+ cut
                                 /\ String.length (String.substring 0 maxLen s) = maxLen).
    { clear - Hgt. revert s Hgt. induction maxLen as [| k IH]; intros s Hgt.
      - exists s. destruct s; split; reflexivity.
      - destruct s as [| c s]; [cbn in Hgt; lia |].
        destruct (IH s) as (cut & Hs & Hl); [cbn in Hgt; lia |].
        exists cut. cbn [String.substring String.length].
        rewrite append_String, <- Hs, Hl. split; reflexivity. }
    destruct Hsplit as (cut & Hs & Hl).
    split.
    + pose proof (len_append (String.substring 0 maxLen s) "...") as Hlen. unfold len in Hlen. cbn [String.length] in Hlen. lia.
    + exists (String.substring 0 maxLen s), cut. auto.
Qed.

Lemma HasFailed_is_final_witness :
  let d := fold_left (fun d _ => recordTrip (trip.NewStumble "timing" "late" ∅) d) (seq 0 11)
             (NewStageDirector (Some newT) (Some NewMockREPL)) in
  failed d = false
  /\ exists d', run [OpType "a" []; OpAssertMode "initial"] d = Some d'
                /\ HasFailed d' = true.
Proof.
  intros d. split; [vm_compute; reflexivity |].
  eexists. split; [vm_compute; reflexivity |].
  apply (HasFailed_is_final [OpType "a" []; OpAssertMode "initial"] d);
    vm_compute; reflexivity.
Defined.

(** ** The rendering stage *)

Section Rendering.

Implicit Types (rs : RenderingStage).

Lemma insert_middle {A : Type} (l1 l2 : list A) (x y : A) :
  <[length l1 := y]> (l1 ++ x :: l2) = l1 ++ y :: l2.
Proof. induction l1 as [| a l1 IH]; [reflexivity |]. cbn. f_equal. exact IH. Qed.

Lemma lookup_middle {A : Type} (l1 l2 : list A) (x : A) :
  (l1 ++ x :: l2) !! length l1 = Some x.
Proof. induction l1 as [| a l1 IH]; [reflexivity | exact IH]. Qed.

Lemma set_cell_middle {A : Type} (pre post : list (option (list A)))
    (done todo : list A) (x v : A) (i j : nat) :
  i = length pre -> j = length done ->
  set_cell (pre ++ Some (done ++ x :: todo) :: post) i j v
  = Some (pre ++ Some (done ++ v :: todo) :: post).
Proof.
  intros -> ->. unfold set_cell. rewrite lookup_middle.
  destruct (Nat.ltb_spec (length done) (length (done ++ x :: todo))) as [_ | Hge].
  - rewrite !insert_middle. reflexivity.
  - rewrite length_app in Hge. cbn in Hge. lia.
Qed.

(** The cells a line writes over what a row holds. *)
Lemma renderLine_loop_spec (chars : list string) (pre post : list (option (list string)))
    (cpre cpost : list (option (list RGBA))) (done todo : list string)
    (cdone ctodo : list RGBA) rs :
  buffer rs = pre ++ Some (done ++ todo) :: post ->
  colorMap rs = cpre ++ Some (cdone ++ ctodo) :: cpost ->
  length cpre = length pre ->
  length cdone = length done ->
  length ctodo = length todo ->
  (length done + length todo = Width (rs_config rs))%nat ->
  exists rs' crow,
    renderLine_loop (length pre) (length done) chars rs = Some rs'
    /\ rs_config rs' = rs_config rs
    /\ charWidth rs' = charWidth rs /\ charHeight rs' = charHeight rs
    /\ buffer rs'
       = pre ++ Some (done ++ take (length todo) (chars)
                        ++ drop (length (take (length todo) (chars)))
                             todo) :: post
    /\ colorMap rs' = cpre ++ Some crow :: cpost
    /\ length crow = Width (rs_config rs).
Proof.
  revert done todo cdone ctodo rs.
  induction chars as [| c chars IH]; intros done todo cdone ctodo rs Hb Hc Hcp Hcd Hct Hw.
  - exists rs, (cdone ++ ctodo). cbn. rewrite take_nil. cbn.
    repeat split; try assumption. rewrite length_app. lia.
  - cbn [renderLine_loop].
    destruct (Nat.leb_spec (Width (rs_config rs)) (length done)) as [Hfull | Hroom].
    + assert (todo = []) by (destruct todo; [reflexivity | cbn in Hw; lia]). subst todo.
      exists rs, (cdone ++ ctodo). cbn.
      repeat split; try assumption. rewrite length_app. lia.
    + destruct todo as [| x todo]; [cbn in Hw; lia |].
      destruct ctodo as [| cx ctodo]; [discriminate |].
      rewrite Hb, Hc.
      rewrite (set_cell_middle pre post done todo x c) by reflexivity.
      rewrite (set_cell_middle cpre cpost cdone ctodo cx (Foreground (rs_config rs)))
        by (symmetry; assumption).
      set (rs1 := {| rs_config := rs_config rs;
                     buffer := pre ++ Some (done ++ c :: todo) :: post;
                     colorMap := cpre ++ Some (cdone ++ Foreground (rs_config rs) :: ctodo)
                                   :: cpost;
                     charWidth := charWidth rs; charHeight := charHeight rs |}).
      destruct (IH (done ++ [c]) todo (cdone ++ [Foreground (rs_config rs)]) ctodo rs1)
        as (rs' & crow & Hloop & Hcfg & Hcw & Hch & Hbuf & Hcol & Hlen).
      * cbn. rewrite <- app_assoc. reflexivity.
      * cbn. rewrite <- app_assoc. reflexivity.
      * exact Hcp.
      * rewrite !length_app. cbn. lia.
      * cbn in Hct. lia.
      * cbn. rewrite length_app. cbn in *. lia.
      * exists rs', crow. rewrite length_app in Hloop. cbn [length] in Hloop.
        rewrite Nat.add_1_r in Hloop.
        repeat split; try assumption.
        rewrite Hbuf. cbn. rewrite <- app_assoc. reflexivity.
Qed.


Lemma written_length (w : nat) (chars row : list string) :
  length row = w ->
  length (take (length row) chars ++ drop (length (take (length row) chars)) row) = w.
Proof.
  intros Hw. rewrite length_app, length_drop, length_take. lia.
Qed.

(** The rows a text writes, from row [length pre] on. *)
Lemma RenderText_lines_spec (lines : list string) (pre : list (option (list string)))
    (cpre : list (option (list RGBA))) (rows : list (list string))
    (crows : list (list RGBA)) rs :
  buffer rs = pre ++ map Some rows ->
  colorMap rs = cpre ++ map Some crows ->
  length cpre = length pre ->
  length crows = length rows ->
  Forall (fun row => length row = Width (rs_config rs)) rows ->
  Forall (fun row => length row = Width (rs_config rs)) crows ->
  (length pre + length rows = Height (rs_config rs))%nat ->
  exists rs' crows',
    RenderText_lines (length pre) lines rs = Some rs'
    /\ rs_config rs' = rs_config rs
    /\ charWidth rs' = charWidth rs /\ charHeight rs' = charHeight rs
    /\ buffer rs'
       = pre ++ map Some
                  (zip_with (fun line row =>
                               take (length row) (runes (stripANSI line))
                               ++ drop (length (take (length row)
                                                  (runes (stripANSI line))))
                                    row) lines rows
                   ++ drop (length lines) rows)
    /\ colorMap rs' = cpre ++ map Some crows'
    /\ length crows' = length rows
    /\ Forall (fun row => length row = Width (rs_config rs)) crows'.
Proof.
  revert pre cpre rows crows rs.
  induction lines as [| line lines IH]; intros pre cpre rows crows rs Hb Hc Hcp Hcr Hrows
    Hcrows Hh.
  - exists rs, crows. cbn. rewrite drop_0. repeat split; assumption.
  - cbn [RenderText_lines].
    destruct (Nat.leb_spec (Height (rs_config rs)) (length pre)) as [Hfull | Hroom].
    + assert (rows = []) by (destruct rows; [reflexivity | cbn in Hh; lia]). subst rows.
      exists rs, crows. cbn. repeat split; assumption.
    + destruct rows as [| row rows]; [cbn in Hh; lia |].
      destruct crows as [| crow crows]; [discriminate |].
      apply Forall_cons in Hrows as [Hrow Hrows].
      apply Forall_cons in Hcrows as [Hcrow Hcrows].
      cbn [map] in Hb, Hc. unfold renderLine.
      destruct (renderLine_loop_spec (runes (stripANSI line)) pre (map Some rows) cpre
                  (map Some crows) [] row [] crow rs)
        as (rs1 & crow1 & Hloop & Hcfg & Hcw & Hch & Hbuf & Hcol & Hlen);
        try assumption; try reflexivity.
      { congruence. }
      cbn [length] in Hloop. rewrite Hloop.
      destruct (IH (pre ++ [Some (take (length row) (runes (stripANSI line))
                                  ++ drop (length (take (length row)
                                                     (runes (stripANSI line))))
                                       row)])
                  (cpre ++ [Some crow1]) rows crows rs1)
        as (rs' & crows' & Hlines & Hcfg' & Hcw' & Hch' & Hbuf' & Hcol' & Hlen' & Hall').
      * rewrite Hbuf, <- app_assoc. reflexivity.
      * rewrite Hcol, <- app_assoc. reflexivity.
      * rewrite !length_app. cbn. lia.
      * cbn in Hcr. lia.
      * rewrite Hcfg. exact Hrows.
      * rewrite Hcfg. exact Hcrows.
      * rewrite Hcfg, length_app. cbn in *. lia.
      * rewrite length_app in Hlines. cbn [length] in Hlines.
        rewrite Nat.add_1_r in Hlines.
        exists rs', (crow1 :: crows'). rewrite Hlines, Hcfg', Hcw', Hch', Hbuf', Hcol'.
        rewrite Hcfg in *.
        repeat split; try congruence.
        -- rewrite <- !app_assoc. reflexivity.
        -- rewrite <- !app_assoc. reflexivity.
        -- cbn. lia.
        -- apply Forall_cons. split; assumption.
Qed.


Lemma zip_with_written_sized (w : nat) (lines : list string) (rows : list (list string)) :
  Forall (fun row => length row = w) rows ->
  Forall (fun row => length row = w)
    (zip_with (fun line row =>
                 take (length row) (runes (stripANSI line))
                 ++ drop (length (take (length row) (runes (stripANSI line))))
                      row) lines rows
     ++ drop (length lines) rows)
  /\ length (zip_with (fun line row =>
                         take (length row) (runes (stripANSI line))
                         ++ drop (length (take (length row)
                                            (runes (stripANSI line))))
                              row) lines rows
             ++ drop (length lines) rows) = length rows.
Proof.
  revert rows. induction lines as [| line lines IH]; intros rows Hrows.
  - cbn. rewrite drop_0. auto.
  - destruct rows as [| row rows]; [cbn; auto |].
    apply Forall_cons in Hrows as [Hrow Hrows].
    destruct (IH rows Hrows) as [Hall Hlen]. cbn. split.
    + apply Forall_cons. split; [apply written_length; exact Hrow | exact Hall].
    + f_equal. exact Hlen.
Qed.

(** The stage [RenderText] hands to its loop over the lines. *)
Lemma RenderText_cleared (text : string) rs :
  sized rs ->
  exists rows crows,
    RenderText text rs
    = RenderText_lines O (Split_lines text)
        {| rs_config := rs_config rs; buffer := map Some rows; colorMap := map Some crows;
           charWidth := charWidth rs; charHeight := charHeight rs |}
    /\ length rows = Height (rs_config rs)
    /\ length crows = Height (rs_config rs)
    /\ Forall (fun row => length row = Width (rs_config rs)) rows
    /\ Forall (fun row => length row = Width (rs_config rs)) crows
    /\ Forall (Forall (fun c => String.eqb c space_rune || String.eqb c zero_rune = true)) rows.
Proof.
  intros (Hb & Hc & Hrows & Hcrows).
  exists (map (fun row => match row with
                          | None => repeat zero_rune (Width (rs_config rs))
                          | Some r => map (fun _ => space_rune) r
                          end) (buffer rs)),
         (map (fun row => match row with
                          | None => repeat (mkRGBA 0 0 0 0) (Width (rs_config rs))
                          | Some r => map (fun _ => Foreground (rs_config rs)) r
                          end) (colorMap rs)).
  split; [| split; [| split; [| split; [| split]]]].
  - unfold RenderText. cbv zeta.
    destruct (Nat.ltb_spec (length (colorMap rs)) (length (buffer rs))); [lia |].
    rewrite take_ge, drop_ge, app_nil_r by lia.
    rewrite !map_map. f_equal. f_equal.
    + apply map_ext. intros [r |]; reflexivity.
    + apply map_ext. intros [r |]; reflexivity.
  - rewrite length_map. exact Hb.
  - rewrite length_map. exact Hc.
  - apply Forall_map. eapply Forall_impl; [exact Hrows |].
    intros [r |] Hr; cbn; [rewrite length_map; auto | apply repeat_length].
  - apply Forall_map. eapply Forall_impl; [exact Hcrows |].
    intros [r |] Hr; cbn; [rewrite length_map; auto | apply repeat_length].
  - apply Forall_map. apply Forall_forall. intros [r |] _; cbn.
    + apply Forall_map. apply Forall_forall. intros; reflexivity.
    + apply Forall_forall. intros c Hin. apply list_elem_of_In, repeat_spec in Hin.
      subst. reflexivity.
Qed.

Lemma concat_imap_nil {A B : Type} (P : A -> Prop) (f : nat -> A -> list B) (l : list A) :
  (forall i x, P x -> f i x = []) -> Forall P l -> concat (imap f l) = [].
Proof.
  intros Hf Hl. revert f Hf. induction Hl as [| x l Hx _ IH]; intros f Hf; [reflexivity |].
  cbn. rewrite (Hf O x Hx). cbn. apply IH. intros i y Hy. apply Hf, Hy.
Qed.

Lemma row_draws_blank (cw ch : Z) (lineIdx : nat) (chars blanks : list string) :
  Forall (fun c => String.eqb c space_rune || String.eqb c zero_rune = true) blanks ->
  row_draws cw ch lineIdx (chars ++ blanks) = row_draws cw ch lineIdx chars.
Proof.
  intros Hblank. unfold row_draws. rewrite imap_app, concat_app.
  match goal with
  | |- _ ++ ?x = _ => assert (Hnil : x = []); [| rewrite Hnil; apply app_nil_r]
  end.
  apply (concat_imap_nil (fun c => String.eqb c space_rune || String.eqb c zero_rune = true));
    [| exact Hblank].
  intros i c Hc. cbn. rewrite Hc. reflexivity.
Qed.

Lemma Forall_drop {A : Type} (P : A -> Prop) (n : nat) (l : list A) :
  Forall P l -> Forall P (drop n l).
Proof.
  intros Hl. revert n. induction Hl as [| x l Hx Hl IH]; intros [| n]; cbn; auto.
Qed.

(** What is drawn of the rows a text has written over rows that draw
    nothing. *)
Lemma draws_written (Q : list string -> Prop) (lines : list string)
    (rows : list (list string))
    (f : nat -> option (list string) -> list (Z * Z * string))
    (g : nat -> string -> list (Z * Z * string)) :
  Forall Q rows ->
  (forall i line row,
     Q row ->
     f i (Some (take (length row) (runes (stripANSI line))
                ++ drop (length (take (length row) (runes (stripANSI line))))
                     row))
     = g i line) ->
  (forall i row, Q row -> f i (Some row) = []) ->
  concat (imap f (map Some
                    (zip_with (fun line row =>
                                 take (length row) (runes (stripANSI line))
                                 ++ drop (length (take (length row)
                                                    (runes (stripANSI line))))
                                      row) lines rows
                     ++ drop (length lines) rows)))
  = concat (imap g (take (length rows) lines)).
Proof.
  revert rows f g. induction lines as [| line lines IH]; intros rows f g Hrows Hfg Hblank.
  - cbn. rewrite drop_0, take_nil. cbn.
    apply (concat_imap_nil (fun row => exists r, row = Some r /\ Q r)).
    + intros i x (r & -> & Hr). apply Hblank, Hr.
    + apply Forall_map. eapply Forall_impl; [exact Hrows |]. intros r Hr. cbn. eauto.
  - destruct rows as [| row rows]; [reflexivity |].
    apply Forall_cons in Hrows as [Hrow Hrows].
    cbn. rewrite (Hfg O line row Hrow). f_equal.
    apply IH; [exact Hrows | |].
    + intros i l r Hr. apply Hfg, Hr.
    + intros i r Hr. apply Hblank, Hr.
Qed.

Lemma RenderText_sized (text : string) (rs : RenderingStage) :
  sized rs ->
  exists rs',
    RenderText text rs = Some rs'
    /\ sized rs'
    /\ rs_config rs' = rs_config rs
    /\ charWidth rs' = charWidth rs /\ charHeight rs' = charHeight rs
    /\ Forall (fun row => row <> None) (buffer rs').
Proof.
  intros Hs. destruct (RenderText_cleared text rs Hs)
    as (rows & crows & -> & Hlr & Hlc & Hrows & Hcrows & _).
  match goal with
  | |- context [RenderText_lines O ?lines ?rs0] =>
      destruct (RenderText_lines_spec lines [] [] rows crows rs0)
        as (rs' & crows' & Hlines & Hcfg & Hcw & Hch & Hbuf & Hcol & Hlen & Hall);
        first [reflexivity | assumption | lia | (cbn; lia) | idtac]
  end.
  cbn [length] in Hlines. exists rs'. split; [exact Hlines |].
  cbn [rs_config] in *. cbn [app] in Hbuf, Hcol.
  destruct (zip_with_written_sized (Width (rs_config rs)) (Split_lines text) rows Hrows)
    as [Hall' Hlen'].
  split; [| split; [exact Hcfg | split; [exact Hcw | split; [exact Hch |]]]].
  - unfold sized. rewrite Hcfg, Hbuf, Hcol, !length_map, Hlen', Hlen.
    split; [exact Hlr |]. split; [exact Hlr |]. split.
    + apply Forall_map. eapply Forall_impl; [exact Hall' |].
      intros r Hr r' [= <-]. exact Hr.
    + apply Forall_map. eapply Forall_impl; [exact Hall |].
      intros r Hr r' [= <-]. exact Hr.
  - rewrite Hbuf. apply Forall_map. apply Forall_forall. intros r _. discriminate.
Qed.

Lemma RenderText_draws (text : string) (rs rs' : RenderingStage) :
  sized rs ->
  RenderText text rs = Some rs' ->
  CaptureFrame_draws rs'
  = concat
      (imap (fun lineIdx line =>
               row_draws (charWidth rs) (charHeight rs) lineIdx
                 (take (Width (rs_config rs)) (runes (stripANSI line))))
         (take (Height (rs_config rs)) (Split_lines text))).
Proof.
  intros Hs. destruct (RenderText_cleared text rs Hs)
    as (rows & crows & -> & Hlr & Hlc & Hrows & Hcrows & Hblank).
  match goal with
  | |- context [RenderText_lines O ?lines ?rs0] =>
      destruct (RenderText_lines_spec lines [] [] rows crows rs0)
        as (rs1 & crows' & Hlines & Hcfg & Hcw & Hch & Hbuf & _);
        first [reflexivity | assumption | lia | (cbn; lia) | idtac]
  end.
  cbn [length] in Hlines. rewrite Hlines. intros [= <-].
  cbn [rs_config charWidth charHeight] in *. cbn [app] in Hbuf.
  unfold CaptureFrame_draws. rewrite Hbuf, Hcw, Hch, <- Hlr.
  apply (draws_written
           (fun row => length row = Width (rs_config rs)
                       /\ Forall (fun c => String.eqb c space_rune || String.eqb c zero_rune = true) row)).
  - apply Forall_and. split; assumption.
  - intros i line row [Hw Hrow].
    rewrite row_draws_blank by (apply Forall_drop, Hrow). rewrite Hw. reflexivity.
  - intros i row [_ Hrow]. apply (row_draws_blank _ _ _ [] row Hrow).
Qed.

Lemma sized_NewRenderingStage (config : Config) : sized (NewRenderingStage config).
Proof.
  unfold sized, NewRenderingStage. cbn. rewrite !repeat_length.
  repeat split; apply Forall_forall; intros row Hin r ->;
    apply list_elem_of_In, repeat_spec in Hin; discriminate.
Qed.

End Rendering.

(** X22. [RenderText] on a stage of the configured size never indexes out
    of range, whatever the text: it returns, the buffer and the colour map
    keep the configured height and width, the configuration is unchanged,
    and every row of the buffer is allocated afterwards. *)
Theorem RenderText_stays_in_bounds (text : string) (rs : RenderingStage) :
  sized rs ->
  exists rs',
    RenderText text rs = Some rs'
    /\ sized rs'
    /\ rs_config rs' = rs_config rs
    /\ Forall (fun row => row <> None) (buffer rs').
Proof.
  intros Hs. destruct (RenderText_sized text rs Hs) as (rs' & H1 & H2 & H3 & _ & _ & H4).
  exists rs'. auto.
Qed.

Lemma RenderText_stays_in_bounds_witness :
  exists rs',
    RenderText
      ("a line of more than ten characters" +:+ nl +:+ "second" +:+ nl +:+ "third")
      (NewRenderingStage
         {| Width := 10; Height := 2; FontSize := 12;
            Background := mkRGBA 0 0 0 255; Foreground := mkRGBA 255 255 255 255;
            OutputDir := "" |}) = Some rs'
    /\ length (buffer rs') = 2%nat.
Proof.
  destruct (RenderText_stays_in_bounds
              ("a line of more than ten characters" +:+ nl +:+ "second" +:+ nl +:+ "third")
              (NewRenderingStage
                 {| Width := 10; Height := 2; FontSize := 12;
                    Background := mkRGBA 0 0 0 255; Foreground := mkRGBA 255 255 255 255;
                    OutputDir := "" |}))
    as (rs' & Hr & (Hlen & _) & Hcfg & _).
  - apply sized_NewRenderingStage.
  - exists rs'. split; [exact Hr |]. rewrite Hlen, Hcfg. reflexivity.
Defined.

(** X23. After [RenderText], the runes [CaptureFrame] draws are those of
    the text alone, nothing of what the stage held before: line by line,
    the first [Height] lines, each without its ANSI sequences and cut to
    [Width] runes, spaces and runes 0 left out, the rune of column [i] of
    line [j] at ([i] * [charWidth], ([j] + 1) * [charHeight]). *)
Theorem RenderText_frame_shows_the_text (text : string) (rs rs' : RenderingStage) :
  sized rs ->
  RenderText text rs = Some rs' ->
  CaptureFrame_draws rs'
  = concat
      (imap (fun lineIdx line =>
               row_draws (charWidth rs) (charHeight rs) lineIdx
                 (take (Width (rs_config rs)) (runes (stripANSI line))))
         (take (Height (rs_config rs)) (Split_lines text))).
Proof. apply RenderText_draws. Qed.

Lemma RenderText_frame_shows_the_text_witness :
  let fg := mkRGBA 255 255 255 255 in
  let rs :=
    {| rs_config := {| Width := 3; Height := 2; FontSize := 12;
                       Background := mkRGBA 0 0 0 255; Foreground := fg; OutputDir := "" |};
       buffer := [Some ["o"; "l"; "d"]; Some ["x"; "y"; "z"]];
       colorMap := [Some [fg; fg; fg]; Some [fg; fg; fg]];
       charWidth := 8; charHeight := 16 |} in
  let e_acute := String (ascii_of_nat 195) (String (ascii_of_nat 169) EmptyString) in
  exists rs',
    RenderText (e_acute +:+ String ESC "[1mb") rs = Some rs'
    /\ CaptureFrame_draws rs' = [(0, 16, e_acute); (8, 16, "b")].
Proof.
  intros fg rs e_acute. eexists. split; [vm_compute; reflexivity |].
  etransitivity.
  - apply (RenderText_frame_shows_the_text (e_acute +:+ String ESC "[1mb") rs).
    + unfold sized. cbn. repeat split; repeat constructor; intros r [= <-]; reflexivity.
    + vm_compute. reflexivity.
  - vm_compute. reflexivity.
Defined.

(** ** The operator *)

Section OperatorProperties.

Context {M : Type} `{!REPLModel M} `{!Fmt M}.

Lemma Stop_after_failure (d : StageDirector M) :
  failed d = true -> Success (fst (Stop d)) = false.
Proof. intros Hf. rewrite Stop_Success, Hf. reflexivity. Qed.

Lemma recordTrip_reports_falls (tr : trip.Trip) (d : StageDirector M) (tst : TestingT) :
  trip.IsFall tr = true -> t d = Some tst ->
  t (recordTrip tr d)
  = Some {| t_errors := t_errors tst ++ [tr]; t_logs := t_logs tst |}.
Proof.
  intros Hfall Ht. unfold recordTrip. cbv zeta.
  destruct (negb (trip.CanRecover tr)); cbn; rewrite Ht, Hfall; reflexivity.
Qed.

End OperatorProperties.

(** X24. A frame that cannot be written fails the test: on a stage of the
    configured size [CaptureTrackingShot] returns, leaves the frame counter
    as it was and records a trip of type "visual" and severity [Fall] that
    carries the counter and the error; the trip is the last trip and the
    last of the handler's trips, [HasFailed] holds, [Stop] reports no
    success, and a [t] that is not nil has the trip among its errors. *)
Theorem camera_failure_fails_the_test {M : Type} `{!REPLModel M} `{!Fmt M}
    (label now err : string) (op : Operator M) :
  sized (renderingStage op) ->
  exists op' tr,
    CaptureTrackingShot label now (Some err) op = Some op'
    /\ frameCount op' = frameCount op
    /\ lastTrip (op_StageDirector op') = Some tr
    /\ trip.trips (tripHandler (op_StageDirector op'))
       = trip.trips (tripHandler (op_StageDirector op)) ++ [tr]
    /\ trip.trip_Type tr = "visual"
    /\ trip.trip_Severity tr = trip.Fall
    /\ trip.trip_Message tr = "Camera seizure during frame capture: " +:+ err
    /\ trip.GetContext tr "frame_count" = Some (VInt (frameCount op))
    /\ trip.GetContext tr "original_error" = Some (VString err)
    /\ HasFailed (op_StageDirector op') = true
    /\ Success (fst (Stop (op_StageDirector op'))) = false
    /\ (forall tst, t (op_StageDirector op) = Some tst ->
        exists tst', t (op_StageDirector op') = Some tst'
                     /\ t_errors tst' = t_errors tst ++ [tr]).
Proof.
  intros Hs.
  destruct (RenderText_sized "[view capture not yet implemented]" (renderingStage op) Hs)
    as (rs' & Hr & _).
  unfold CaptureTrackingShot. rewrite Hr. cbv zeta.
  eexists. eexists. split; [reflexivity |]. cbn [frameCount op_StageDirector].
  match goal with |- context [recordTrip ?x _] => set (tr := x) end.
  assert (Hrec : trip.CanRecover tr = false) by reflexivity.
  destruct (recordTrip_unrecoverable tr (op_StageDirector op) Hrec) as (Hf & Htr & _).
  split; [reflexivity |].
  split; [apply recordTrip_lastTrip |].
  split; [exact Htr |].
  split; [reflexivity |]. split; [reflexivity |]. split; [reflexivity |].
  split; [reflexivity |]. split; [reflexivity |].
  split; [unfold HasFailed; rewrite Hf; reflexivity |].
  split; [apply Stop_after_failure, Hf |].
  intros tst Ht. eexists. split; [apply recordTrip_reports_falls; [reflexivity | exact Ht] |].
  reflexivity.
Qed.

Lemma camera_failure_fails_the_test_witness :
  let op := NewOperator (Some newT) (Some NewMockREPL) "film" in
  Handler_CanRecover (tripHandler (op_StageDirector op)) "visual" = true
  /\ exists op',
       CaptureTrackingShot "first" "20240101_120000" (Some "disk full") op = Some op'
       /\ frameCount op' = 0
       /\ HasFailed (op_StageDirector op') = true.
Proof.
  intros op. split; [vm_compute; reflexivity |].
  destruct (camera_failure_fails_the_test "first" "20240101_120000" "disk full" op)
    as (op' & tr & Hc & Hn & _ & _ & _ & _ & _ & _ & _ & Hf & _).
  - apply sized_NewRenderingStage.
  - exists op'. split; [exact Hc |]. split; [exact Hn | exact Hf].
Defined.

(** X25. A tracking shot whose frame is written does not look at the
    program: the director is left as it was (no interaction, no snapshot),
    the frame counter goes up by one, and what is drawn is the first
    [Width] characters of the constant placeholder text on the first line
    (nothing on a stage of height zero), whatever the director holds. *)
Theorem tracking_shot_shows_a_placeholder {M : Type} `{!REPLModel M} `{!Fmt M}
    (label now : string) (op : Operator M) :
  sized (renderingStage op) ->
  exists op',
    CaptureTrackingShot label now None op = Some op'
    /\ op_StageDirector op' = op_StageDirector op
    /\ frameCount op' = Int64.wrap (frameCount op + 1)
    /\ sized (renderingStage op')
    /\ CaptureFrame_draws (renderingStage op')
       = if Nat.eqb (Height (rs_config (renderingStage op))) 0 then []
         else row_draws (charWidth (renderingStage op)) (charHeight (renderingStage op)) 0
                (take (Width (rs_config (renderingStage op)))
                   (map str (list_ascii_of_string "[view capture not yet implemented]"))).
Proof.
  intros Hs.
  destruct (RenderText_sized "[view capture not yet implemented]" (renderingStage op) Hs)
    as (rs' & Hr & Hs' & _).
  unfold CaptureTrackingShot. rewrite Hr. cbv zeta.
  eexists. split; [reflexivity |]. cbn [frameCount op_StageDirector renderingStage].
  split; [reflexivity |]. split; [reflexivity |]. split; [exact Hs' |].
  rewrite (RenderText_draws _ _ _ Hs Hr).
  change (Split_lines "[view capture not yet implemented]")
    with ["[view capture not yet implemented]"].
  destruct (Height (rs_config (renderingStage op))) as [| h]; [reflexivity |].
  cbn [take imap concat Nat.eqb].
  change (stripANSI "[view capture not yet implemented]")
    with "[view capture not yet implemented]".
  rewrite take_nil. cbn [imap concat]. rewrite app_nil_r. reflexivity.
Qed.

Lemma tracking_shot_shows_a_placeholder_witness :
  let op := on_director (Start idle_wait)
              (NewOperator (Some newT) (Some NewMockREPL) "film") in
  exists op',
    TypeWithTrackingShot "hello" "typed" [] "20240101_120000" None op = Some op'
    /\ frameCount op' = 1
    /\ length (CaptureFrame_draws (renderingStage op')) = 30%nat.
Proof.
  intros op.
  destruct (tracking_shot_shows_a_placeholder "typed" "20240101_120000"
              (on_director (Type_ "hello" []) op))
    as (op' & Hc & _ & Hn & _ & Hd).
  - apply sized_NewRenderingStage.
  - exists op'. split; [exact Hc |]. split; [exact Hn |]. rewrite Hd.
    vm_compute. reflexivity.
Defined.

(** ** The teatest operator *)

Section TeaOperatorProperties.

Local Abbreviation shots op :=
  (map operators.details_text
     (List.filter (fun interaction => String.eqb (action_Type interaction) "tracking_shot")
        (operators.interactions op))).

Lemma wrap_succ (a : Z) : Int64.wrap (Int64.wrap a + 1) = Int64.wrap (a + 1).
Proof.
  unfold Int64.wrap.
  replace ((a + 2 ^ 63) mod 2 ^ 64 - 2 ^ 63 + 1 + 2 ^ 63)
    with ((a + 2 ^ 63) mod 2 ^ 64 + 1) by lia.
  rewrite Zplus_mod_idemp_l. f_equal. f_equal. lia.
Qed.

Lemma shots_recordInteraction (interactionType details : string) (op : operators.TeaOperator) :
  shots (operators.recordInteraction interactionType details op)
  = shots op ++ (if String.eqb interactionType "tracking_shot" then [details] else []).
Proof.
  unfold operators.recordInteraction. cbn [operators.interactions].
  rewrite List.filter_app, map_app. cbn [List.filter action_Type].
  destruct (String.eqb interactionType "tracking_shot"); reflexivity.
Qed.

Lemma run_call_sized (c : operators.call) (op op' : operators.TeaOperator) :
  operators.run_call c op = Some op' ->
  sized (operators.renderingStage op) ->
  sized (operators.renderingStage op')
  /\ (operators.teatestModel op = true -> operators.teatestModel op' = true).
Proof.
  intros Hrun Hs.
  destruct c as [timeout | | text | | | text shows | label saved];
    cbn [operators.run_call] in Hrun.
  - injection Hrun as <-. cbn. auto.
  - injection Hrun as <-. cbn. auto.
  - unfold operators.Type_ in Hrun.
    destruct (operators.teatestModel op || String.eqb text ""); [| discriminate].
    injection Hrun as <-. cbn. auto.
  - unfold operators.PressEnter in Hrun.
    destruct (operators.teatestModel op) eqn:Hm; [| discriminate].
    injection Hrun as <-. cbn. auto.
  - unfold operators.PressTab in Hrun.
    destruct (operators.teatestModel op) eqn:Hm; [| discriminate].
    injection Hrun as <-. cbn. auto.
  - unfold operators.WaitForText in Hrun.
    destruct (operators.teatestModel op && shows) eqn:Hm; [| discriminate].
    apply andb_true_iff in Hm as [Hm _].
    injection Hrun as <-. cbn. auto.
  - unfold operators.CaptureTrackingShot in Hrun. cbv zeta in Hrun.
    match type of Hrun with context [RenderText ?v _] => set (view := v) in * end.
    destruct (RenderText_sized view (operators.renderingStage op) Hs)
      as (rs' & Hr & Hs' & _).
    rewrite Hr in Hrun.
    destruct saved as [err |]; injection Hrun as <-; cbn; auto.
Qed.

Lemma run_call_keeps (c : operators.call) (op op' : operators.TeaOperator)
    (done : list string) :
  operators.run_call c op = Some op' ->
  sized (operators.renderingStage op) ->
  operators.frameCount op = Int64.wrap (Z.of_nat (length done)) ->
  shots op = done ->
  sized (operators.renderingStage op')
  /\ (operators.teatestModel op = true -> operators.teatestModel op' = true)
  /\ operators.frameCount op'
     = Int64.wrap (Z.of_nat (length (done ++ operators.frames_written [c])))
  /\ shots op' = done ++ operators.frames_written [c].
Proof.
  intros Hrun Hs Hn Hshots.
  destruct c as [timeout | | text | | | text shows | label saved];
    cbn [operators.run_call] in Hrun.
  - injection Hrun as <-. cbn. rewrite ?app_nil_r. intuition auto.
  - injection Hrun as <-. unfold operators.Start.
    rewrite shots_recordInteraction. cbn. rewrite ?app_nil_r. intuition auto.
  - unfold operators.Type_ in Hrun.
    destruct (operators.teatestModel op || String.eqb text ""); [| discriminate].
    injection Hrun as <-. rewrite shots_recordInteraction. cbn. rewrite ?app_nil_r. intuition auto.
  - unfold operators.PressEnter in Hrun.
    destruct (operators.teatestModel op) eqn:Hm; [| discriminate].
    injection Hrun as <-. rewrite shots_recordInteraction. cbn. rewrite ?app_nil_r. intuition auto.
  - unfold operators.PressTab in Hrun.
    destruct (operators.teatestModel op) eqn:Hm; [| discriminate].
    injection Hrun as <-. rewrite shots_recordInteraction. cbn. rewrite ?app_nil_r. intuition auto.
  - unfold operators.WaitForText in Hrun.
    destruct (operators.teatestModel op && shows) eqn:Hm; [| discriminate].
    apply andb_true_iff in Hm as [Hm _].
    injection Hrun as <-. rewrite shots_recordInteraction. cbn. rewrite ?app_nil_r. intuition auto.
  - unfold operators.CaptureTrackingShot in Hrun. cbv zeta in Hrun.
    match type of Hrun with context [RenderText ?v _] => set (view := v) in * end.
    destruct (RenderText_sized view (operators.renderingStage op) Hs)
      as (rs' & Hr & Hs' & _).
    rewrite Hr in Hrun.
    destruct saved as [err |]; injection Hrun as <-.
    + cbn. rewrite ?app_nil_r. intuition auto.
    + rewrite shots_recordInteraction. cbn.
      split; [exact Hs' |]. split; [auto |].
      rewrite Hshots, Hn, wrap_succ, length_app. cbn [length].
      split; [f_equal; lia | reflexivity].
Qed.

Lemma run_calls_keep (calls : list operators.call) :
  forall (op op' : operators.TeaOperator) (done : list string),
    operators.run_calls calls op = Some op' ->
    sized (operators.renderingStage op) ->
    operators.frameCount op = Int64.wrap (Z.of_nat (length done)) ->
    shots op = done ->
    sized (operators.renderingStage op')
    /\ (operators.teatestModel op = true -> operators.teatestModel op' = true)
    /\ operators.frameCount op'
       = Int64.wrap (Z.of_nat (length (done ++ operators.frames_written calls)))
    /\ shots op' = done ++ operators.frames_written calls.
Proof.
  induction calls as [| c calls IH]; intros op op' done Hrun Hs Hn Hshots.
  - injection Hrun as <-. cbn. rewrite ?app_nil_r. intuition auto.
  - cbn [operators.run_calls] in Hrun.
    destruct (operators.run_call c op) as [op1 |] eqn:Hc; [| discriminate].
    destruct (run_call_keeps c op op1 done Hc Hs Hn Hshots) as (Hs1 & Hm1 & Hn1 & Hsh1).
    destruct (IH op1 op' _ Hrun Hs1 Hn1 Hsh1) as (Hs' & Hm' & Hn' & Hsh').
    assert (Hcons : operators.frames_written (c :: calls)
                    = operators.frames_written [c] ++ operators.frames_written calls).
    { unfold operators.frames_written. cbn [flat_map]. rewrite app_nil_r. reflexivity. }
    rewrite Hcons, app_assoc. intuition auto.
Qed.

Lemma run_call_returns (c : operators.call) (op : operators.TeaOperator) :
  operators.teatestModel op = true ->
  sized (operators.renderingStage op) ->
  operators.awaited_text_shows c = true ->
  exists op', operators.run_call c op = Some op'.
Proof.
  intros Hm Hs Hshows.
  destruct c as [timeout | | text | | | text shows | label saved];
    cbn [operators.run_call];
    unfold operators.Type_, operators.PressEnter, operators.PressTab,
      operators.WaitForText; rewrite ?Hm; try (eexists; reflexivity).
  - cbn in Hshows. rewrite Hshows. eexists. reflexivity.
  - unfold operators.CaptureTrackingShot. cbv zeta.
    match goal with |- context [RenderText ?v _] => set (view := v) end.
    destruct (RenderText_sized view (operators.renderingStage op) Hs) as (rs' & Hr & _).
    rewrite Hr. destruct saved; eexists; reflexivity.
Qed.

Lemma run_calls_return (calls : list operators.call) :
  forall op : operators.TeaOperator,
    operators.teatestModel op = true ->
    sized (operators.renderingStage op) ->
    forallb operators.awaited_text_shows calls = true ->
    exists op', operators.run_calls calls op = Some op'.
Proof.
  induction calls as [| c calls IH]; intros op Hm Hs Hall.
  - eexists. reflexivity.
  - cbn [forallb] in Hall. apply andb_true_iff in Hall as [Hc Hall].
    destruct (run_call_returns c op Hm Hs Hc) as (op1 & H1).
    cbn [operators.run_calls]. rewrite H1.
    destruct (run_call_sized c op op1 H1 Hs) as (Hs1 & Hm1).
    apply IH; [apply Hm1, Hm | exact Hs1 | exact Hall].
Qed.

Lemma run_calls_app (calls1 calls2 : list operators.call) (op : operators.TeaOperator) :
  operators.run_calls (calls1 ++ calls2) op
  = match operators.run_calls calls1 op with
    | Some op1 => operators.run_calls calls2 op1
    | None => None
    end.
Proof.
  revert op. induction calls1 as [| c calls1 IH]; intros op; [reflexivity |].
  cbn [app operators.run_calls]. destruct (operators.run_call c op); [apply IH | reflexivity].
Qed.

Lemma frames_written_timeouts (timeouts : list Z) :
  operators.frames_written (map operators.CallWithTimeout timeouts) = [].
Proof. induction timeouts as [| x l IH]; [reflexivity | exact IH]. Qed.

End TeaOperatorProperties.

(** X26. A [TeaOperator] session that sets timeouts, starts and then makes
    calls whose awaited texts all show runs to its end, and [Stop] then
    reports success without an error whether or not frames could be
    written; its snapshots are one per written frame, in order, with the
    view "Frame captured: " followed by the label, and the frame counter is
    the number of written frames. *)
Theorem TeaOperator_Stop_reports_the_written_frames (outputDir : string)
    (timeouts : list Z) (calls : list operators.call) :
  forallb operators.awaited_text_shows calls = true ->
  exists op,
    operators.run_calls
      (map operators.CallWithTimeout timeouts ++ operators.CallStart :: calls)
      (operators.NewTeaOperator outputDir) = Some op
    /\ operators.frameCount op
       = Int64.wrap (Z.of_nat (length (operators.frames_written calls)))
    /\ Success (fst (operators.Stop op)) = true
    /\ Error_ (fst (operators.Stop op)) = None
    /\ Snapshots (fst (operators.Stop op))
       = map (fun label => {| snap_View := "Frame captured: " +:+ label;
                              snap_Mode := "teatest_mode"; snap_Input := "" |})
           (operators.frames_written calls).
Proof.
  intros Hall.
  set (all := map operators.CallWithTimeout timeouts ++ operators.CallStart :: calls).
  assert (Hret : exists op, operators.run_calls all (operators.NewTeaOperator outputDir) = Some op).
  { unfold all. rewrite run_calls_app.
    assert (Hpre : exists op1,
               operators.run_calls (map operators.CallWithTimeout timeouts)
                 (operators.NewTeaOperator outputDir) = Some op1
               /\ sized (operators.renderingStage op1)).
    { generalize (operators.NewTeaOperator outputDir)
        (sized_NewRenderingStage
           {| Width := 80; Height := 24; FontSize := 12;
              Background := mkRGBA 0 0 0 255; Foreground := mkRGBA 255 255 255 255;
              OutputDir := outputDir |}
         : sized (operators.renderingStage (operators.NewTeaOperator outputDir))).
      induction timeouts as [| x l IH]; intros op0 Hs0.
      - exists op0. split; [reflexivity | exact Hs0].
      - cbn [map operators.run_calls operators.run_call]. apply IH. exact Hs0. }
    destruct Hpre as (op1 & Hpre & Hs1). rewrite Hpre.
    cbn [operators.run_calls operators.run_call].
    apply run_calls_return; [reflexivity | exact Hs1 | exact Hall]. }
  destruct Hret as (op & Hrun). exists op. split; [exact Hrun |].
  destruct (run_calls_keep all (operators.NewTeaOperator outputDir) op [] Hrun)
    as (_ & _ & Hn & Hshots).
  { apply sized_NewRenderingStage. }
  { reflexivity. }
  { reflexivity. }
  assert (Hfw : operators.frames_written all = operators.frames_written calls).
  { unfold all, operators.frames_written. rewrite flat_map_app.
    fold (operators.frames_written (map operators.CallWithTimeout timeouts)).
    rewrite frames_written_timeouts. reflexivity. }
  rewrite Hfw in Hn, Hshots. cbn [app] in Hn, Hshots.
  split; [exact Hn |]. split; [reflexivity |]. split; [reflexivity |].
  rewrite <- Hshots. unfold operators.Stop. cbn [fst Snapshots].
  rewrite map_map. reflexivity.
Qed.

Lemma TeaOperator_Stop_reports_the_written_frames_witness :
  exists op,
    operators.run_calls
      [operators.CallWithTimeout (2 * second); operators.CallStart;
       operators.CallType "hello";
       operators.CallCaptureTrackingShot "typed" None;
       operators.CallPressEnter;
       operators.CallCaptureTrackingShot "lost" (Some "disk full");
       operators.CallWaitForText "done" true;
       operators.CallCaptureTrackingShot "done" None]
      (operators.NewTeaOperator "film") = Some op
    /\ operators.frameCount op = 2
    /\ Success (fst (operators.Stop op)) = true
    /\ map snap_View (Snapshots (fst (operators.Stop op)))
       = ["Frame captured: typed"; "Frame captured: done"].
Proof.
  destruct (TeaOperator_Stop_reports_the_written_frames "film" [2 * second]
              [operators.CallType "hello";
               operators.CallCaptureTrackingShot "typed" None;
               operators.CallPressEnter;
               operators.CallCaptureTrackingShot "lost" (Some "disk full");
               operators.CallWaitForText "done" true;
               operators.CallCaptureTrackingShot "done" None])
    as (op & Hrun & Hn & Hok & _ & Hsnap).
  - reflexivity.
  - exists op. split; [exact Hrun |]. split; [exact Hn |]. split; [exact Hok |].
    rewrite Hsnap. reflexivity.
Defined.

(** ** Assertions *)

Section Assertions.

Context {M : Type} `{!REPLModel M} `{!Fmt M}.

Implicit Types (d : StageDirector M).

Lemma Stop_ErrorMessage d : ErrorMessage (fst (Stop d)) = getErrorMessage d.
Proof.
  unfold Stop, getErrorMessage. cbv zeta.
  destruct (CaptureViews (config d) && started d); cbn;
    match goal with |- context [if ?c then _ else _] => destruct c end; cbn;
    match goal with |- context [match program ?x with _ => _ end] =>
      destruct (program x) end; reflexivity.
Qed.

Lemma assertion_passed (details : string) d :
  assertion_outcome true details "" d (recordStageAction "assertion" (VString details) d).
Proof. split; reflexivity. Qed.

Lemma assertion_failed (details message : string) (context : gmap string Value) d :
  assertion_outcome false details message d
    (recordTrip (newStageTrip "assertion" message context) d).
Proof.
  set (tr := newStageTrip "assertion" message context).
  assert (Hrec : trip.CanRecover tr = false) by reflexivity.
  destruct (recordTrip_unrecoverable tr d Hrec) as (Hf & Htr & _).
  exists tr. split; [apply recordTrip_lastTrip |]. split; [exact Htr |].
  split; [reflexivity |]. split; [reflexivity |]. split; [reflexivity |].
  split; [exact Hf |]. split; [apply recordTrip_interactions |].
  rewrite Stop_ErrorMessage. unfold getErrorMessage. rewrite recordTrip_lastTrip.
  reflexivity.
Qed.

End Assertions.

(** X27. An assertion leaves exactly one trace.  [AssertViewContains],
    [AssertMode] and [AssertInputEquals] that pass log one "assertion"
    action and leave the trips, the last trip and the failed flag alone;
    those that do not pass log no action and record one trip of type
    "assertion" and severity [Error], on a director that has failed
    already as on any other: that trip becomes the last trip, and its
    message is the one [Stop] reports. *)
Theorem assertions_leave_one_trace {M : Type} `{!REPLModel M} `{!Fmt M}
    (text expectedMode expected : string) (d : StageDirector M) :
  assertion_outcome (Contains (getCurrentView d) text)
    ("contains=" +:+ text) ("View does not contain expected text: " +:+ text)
    d (AssertViewContains text d)
  /\ assertion_outcome (String.eqb (getCurrentMode d) expectedMode)
       ("mode=" +:+ expectedMode)
       ("Expected mode " +:+ expectedMode +:+ ", got " +:+ getCurrentMode d)
       d (AssertMode expectedMode d)
  /\ assertion_outcome (String.eqb (getCurrentInput d) expected)
       ("input=" +:+ expected)
       ("Expected input '" +:+ expected +:+ "', got '" +:+ getCurrentInput d +:+ "'")
       d (AssertInputEquals expected d).
Proof.
  unfold AssertViewContains, AssertMode, AssertInputEquals. cbv zeta.
  repeat split.
  - destruct (Contains (getCurrentView d) text); cbn [negb].
    + apply assertion_passed.
    + apply assertion_failed.
  - destruct (String.eqb (getCurrentMode d) expectedMode); cbn [negb].
    + apply assertion_passed.
    + apply assertion_failed.
  - destruct (String.eqb (getCurrentInput d) expected); cbn [negb].
    + apply assertion_passed.
    + apply assertion_failed.
Qed.
